(** * Memory-hierarchy simulators: cache, TLB, Sv39 page walker, web front end

    A shallow embedding of the Python simulators
    - [01_Cache_Basics/cache_simulator.py]   (module [CacheSim]),
    - [03_TLB/tlb_simulator.py]              (module [TLBSim]),
    - [04_Page_Walk/page_walk_sim.py]        (module [PageWalk]),
    - [06_WebApp/app.py], route [/api/tlb/translate] (module [WebApp]),
    followed by the properties established about them.

    Python integers are unbounded, so they are embedded as [Z]; the
    bit operators [&], [|], [<<], [>>], [~] are [Z.land], [Z.lor],
    [Z.shiftl], [Z.shiftr], [Z.lnot] (two's complement on negative
    numbers in both worlds).  Exceptions are values of [result]. *)

From Stdlib Require Import ZArith Bool Lia.
From Stdlib.Strings Require Import Byte Ascii String.
From stdpp Require Import base option list list_numbers gmap strings.

Local Open Scope Z_scope.

(** ** Python run-time conventions shared by all simulators *)

Inductive Exn : Type :=
| ValueError | IndexError | KeyError | OverflowError | TypeError.

Inductive result (A : Type) : Type :=
| Ok (a : A)
| Raise (e : Exn).
Arguments Ok {A} a.
Arguments Raise {A} e.

Definition rbind {A B : Type} (m : result A) (k : A -> result B) : result B :=
  match m with
  | Ok a => k a
  | Raise e => Raise e
  end.

#[global] Instance result_bind : MBind result :=
  fun A B (k : A -> result B) (m : result A) => rbind m k.
#[global] Instance result_ret : MRet result := @Ok.

(** [a << n] and [a >> n]: a negative shift count raises [ValueError]. *)
Definition py_shl (a n : Z) : result Z :=
  if n <? 0 then Raise ValueError else Ok (Z.shiftl a n).
Definition py_shr (a n : Z) : result Z :=
  if n <? 0 then Raise ValueError else Ok (Z.shiftr a n).

(** [l[i]]: negative indices count from the end, anything outside
    [-len, len) raises [IndexError]. *)
Definition py_index {A : Type} (l : list A) (i : Z) : result A :=
  let n := Z.of_nat (length l) in
  let j := if i <? 0 then i + n else i in
  if (0 <=? j) && (j <? n) then
    match l !! Z.to_nat j with
    | Some x => Ok x
    | None => Raise IndexError
    end
  else Raise IndexError.

(** [l[lo:hi]] and [l[lo:hi] = new] on a list or bytearray, with
    Python's clamping of the slice bounds. *)
Definition py_slice_bound (len i : Z) : Z :=
  if i <? 0 then Z.max (i + len) 0 else Z.min i len.

Definition py_slice {A : Type} (l : list A) (lo hi : Z) : list A :=
  let n := Z.of_nat (length l) in
  let a := py_slice_bound n lo in
  let b := py_slice_bound n hi in
  take (Z.to_nat (b - a)) (drop (Z.to_nat a) l).

Definition py_slice_assign {A : Type} (l : list A) (lo hi : Z)
  (new : list A) : list A :=
  let n := Z.of_nat (length l) in
  let a := py_slice_bound n lo in
  let b := Z.max a (py_slice_bound n hi) in
  take (Z.to_nat a) l ++ new ++ drop (Z.to_nat b) l.

(** Bytes and their unsigned values. *)
Definition Z_of_byte (b : byte) : Z := Z.of_N (Byte.to_N b).
Definition byte_of_Z (z : Z) : byte :=
  default Byte.x00 (Byte.of_N (Z.to_N (z mod 256))).

(** [v.to_bytes(len, byteorder='little')]: [OverflowError] on a negative
    value or one that does not fit. *)
Fixpoint to_bytes_le (len : nat) (v : Z) : list byte :=
  match len with
  | O => []
  | S len' => byte_of_Z v :: to_bytes_le len' (v / 256)
  end.

Definition to_bytes (v : Z) (len : nat) : result (list byte) :=
  if (v <? 0) || (2 ^ (8 * Z.of_nat len) <=? v) then Raise OverflowError
  else Ok (to_bytes_le len v).

(** [int.from_bytes(bs, byteorder='little')] *)
Fixpoint from_bytes (bs : list byte) : Z :=
  match bs with
  | [] => 0
  | b :: rest => Z_of_byte b + 256 * from_bytes rest
  end.

(** ** The set-associative cache ([cache_simulator.py]) *)

Module CacheSim.

Inductive AccessType : Type := READ | WRITE.

Definition is_write (a : AccessType) : bool :=
  match a with WRITE => true | READ => false end.

Record CacheLine : Type := mkLine {
  valid : bool;
  dirty : bool;
  tag : Z;
  lru_counter : Z
}.

(** [CacheLine()] with the dataclass defaults. *)
Definition CacheLine_default : CacheLine := mkLine false false 0 0.

Record Cache : Type := mkCache {
  size : Z;
  block_size : Z;
  associativity : Z;
  address_bits : Z;
  num_blocks : Z;
  num_sets : Z;
  offset_bits : Z;
  index_bits : Z;
  tag_bits : Z;
  cache : list (list CacheLine);
  read_hits : Z;
  read_misses : Z;
  write_hits : Z;
  write_misses : Z;
  evictions : Z;
  dirty_evictions : Z;
  global_lru_counter : Z
}.

(** Field updates of the mutable attributes. *)
Definition with_cache (c : Cache) (m : list (list CacheLine)) : Cache :=
  mkCache (size c) (block_size c) (associativity c) (address_bits c)
    (num_blocks c) (num_sets c) (offset_bits c) (index_bits c) (tag_bits c)
    m (read_hits c) (read_misses c) (write_hits c) (write_misses c)
    (evictions c) (dirty_evictions c) (global_lru_counter c).

Definition with_stats (c : Cache) (rh rm wh wm ev dev : Z) : Cache :=
  mkCache (size c) (block_size c) (associativity c) (address_bits c)
    (num_blocks c) (num_sets c) (offset_bits c) (index_bits c) (tag_bits c)
    (cache c) rh rm wh wm ev dev (global_lru_counter c).

Definition with_global_lru_counter (c : Cache) (g : Z) : Cache :=
  mkCache (size c) (block_size c) (associativity c) (address_bits c)
    (num_blocks c) (num_sets c) (offset_bits c) (index_bits c) (tag_bits c)
    (cache c) (read_hits c) (read_misses c) (write_hits c) (write_misses c)
    (evictions c) (dirty_evictions c) g.

Definition incr_read_hits (c : Cache) : Cache :=
  with_stats c (read_hits c + 1) (read_misses c) (write_hits c)
    (write_misses c) (evictions c) (dirty_evictions c).
Definition incr_read_misses (c : Cache) : Cache :=
  with_stats c (read_hits c) (read_misses c + 1) (write_hits c)
    (write_misses c) (evictions c) (dirty_evictions c).
Definition incr_write_hits (c : Cache) : Cache :=
  with_stats c (read_hits c) (read_misses c) (write_hits c + 1)
    (write_misses c) (evictions c) (dirty_evictions c).
Definition incr_write_misses (c : Cache) : Cache :=
  with_stats c (read_hits c) (read_misses c) (write_hits c)
    (write_misses c + 1) (evictions c) (dirty_evictions c).
Definition incr_evictions (c : Cache) : Cache :=
  with_stats c (read_hits c) (read_misses c) (write_hits c)
    (write_misses c) (evictions c + 1) (dirty_evictions c).
Definition incr_dirty_evictions (c : Cache) : Cache :=
  with_stats c (read_hits c) (read_misses c) (write_hits c)
    (write_misses c) (evictions c) (dirty_evictions c + 1).

(** [n > 0 and (n & (n - 1)) == 0] *)
Definition _is_power_of_2 (n : Z) : bool :=
  (0 <? n) && (Z.land n (n - 1) =? 0).

(** [Cache.__init__].  [int(math.log2(n))] is only evaluated on powers
    of two, where it is the exact binary logarithm [Z.log2 n]. *)
Definition __init__ (size block_size associativity address_bits : Z)
  : result Cache :=
  if (size <=? 0) || (block_size <=? 0) || (associativity <=? 0) then
    Raise ValueError
  else if negb (size mod block_size =? 0) then Raise ValueError
  else if negb (_is_power_of_2 block_size) then Raise ValueError
  else
    let num_blocks := size / block_size in
    let num_sets := num_blocks / associativity in
    if negb (_is_power_of_2 num_sets) then Raise ValueError
    else
      let offset_bits := Z.log2 block_size in
      let index_bits := Z.log2 num_sets in
      let tag_bits := address_bits - index_bits - offset_bits in
      Ok (mkCache size block_size associativity address_bits
            num_blocks num_sets offset_bits index_bits tag_bits
            (replicate (Z.to_nat num_sets)
               (replicate (Z.to_nat associativity) CacheLine_default))
            0 0 0 0 0 0 0).

(** [_decompose_address]: [(tag, index, offset)]. *)
Definition _decompose_address (c : Cache) (address : Z)
  : result (Z * Z * Z) :=
  m_off ← py_shl 1 (offset_bits c);
  let offset := Z.land address (m_off - 1) in
  a_idx ← py_shr address (offset_bits c);
  m_idx ← py_shl 1 (index_bits c);
  let index := Z.land a_idx (m_idx - 1) in
  a_tag ← py_shr address (offset_bits c + index_bits c);
  m_tag ← py_shl 1 (tag_bits c);
  let tag := Z.land a_tag (m_tag - 1) in
  Ok (tag, index, offset).

(** [self.cache[set_idx][way]] *)
Definition get_line (c : Cache) (set_idx way : Z) : result CacheLine :=
  s ← py_index (cache c) set_idx;
  py_index s way.

(** The body of [for way in range(...)] in [_find_line], over the ways
    still to be visited. *)
Fixpoint _find_line_loop (c : Cache) (set_idx tag : Z) (ways : list Z)
  : result (option Z) :=
  match ways with
  | [] => Ok None
  | way :: rest =>
      line ← get_line c set_idx way;
      if valid line && (CacheSim.tag line =? tag) then Ok (Some way)
      else _find_line_loop c set_idx tag rest
  end.

Definition _find_line (c : Cache) (set_idx tag : Z) : result (option Z) :=
  _find_line_loop c set_idx tag (seqZ 0 (associativity c)).

(** First loop of [_find_victim]: the first way that is not valid. *)
Fixpoint _find_invalid_loop (c : Cache) (set_idx : Z) (ways : list Z)
  : result (option Z) :=
  match ways with
  | [] => Ok None
  | way :: rest =>
      line ← get_line c set_idx way;
      if negb (valid line) then Ok (Some way)
      else _find_invalid_loop c set_idx rest
  end.

(** Second loop of [_find_victim], carrying [(lru_way, min_lru)]. *)
Fixpoint _find_lru_loop (c : Cache) (set_idx : Z) (ways : list Z)
  (lru_way min_lru : Z) : result Z :=
  match ways with
  | [] => Ok lru_way
  | way :: rest =>
      line ← get_line c set_idx way;
      if lru_counter line <? min_lru then
        _find_lru_loop c set_idx rest way (lru_counter line)
      else _find_lru_loop c set_idx rest lru_way min_lru
  end.

Definition _find_victim (c : Cache) (set_idx : Z) : result Z :=
  inv ← _find_invalid_loop c set_idx (seqZ 0 (associativity c));
  match inv with
  | Some way => Ok way
  | None =>
      line0 ← get_line c set_idx 0;
      _find_lru_loop c set_idx (seqZ 1 (associativity c - 1))
        0 (lru_counter line0)
  end.

(** In-place mutation of the line object at [self.cache[set_idx][way]];
    only used after that line has been read successfully. *)
Definition update_line (c : Cache) (set_idx way : Z)
  (f : CacheLine -> CacheLine) : Cache :=
  with_cache c
    (alter (alter f (Z.to_nat way)) (Z.to_nat set_idx) (cache c)).

Definition set_dirty (d : bool) (l : CacheLine) : CacheLine :=
  mkLine (valid l) d (tag l) (lru_counter l).
Definition set_lru_counter (g : Z) (l : CacheLine) : CacheLine :=
  mkLine (valid l) (dirty l) (tag l) g.
(** [valid = True; tag = tag; dirty = (access_type == WRITE)] *)
Definition load_line (t : Z) (a : AccessType) (l : CacheLine) : CacheLine :=
  mkLine true (is_write a) t (lru_counter l).

Definition _update_lru (c : Cache) (set_idx way : Z) : Cache :=
  let g := global_lru_counter c + 1 in
  update_line (with_global_lru_counter c g) set_idx way (set_lru_counter g).

(** [Cache.access]; the result is the returned [hit] flag and the
    mutated cache.  Note that [dirty_evictions] is only counted inside
    the [if verbose:] block, as in the source. *)
Definition access (c : Cache) (address : Z) (access_type : AccessType)
  (verbose : bool) : result (bool * Cache) :=
  '(tag, index, _) ← _decompose_address c address;
  way ← _find_line c index tag;
  match way with
  | Some way =>
      let c1 :=
        match access_type with
        | READ => incr_read_hits c
        | WRITE => update_line (incr_write_hits c) index way (set_dirty true)
        end in
      Ok (true, _update_lru c1 index way)
  | None =>
      let c1 :=
        match access_type with
        | READ => incr_read_misses c
        | WRITE => incr_write_misses c
        end in
      victim_way ← _find_victim c1 index;
      victim_line ← get_line c1 index victim_way;
      let c2 :=
        if verbose && valid victim_line && dirty victim_line
        then incr_dirty_evictions c1 else c1 in
      let c3 := if valid victim_line then incr_evictions c2 else c2 in
      let c4 := update_line c3 index victim_way (load_line tag access_type) in
      Ok (false, _update_lru c4 index victim_way)
  end.

Definition read (c : Cache) (address : Z) (verbose : bool) :=
  access c address READ verbose.
Definition write (c : Cache) (address : Z) (verbose : bool) :=
  access c address WRITE verbose.

(** [reset_stats]: the six statistics counters are zeroed. *)
Definition reset_stats (c : Cache) : Cache := with_stats c 0 0 0 0 0 0.

End CacheSim.

(** ** The translation lookaside buffer ([tlb_simulator.py]) *)

Module TLBSim.

Inductive PageSize : Type := KB_4 | MB_2 | GB_1.

#[global] Instance PageSize_eq_dec : EqDecision PageSize.
Proof. solve_decision. Defined.

#[global] Instance PageSize_countable : Countable PageSize.
Proof.
  refine (inj_countable'
    (fun p => match p with KB_4 => 0%nat | MB_2 => 1%nat | GB_1 => 2%nat end)
    (fun n => match n with 0%nat => KB_4 | 1%nat => MB_2 | _ => GB_1 end) _).
  by intros [].
Defined.

Definition PageSize_eqb (p q : PageSize) : bool := bool_decide (p = q).

(** The enum member's value, in bytes. *)
Definition value (p : PageSize) : Z :=
  match p with
  | KB_4 => 4096
  | MB_2 => 2097152
  | GB_1 => 1073741824
  end.

Definition offset_bits (p : PageSize) : Z :=
  match p with
  | KB_4 => 12
  | MB_2 => 21
  | GB_1 => 30
  end.

Record TLBEntry : Type := mkEntry {
  valid : bool;
  vpn : Z;
  ppn : Z;
  page_size : PageSize;
  readable : bool;
  writable : bool;
  executable : bool;
  dirty : bool;
  accessed : bool;
  global_page : bool;
  lru_counter : Z
}.

(** [TLBEntry()] with the dataclass defaults. *)
Definition TLBEntry_default : TLBEntry :=
  mkEntry false 0 0 KB_4 true true false false false false 0.

Record TLB : Type := mkTLB {
  num_entries : Z;
  address_bits : Z;
  entries : list TLBEntry;
  hits : Z;
  misses : Z;
  global_lru_counter : Z;
  page_table : gmap (Z * PageSize) Z
}.

Definition with_entries (t : TLB) (es : list TLBEntry) : TLB :=
  mkTLB (num_entries t) (address_bits t) es (hits t) (misses t)
    (global_lru_counter t) (page_table t).
Definition with_hits (t : TLB) (h : Z) : TLB :=
  mkTLB (num_entries t) (address_bits t) (entries t) h (misses t)
    (global_lru_counter t) (page_table t).
Definition with_misses (t : TLB) (m : Z) : TLB :=
  mkTLB (num_entries t) (address_bits t) (entries t) (hits t) m
    (global_lru_counter t) (page_table t).
Definition with_global_lru_counter (t : TLB) (g : Z) : TLB :=
  mkTLB (num_entries t) (address_bits t) (entries t) (hits t) (misses t)
    g (page_table t).
Definition with_page_table (t : TLB) (pt : gmap (Z * PageSize) Z) : TLB :=
  mkTLB (num_entries t) (address_bits t) (entries t) (hits t) (misses t)
    (global_lru_counter t) pt.

(** [TLB.__init__] *)
Definition __init__ (num_entries address_bits : Z) : TLB :=
  mkTLB num_entries address_bits
    (replicate (Z.to_nat num_entries) TLBEntry_default) 0 0 0 ∅.

Definition _extract_vpn (va : Z) (ps : PageSize) : Z :=
  Z.shiftr va (offset_bits ps).

Definition _extract_offset (va : Z) (ps : PageSize) : Z :=
  Z.land va (Z.shiftl 1 (offset_bits ps) - 1).

Definition _construct_pa (ppn offset : Z) (ps : PageSize) : Z :=
  Z.lor (Z.shiftl ppn (offset_bits ps)) offset.

(** The loop of [_find_entry] over the indices still to be visited. *)
Fixpoint _find_entry_loop (t : TLB) (vpn : Z) (ps : PageSize)
  (idxs : list Z) : result (option Z) :=
  match idxs with
  | [] => Ok None
  | i :: rest =>
      entry ← py_index (entries t) i;
      if valid entry && (TLBSim.vpn entry =? vpn)
         && PageSize_eqb (page_size entry) ps
      then Ok (Some i)
      else _find_entry_loop t vpn ps rest
  end.

Definition _find_entry (t : TLB) (vpn : Z) (ps : PageSize)
  : result (option Z) :=
  _find_entry_loop t vpn ps (seqZ 0 (num_entries t)).

Fixpoint _find_invalid_loop (t : TLB) (idxs : list Z) : result (option Z) :=
  match idxs with
  | [] => Ok None
  | i :: rest =>
      entry ← py_index (entries t) i;
      if negb (valid entry) then Ok (Some i)
      else _find_invalid_loop t rest
  end.

Fixpoint _find_lru_loop (t : TLB) (idxs : list Z) (lru_idx min_lru : Z)
  : result Z :=
  match idxs with
  | [] => Ok lru_idx
  | i :: rest =>
      entry ← py_index (entries t) i;
      if lru_counter entry <? min_lru then
        _find_lru_loop t rest i (lru_counter entry)
      else _find_lru_loop t rest lru_idx min_lru
  end.

Definition _find_victim (t : TLB) : result Z :=
  inv ← _find_invalid_loop t (seqZ 0 (num_entries t));
  match inv with
  | Some i => Ok i
  | None =>
      e0 ← py_index (entries t) 0;
      _find_lru_loop t (seqZ 1 (num_entries t - 1)) 0 (lru_counter e0)
  end.

(** Mutation of the entry object stored at [self.entries[index]]; only
    used after that entry has been read successfully. *)
Definition update_entry (t : TLB) (index : Z) (f : TLBEntry -> TLBEntry)
  : TLB :=
  with_entries t (alter f (Z.to_nat index) (entries t)).

Definition set_lru_counter (g : Z) (e : TLBEntry) : TLBEntry :=
  mkEntry (valid e) (vpn e) (ppn e) (page_size e) (readable e) (writable e)
    (executable e) (dirty e) (accessed e) (global_page e) g.

(** [entry.accessed = True; if is_write: entry.dirty = True] *)
Definition touch (is_write : bool) (e : TLBEntry) : TLBEntry :=
  mkEntry (valid e) (vpn e) (ppn e) (page_size e) (readable e) (writable e)
    (executable e) (if is_write then true else dirty e) true
    (global_page e) (lru_counter e).

Definition set_valid (v : bool) (e : TLBEntry) : TLBEntry :=
  mkEntry v (vpn e) (ppn e) (page_size e) (readable e) (writable e)
    (executable e) (dirty e) (accessed e) (global_page e) (lru_counter e).

Definition _update_lru (t : TLB) (index : Z) : TLB :=
  let g := global_lru_counter t + 1 in
  update_entry (with_global_lru_counter t g) index (set_lru_counter g).

(** Calls of [_page_walk], recorded in program order, so that "the
    page walk is not invoked" can be stated. *)
Inductive Event : Type :=
| EvPageWalk (vpn : Z) (ps : PageSize).

(** [_page_walk]: [self.page_table.get((vpn, page_size))] *)
Definition _page_walk (t : TLB) (vpn : Z) (ps : PageSize) : option Z :=
  page_table t !! (vpn, ps).

(** [install_mapping]: the three permission arguments are accepted and
    not stored ("We store permissions in TLB entries, not page table"). *)
Definition install_mapping (t : TLB) (va pa : Z) (ps : PageSize)
  (readable writable executable : bool) : TLB :=
  let vpn := _extract_vpn va ps in
  let ppn := _extract_vpn pa ps in
  with_page_table t (<[(vpn, ps) := ppn]> (page_table t)).

(** The entry built on a miss:
    [TLBEntry(valid=True, vpn=vpn, ppn=ppn, page_size=page_size,
              readable=True, writable=True, executable=False,
              accessed=True, dirty=is_write)]. *)
Definition new_entry (vpn ppn : Z) (ps : PageSize) (is_write : bool)
  : TLBEntry :=
  mkEntry true vpn ppn ps true true false is_write true false 0.

(** [TLB.translate]: the returned [Optional[int]], the mutated TLB and
    the page walks performed. *)
Definition translate (t : TLB) (va : Z) (ps : PageSize)
  (is_write verbose : bool) : result (option Z * TLB * list Event) :=
  let vpn := _extract_vpn va ps in
  let offset := _extract_offset va ps in
  entry_idx ← _find_entry t vpn ps;
  match entry_idx with
  | Some entry_idx =>
      let t1 := with_hits t (hits t + 1) in
      entry ← py_index (entries t1) entry_idx;
      if is_write && negb (writable entry) then Ok (None, t1, [])
      else
        let ppn := ppn entry in
        let pa := _construct_pa ppn offset ps in
        let t2 := _update_lru t1 entry_idx in
        let t3 := update_entry t2 entry_idx (touch is_write) in
        Ok (Some pa, t3, [])
  | None =>
      let t1 := with_misses t (misses t + 1) in
      match _page_walk t1 vpn ps with
      | None => Ok (None, t1, [EvPageWalk vpn ps])
      | Some ppn =>
          victim_idx ← _find_victim t1;
          _ ← py_index (entries t1) victim_idx;
          let t2 :=
            with_entries t1
              (<[Z.to_nat victim_idx := new_entry vpn ppn ps is_write]>
                 (entries t1)) in
          let t3 := _update_lru t2 victim_idx in
          let pa := _construct_pa ppn offset ps in
          Ok (Some pa, t3, [EvPageWalk vpn ps])
      end
  end.

(** [TLB.invalidate] *)
Definition invalidate (t : TLB) (va : Z) (ps : PageSize)
  : result (bool * TLB) :=
  let vpn := _extract_vpn va ps in
  entry_idx ← _find_entry t vpn ps;
  match entry_idx with
  | Some i => Ok (true, update_entry t i (set_valid false))
  | None => Ok (false, t)
  end.

(** [TLB.flush] *)
Definition flush (t : TLB) : TLB :=
  with_entries t
    ((fun e => if global_page e then e else set_valid false e)
       <$> entries t).

(** [TLB.get_reach]: the loop over [self.entries], carrying [reach]. *)
Fixpoint get_reach_loop (es : list TLBEntry) (reach : Z) : Z :=
  match es with
  | [] => reach
  | entry :: rest =>
      get_reach_loop rest
        (if valid entry then reach + value (page_size entry) else reach)
  end.

Definition get_reach (t : TLB) : Z := get_reach_loop (entries t) 0.

End TLBSim.

(** ** The RISC-V Sv39 page walker ([page_walk_sim.py]) *)

Module PageWalk.

Record PageTableEntry : Type := mkPTE {
  valid : bool;
  ppn : Z;
  readable : bool;
  writable : bool;
  executable : bool;
  user : bool;
  global_page : bool;
  accessed : bool;
  dirty : bool;
  is_leaf : bool
}.

(** [self.memory] maps the physical address of a table to its bytearray. *)
Record Walker : Type := mkWalker {
  memory : gmap Z (list byte);
  satp : Z;
  page_walks : Z;
  page_faults : Z
}.

Definition with_memory (w : Walker) (m : gmap Z (list byte)) : Walker :=
  mkWalker m (satp w) (page_walks w) (page_faults w).
Definition incr_page_walks (w : Walker) : Walker :=
  mkWalker (memory w) (satp w) (page_walks w + 1) (page_faults w).
Definition incr_page_faults (w : Walker) : Walker :=
  mkWalker (memory w) (satp w) (page_walks w) (page_faults w + 1).

(** [bytearray(4096)] *)
Definition empty_table : list byte := replicate 4096 Byte.x00.

(** [_allocate_page_table].  [rand] is the value drawn by
    [random.randint(0x10000, 0xFFFFFF)]; the table stored at the
    page-aligned address is replaced by a zeroed one, whether or not a
    table was already there. *)
Definition _allocate_page_table (w : Walker) (rand : Z) : Walker * Z :=
  let pa := Z.land rand (Z.lnot 4095) in
  (with_memory w (<[pa := empty_table]> (memory w)), pa).

(** The range of [random.randint(0x10000, 0xFFFFFF)]. *)
Definition rand_in_range (rand : Z) : Prop := 65536 <= rand <= 16777215.

(** [RISCV_Sv39_PageWalker.__init__] *)
Definition __init__ (rand : Z) : Walker :=
  let '(w, pa) := _allocate_page_table (mkWalker ∅ 0 0 0) rand in
  mkWalker (memory w) pa 0 0.

(** [if b: flags |= mask] *)
Definition set_flag (b : bool) (mask flags : Z) : Z :=
  if b then Z.lor flags mask else flags.

(** The encoded word [(pte.ppn << 10) | flags] of [_write_pte]. *)
Definition pte_flags (pte : PageTableEntry) : Z :=
  set_flag (dirty pte) 128
   (set_flag (accessed pte) 64
    (set_flag (global_page pte) 32
     (set_flag (user pte) 16
      (set_flag (executable pte) 8
       (set_flag (writable pte) 4
        (set_flag (readable pte) 2
         (set_flag (valid pte) 1 0))))))).

Definition pte_value (pte : PageTableEntry) : Z :=
  Z.lor (Z.shiftl (ppn pte) 10) (pte_flags pte).

(** [self.memory[table_pa]], a [KeyError] when no table is stored there. *)
Definition get_table (w : Walker) (table_pa : Z) : result (list byte) :=
  match memory w !! table_pa with
  | Some tbl => Ok tbl
  | None => Raise KeyError
  end.

Definition _write_pte (w : Walker) (table_pa index : Z)
  (pte : PageTableEntry) : result Walker :=
  let offset := index * 8 in
  pte_bytes ← to_bytes (pte_value pte) 8;
  tbl ← get_table w table_pa;
  Ok (with_memory w
        (<[table_pa := py_slice_assign tbl offset (offset + 8) pte_bytes]>
           (memory w))).

(** Decoding of a PTE word, the second half of [_read_pte];
    [bool(v & mask)] is [v & mask != 0]. *)
Definition flag_set (v mask : Z) : bool := negb (Z.land v mask =? 0).

Definition decode_pte (v : Z) : PageTableEntry :=
  let valid := flag_set v 1 in
  let readable := flag_set v 2 in
  let writable := flag_set v 4 in
  let executable := flag_set v 8 in
  let user := flag_set v 16 in
  let global_page := flag_set v 32 in
  let accessed := flag_set v 64 in
  let dirty := flag_set v 128 in
  let ppn := Z.shiftr v 10 in
  let is_leaf := readable || writable || executable in
  mkPTE valid ppn readable writable executable user global_page
    accessed dirty is_leaf.

Definition _read_pte (w : Walker) (table_pa index : Z)
  : result PageTableEntry :=
  let offset := index * 8 in
  tbl ← get_table w table_pa;
  let pte_bytes := py_slice tbl offset (offset + 8) in
  Ok (decode_pte (from_bytes pte_bytes)).

(** [_decompose_va]: [(vpn2, vpn1, vpn0, offset)] *)
Definition _decompose_va (va : Z) : Z * Z * Z * Z :=
  let offset := Z.land va 4095 in
  let vpn0 := Z.land (Z.shiftr va 12) 511 in
  let vpn1 := Z.land (Z.shiftr va 21) 511 in
  let vpn2 := Z.land (Z.shiftr va 30) 511 in
  (vpn2, vpn1, vpn0, offset).

(** [PageTableEntry(valid=True, ppn=table_pa >> 12, is_leaf=False)] *)
Definition pointer_pte (table_pa : Z) : PageTableEntry :=
  mkPTE true (Z.shiftr table_pa 12) false false false false false false
    false false.

(** [PageTableEntry(valid=True, ppn=ppn, readable=..., writable=...,
    executable=..., user=..., is_leaf=True)] *)
Definition leaf_pte (ppn : Z) (readable writable executable user : bool)
  : PageTableEntry :=
  mkPTE true ppn readable writable executable user false false false true.

(** [map_page].  [rand1] is the draw used if a level-1 table has to be
    allocated, [rand0] the draw used if a level-0 table has to be. *)
Definition map_page (w : Walker) (va pa : Z)
  (readable writable executable user : bool) (rand1 rand0 : Z)
  : result Walker :=
  let '(vpn2, vpn1, vpn0, _) := _decompose_va va in
  pte_l2 ← _read_pte w (satp w) vpn2;
  '(w, pte_l2) ←
    (if negb (valid pte_l2) then
       let '(w, l1_pa) := _allocate_page_table w rand1 in
       let pte_l2 := pointer_pte l1_pa in
       w ← _write_pte w (satp w) vpn2 pte_l2;
       Ok (w, pte_l2)
     else Ok (w, pte_l2));
  let l1_pa := Z.shiftl (ppn pte_l2) 12 in
  pte_l1 ← _read_pte w l1_pa vpn1;
  '(w, pte_l1) ←
    (if negb (valid pte_l1) then
       let '(w, l0_pa) := _allocate_page_table w rand0 in
       let pte_l1 := pointer_pte l0_pa in
       w ← _write_pte w l1_pa vpn1 pte_l1;
       Ok (w, pte_l1)
     else Ok (w, pte_l1));
  let l0_pa := Z.shiftl (ppn pte_l1) 12 in
  let ppn := Z.shiftr pa 12 in
  let pte_l0 := leaf_pte ppn readable writable executable user in
  _write_pte w l0_pa vpn0 pte_l0.

(** Reads of page-table entries, recorded in program order, so that
    "no lower-level table is read" can be stated. *)
Inductive Event : Type :=
| EvReadPTE (table_pa index : Z).

(** [translate]: the returned [Optional[int]], the mutated walker and
    the PTE reads performed. *)
Definition translate (w : Walker) (va : Z) (is_write verbose : bool)
  : result (option Z * Walker * list Event) :=
  let w := incr_page_walks w in
  let '(vpn2, vpn1, vpn0, offset) := _decompose_va va in
  let r2 := EvReadPTE (satp w) vpn2 in
  pte_l2 ← _read_pte w (satp w) vpn2;
  if negb (valid pte_l2) then Ok (None, incr_page_faults w, [r2])
  else if is_leaf pte_l2 then
    let pa := Z.lor (Z.shiftl (ppn pte_l2) 30) (Z.land va 1073741823) in
    Ok (Some pa, w, [r2])
  else
    let l1_pa := Z.shiftl (ppn pte_l2) 12 in
    let r1 := EvReadPTE l1_pa vpn1 in
    pte_l1 ← _read_pte w l1_pa vpn1;
    if negb (valid pte_l1) then Ok (None, incr_page_faults w, [r2; r1])
    else if is_leaf pte_l1 then
      let pa := Z.lor (Z.shiftl (ppn pte_l1) 21) (Z.land va 2097151) in
      Ok (Some pa, w, [r2; r1])
    else
      let l0_pa := Z.shiftl (ppn pte_l1) 12 in
      let r0 := EvReadPTE l0_pa vpn0 in
      pte_l0 ← _read_pte w l0_pa vpn0;
      if negb (valid pte_l0) then Ok (None, incr_page_faults w, [r2; r1; r0])
      else if is_write && negb (writable pte_l0) then
        Ok (None, incr_page_faults w, [r2; r1; r0])
      else
        let pa := Z.lor (Z.shiftl (ppn pte_l0) 12) offset in
        Ok (Some pa, w, [r2; r1; r0]).

End PageWalk.

(** ** The TLB route of the web front end ([app.py], [tlb_translate]) *)

Module WebApp.

Import TLBSim.

(** The JSON body of the request: each key may be absent. *)
Record Request : Type := mkRequest {
  req_num_entries : option Z;
  req_va : option string;
  req_page_size : option string
}.

(** The JSON answer: [success: True] with its payload, or
    [success: False] with HTTP status 400. *)
Inductive Response : Type :=
| Success (va : Z) (pa : option Z) (hit : bool) (hits misses reach : Z)
| Failure (e : Exn).

(** [page_size_map.get(page_size_str, (PageSize.KB_4, 12))] *)
Definition page_size_map_get (page_size_str : string) : PageSize * Z :=
  if String.eqb page_size_str "4KB" then (KB_4, 12)
  else if String.eqb page_size_str "2MB" then (MB_2, 21)
  else if String.eqb page_size_str "1GB" then (GB_1, 30)
  else (KB_4, 12).

Section Handler.

(** Python's [int(s, 16)], a [ValueError] on a malformed literal. *)
Variable int16 : string -> result Z.

(** The [try] block of [tlb_translate]. *)
Definition tlb_translate_body (data : Request)
  : result (Z * option Z * bool * Z * Z * Z) :=
  let num_entries := default 64 (req_num_entries data) in
  va ← int16 (default "0x401000"%string (req_va data));
  let page_size_str := default "4KB"%string (req_page_size data) in
  let '(page_size, offset_bits) := page_size_map_get page_size_str in
  let tlb := __init__ num_entries 32 in
  let mask := Z.lnot (Z.shiftl 1 offset_bits - 1) in
  let va_page := Z.land va mask in
  let pa_page := Z.land (Z.lor va_page 268435456) mask in
  let tlb := install_mapping tlb va_page pa_page page_size true true false in
  '(pa, tlb, _) ← translate tlb va page_size false false;
  (* 'pa': hex(pa) if pa else None -- the address 0 is reported as None *)
  let pa_field := match pa with
                  | Some p => if p =? 0 then None else Some p
                  | None => None
                  end in
  let hit := bool_decide (is_Some pa) in
  let reach := if 0 <? hits tlb then hits tlb * value page_size else 0 in
  Ok (va, pa_field, hit, hits tlb, misses tlb, reach).

(** [tlb_translate]: any exception becomes the failure answer. *)
Definition tlb_translate (data : Request) : Response :=
  match tlb_translate_body data with
  | Ok (va, pa, hit, hits, misses, reach) =>
      Success va pa hit hits misses reach
  | Raise e => Failure e
  end.

End Handler.

(** A reader for the hexadecimal literals of the form [0x] followed by
    hexadecimal digits (or the digits alone), on which it agrees with
    [int(s, 16)]; used to run the handler on concrete requests. *)
Definition hex_digit (c : Ascii.ascii) : option Z :=
  let n := Z.of_N (Ascii.N_of_ascii c) in
  if (48 <=? n) && (n <=? 57) then Some (n - 48)
  else if (97 <=? n) && (n <=? 102) then Some (n - 87)
  else if (65 <=? n) && (n <=? 70) then Some (n - 55)
  else None.

Fixpoint hex_digits (s : string) (acc : Z) : result Z :=
  match s with
  | EmptyString => Ok acc
  | String c rest =>
      match hex_digit c with
      | Some d => hex_digits rest (16 * acc + d)
      | None => Raise ValueError
      end
  end.

Definition hex_literal (s : string) : result Z :=
  match s with
  | EmptyString => Raise ValueError
  | String "0"%char (String "x"%char (String c rest)) =>
      hex_digits (String c rest) 0
  | String "0"%char (String "X"%char (String c rest)) =>
      hex_digits (String c rest) 0
  | _ => hex_digits s 0
  end.

(** *** [/api/cache/access] *)

Record CacheRequest : Type := mkCacheRequest {
  creq_size : option Z;
  creq_associativity : option Z;
  creq_block_size : option Z;
  creq_address : option string;
  creq_type : option string
}.

(** One element of ['set_state']; ['tag'] is [None] for an invalid
    line. *)
Record WayState : Type := mkWayState {
  ws_way : Z;
  ws_valid : bool;
  ws_dirty : bool;
  ws_tag : option Z;
  ws_lru_counter : Z
}.

(** The payload of a successful answer. *)
Record CacheAnswer : Type := mkCacheAnswer {
  ans_hit : bool;
  ans_address : Z;
  ans_tag : Z;
  ans_index : Z;
  ans_offset : Z;
  ans_tag_bits : Z;
  ans_index_bits : Z;
  ans_offset_bits : Z;
  ans_set_state : list WayState;
  ans_read_hits : Z;
  ans_read_misses : Z;
  ans_write_hits : Z;
  ans_write_misses : Z;
  ans_evictions : Z
}.

Inductive CacheResponse : Type :=
| CacheSuccess (a : CacheAnswer)
| CacheFailure (e : Exn).

Definition way_state (way : Z) (line : CacheSim.CacheLine) : WayState :=
  mkWayState way (CacheSim.valid line) (CacheSim.dirty line)
    (if CacheSim.valid line then Some (CacheSim.tag line) else None)
    (CacheSim.lru_counter line).

(** [for way in range(cache.associativity): ... set_state.append(...)] *)
Fixpoint set_state_loop (cache : CacheSim.Cache) (index : Z) (ways : list Z)
  : result (list WayState) :=
  match ways with
  | [] => Ok []
  | way :: rest =>
      line ← CacheSim.get_line cache index way;
      states ← set_state_loop cache index rest;
      Ok (way_state way line :: states)
  end.

Section CacheHandler.

Variable int16 : string -> result Z.

(** The [try] block of [cache_access]; the cache is built anew for
    the request, with the constructor's default [address_bits]. *)
Definition cache_access_body (data : CacheRequest) : result CacheAnswer :=
  let size := default 4096 (creq_size data) in
  let associativity := default 4 (creq_associativity data) in
  let block_size := default 64 (creq_block_size data) in
  address ← int16 (default "0x0"%string (creq_address data));
  let access_type := default "read"%string (creq_type data) in
  cache ← CacheSim.__init__ size block_size associativity 32;
  '(tag, index, offset) ← CacheSim._decompose_address cache address;
  '(hit, cache) ←
    (if String.eqb access_type "write"
     then CacheSim.write cache address false
     else CacheSim.read cache address false);
  set_state ←
    set_state_loop cache index (seqZ 0 (CacheSim.associativity cache));
  Ok (mkCacheAnswer hit address tag index offset
        (CacheSim.tag_bits cache) (CacheSim.index_bits cache)
        (CacheSim.offset_bits cache) set_state
        (CacheSim.read_hits cache) (CacheSim.read_misses cache)
        (CacheSim.write_hits cache) (CacheSim.write_misses cache)
        (CacheSim.evictions cache)).

Definition cache_access (data : CacheRequest) : CacheResponse :=
  match cache_access_body data with
  | Ok a => CacheSuccess a
  | Raise e => CacheFailure e
  end.

End CacheHandler.

(** *** [/api/vipt/analyze] *)

Record VIPTRequest : Type := mkVIPTRequest {
  vreq_cache_size : option Z;
  vreq_associativity : option Z;
  vreq_block_size : option Z;
  vreq_page_size : option Z
}.

(** [while temp > 1: bits += 1; temp >>= 1], run for at most [fuel]
    iterations; [None] when they do not suffice. *)
Fixpoint shift_count_loop (fuel : nat) (temp bits : Z) : option Z :=
  match fuel with
  | O => None
  | S fuel =>
      if 1 <? temp then shift_count_loop fuel (Z.shiftr temp 1) (bits + 1)
      else Some bits
  end.

Inductive VIPTResponse : Type :=
| VIPTSuccess (cache_size associativity block_size page_size num_sets
               index_bits page_offset_bits : Z) (is_safe : bool)
| VIPTZeroDivision
| VIPTOutOfFuel.

(** [vipt_analyze]; [cache_size // 0] raises [ZeroDivisionError], which
    the handler answers with status 400. *)
Definition vipt_analyze (fuel : nat) (data : VIPTRequest) : VIPTResponse :=
  let cache_size := default 32768 (vreq_cache_size data) in
  let associativity := default 4 (vreq_associativity data) in
  let block_size := default 64 (vreq_block_size data) in
  let page_size := default 4096 (vreq_page_size data) in
  if block_size * associativity =? 0 then VIPTZeroDivision
  else
    let num_sets := cache_size / (block_size * associativity) in
    match shift_count_loop fuel block_size 0 with
    | None => VIPTOutOfFuel
    | Some offset_bits =>
        match shift_count_loop fuel num_sets 0 with
        | None => VIPTOutOfFuel
        | Some index_bits =>
            match shift_count_loop fuel page_size 0 with
            | None => VIPTOutOfFuel
            | Some page_offset_bits =>
                let is_safe := index_bits <=? page_offset_bits in
                VIPTSuccess cache_size associativity block_size page_size
                  num_sets index_bits page_offset_bits is_safe
            end
        end
    end.

End WebApp.

(** * Specifications

    The predicates in which the properties are stated, and the states
    used in the examples. *)

(** ** LRU victim selection, shared by the cache and the TLB

    [_find_victim] is written twice in the sources, once over the ways
    of a cache set and once over the TLB entries, with the same two
    scans.  The scans are stated here once, over any container read
    through [get], and both copies are shown to be instances. *)

Section VictimScan.
Context {A : Type}.
Variable is_valid : A -> bool.
Variable rank : A -> Z.

Section Scans.
Variable get : Z -> result A.

Fixpoint scan_invalid (idxs : list Z) : result (option Z) :=
  match idxs with
  | [] => Ok None
  | i :: rest =>
      x ← get i;
      if negb (is_valid x) then Ok (Some i) else scan_invalid rest
  end.

Fixpoint scan_min (idxs : list Z) (best min_rank : Z) : result Z :=
  match idxs with
  | [] => Ok best
  | i :: rest =>
      x ← get i;
      if rank x <? min_rank then scan_min rest i (rank x)
      else scan_min rest best min_rank
  end.

Definition scan_victim (n : Z) : result Z :=
  inv ← scan_invalid (seqZ 0 n);
  match inv with
  | Some i => Ok i
  | None => x0 ← get 0; scan_min (seqZ 1 (n - 1)) 0 (rank x0)
  end.
End Scans.

Variable l : list A.

(** [w] is the lowest index holding an invalid element. *)
Definition first_invalid (w : nat) : Prop :=
  ∃ x, l !! w = Some x ∧ is_valid x = false ∧
       ∀ j y, (j < w)%nat → l !! j = Some y → is_valid y = true.

Definition all_valid : Prop :=
  ∀ j y, l !! j = Some y → is_valid y = true.

(** [w] holds the minimum rank, and no lower index holds it too. *)
Definition least_rank (w : nat) : Prop :=
  ∃ x, l !! w = Some x ∧
       (∀ j y, l !! j = Some y → rank x <= rank y) ∧
       (∀ j y, (j < w)%nat → l !! j = Some y → rank x < rank y).

Definition lru_victim (w : nat) : Prop :=
  first_invalid w ∨ (all_valid ∧ least_rank w).

(** The invariant of the second scan after [k] elements. *)
Definition scan_min_inv (k b : nat) (m : Z) : Prop :=
  ∃ x, (b < k)%nat ∧ l !! b = Some x ∧ rank x = m ∧
       (∀ j y, (j < k)%nat → l !! j = Some y → m <= rank y) ∧
       (∀ j y, (j < b)%nat → l !! j = Some y → m < rank y).
End VictimScan.

(** ** The cache *)

Module CacheSpec.
Import CacheSim.

(** The line at a (set, way) coordinate. *)
Definition line_at (c : Cache) (s w : nat) : option CacheLine :=
  cache c !! s ≫= (.!! w).

(** What [__init__] establishes about the storage and what no method
    changes: [index_bits] address bits select one of the sets, and every
    set has [associativity] ways. *)
Record wf (c : Cache) : Prop := mk_wf {
  wf_assoc : 0 < associativity c;
  wf_ways : ∀ s set, cache c !! s = Some set →
                     Z.of_nat (length set) = associativity c;
  wf_sets : Z.of_nat (length (cache c)) = 2 ^ index_bits c;
  wf_offset_bits : 0 <= offset_bits c;
  wf_index_bits : 0 <= index_bits c
}.

(** The fields fixed at construction. *)
Definition same_geometry (c c' : Cache) : Prop :=
  size c' = size c ∧ block_size c' = block_size c ∧
  associativity c' = associativity c ∧ address_bits c' = address_bits c ∧
  num_blocks c' = num_blocks c ∧ num_sets c' = num_sets c ∧
  offset_bits c' = offset_bits c ∧ index_bits c' = index_bits c ∧
  tag_bits c' = tag_bits c.

(** The line left at the accessed coordinate by [access]. *)
Definition touched_line (t : Z) (d : bool) (g : Z) : CacheLine :=
  mkLine true d t g.

(** Every valid line was stamped no later than the current counter. *)
Definition lru_bounded (c : Cache) : Prop :=
  ∀ s w l, line_at c s w = Some l → valid l = true →
           lru_counter l <= global_lru_counter c.

(** No two valid lines carry the same non-zero stamp. *)
Definition lru_distinct (c : Cache) : Prop :=
  ∀ s w l s' w' l',
    line_at c s w = Some l → line_at c s' w' = Some l' →
    valid l = true → valid l' = true →
    lru_counter l = lru_counter l' → lru_counter l ≠ 0 →
    s = s' ∧ w = w'.

Definition lru_inv (c : Cache) : Prop := lru_bounded c ∧ lru_distinct c.

(** In a set whose ways are all valid and stamped, the minimum stamp is
    held by exactly one way. *)
Definition lru_min_unique (c : Cache) : Prop :=
  ∀ s set w x,
    cache c !! s = Some set →
    (∀ j y, set !! j = Some y → valid y = true ∧ lru_counter y ≠ 0) →
    set !! w = Some x →
    (∀ j y, set !! j = Some y → lru_counter x <= lru_counter y) →
    ∀ j y, set !! j = Some y → j ≠ w → lru_counter x < lru_counter y.

Inductive reachable : Cache → Prop :=
| reachable_init (sz bs ways ab : Z) (c : Cache) :
    __init__ sz bs ways ab = Ok c → reachable c
| reachable_access (c : Cache) (a : Z) (ty : AccessType) (v hit : bool)
    (c' : Cache) :
    reachable c → access c a ty v = Ok (hit, c') → reachable c'.

(** Valid lines have been stamped: their counter is at least 1. *)
Definition lru_stamped (c : Cache) : Prop :=
  0 <= global_lru_counter c
  ∧ ∀ s w l, line_at c s w = Some l → valid l = true → 0 < lru_counter l.

(** At most one valid line of a set carries a given tag. *)
Definition no_dup_tags (c : Cache) : Prop :=
  ∀ s set i j x y,
    cache c !! s = Some set → set !! i = Some x → set !! j = Some y →
    valid x = true → valid y = true → tag x = tag y → i = j.

(** Two caches that differ at most in their statistics counters. *)
Definition same_content (c1 c2 : Cache) : Prop :=
  cache c1 = cache c2 ∧ same_geometry c1 c2
  ∧ global_lru_counter c1 = global_lru_counter c2.

(** The four access counters, summed. *)
Definition total_accesses (c : Cache) : Z :=
  read_hits c + read_misses c + write_hits c + write_misses c.

End CacheSpec.

(** ** The TLB *)

Module TLBSpec.
Import TLBSim.

(** [__init__] makes [num_entries] the length of [entries], and no
    method changes either. *)
Definition wf (t : TLB) : Prop :=
  num_entries t = Z.of_nat (length (entries t)).

(** The test of [_find_entry]. *)
Definition matches (vpn : Z) (ps : PageSize) (e : TLBEntry) : Prop :=
  valid e = true ∧ TLBSim.vpn e = vpn ∧ page_size e = ps.

(** [i] is the index [_find_entry] stops at. *)
Definition first_match (t : TLB) (vpn : Z) (ps : PageSize) (i : nat)
  (e : TLBEntry) : Prop :=
  entries t !! i = Some e ∧ matches vpn ps e
  ∧ ∀ j y, (j < i)%nat → entries t !! j = Some y → ¬ matches vpn ps y.

Definition no_match (t : TLB) (vpn : Z) (ps : PageSize) : Prop :=
  ∀ j y, entries t !! j = Some y → ¬ matches vpn ps y.

(** The TLB used in the examples: one valid, read-only entry for
    virtual page 1, and an empty page table. *)
Definition read_only_tlb : TLB :=
  mkTLB 1 32 [mkEntry true 1 2 KB_4 true false false false false false 0]
    0 0 0 ∅.

(** The TLBs a program can build through the public methods, from a
    constructor call with a non-negative number of entries. *)
Inductive reachable : TLB → Prop :=
| reachable_init (n ab : Z) : 0 <= n → reachable (__init__ n ab)
| reachable_install (t : TLB) (va pa : Z) (ps : PageSize) (r w x : bool) :
    reachable t → reachable (install_mapping t va pa ps r w x)
| reachable_translate (t : TLB) (va : Z) (ps : PageSize) (w v : bool)
    (res : option Z) (t' : TLB) (evs : list Event) :
    reachable t → translate t va ps w v = Ok (res, t', evs) → reachable t'
| reachable_invalidate (t : TLB) (va : Z) (ps : PageSize) (b : bool)
    (t' : TLB) :
    reachable t → invalidate t va ps = Ok (b, t') → reachable t'
| reachable_flush (t : TLB) : reachable t → reachable (flush t).

(** The permission and global bits every entry is created with. *)
Definition default_permissions (e : TLBEntry) : Prop :=
  readable e = true ∧ writable e = true ∧ executable e = false
  ∧ global_page e = false.

(** No two valid entries translate the same (vpn, page size). *)
Definition unique_entries (t : TLB) : Prop :=
  ∀ i j x y, entries t !! i = Some x → entries t !! j = Some y →
             valid x = true → valid y = true →
             vpn x = vpn y → page_size x = page_size y → i = j.

(** The entry left by a permitted hit on [e]. *)
Definition touched_entry (e : TLBEntry) (is_write : bool) (g : Z)
  : TLBEntry :=
  mkEntry (valid e) (vpn e) (ppn e) (page_size e) (readable e) (writable e)
    (executable e) (if is_write then true else dirty e) true
    (global_page e) g.

(** What a valid entry adds to the reach. *)
Definition entry_reach (e : TLBEntry) : Z :=
  if valid e then value (page_size e) else 0.

End TLBSpec.

(** ** The page walker *)

Module PageWalkSpec.
Import PageWalk.

(** The entry [_read_pte] builds from the word of [pte]: every stored
    field, and [is_leaf] recomputed from R, W and X. *)
Definition reread (pte : PageTableEntry) : PageTableEntry :=
  mkPTE (valid pte) (ppn pte) (readable pte) (writable pte)
    (executable pte) (user pte) (global_page pte) (accessed pte)
    (dirty pte) (readable pte || writable pte || executable pte).

(** A walker whose root entry 1 is a 1 GiB leaf for PPN 5. *)
Definition gigapage_walker : Walker :=
  match _write_pte (__init__ 65536) 65536 1
          (mkPTE true 5 true true false true false false false true) with
  | Ok w => w
  | Raise _ => __init__ 65536
  end.

(** A walker whose root entry 0 points to a level-1 table whose
    entry 2 is a 2 MiB leaf for PPN 7. *)
Definition megapage_walker : Walker :=
  let '(w, l1_pa) := _allocate_page_table (__init__ 65536) 131072 in
  match _write_pte w 65536 0 (pointer_pte l1_pa) with
  | Ok w =>
      match _write_pte w l1_pa 2
              (mkPTE true 7 true false true true false false false true) with
      | Ok w => w
      | Raise _ => __init__ 65536
      end
  | Raise _ => __init__ 65536
  end.

(** A zeroed table in which entry [i] has been written. *)
Definition single_entry_table (i : Z) (pte : PageTableEntry) : list byte :=
  py_slice_assign empty_table (i * 8) (i * 8 + 8)
    (to_bytes_le 8 (pte_value pte)).

End PageWalkSpec.

(** * Properties *)

(** ** Facts about the Python conventions *)

Lemma rbind_Ok {A B : Type} (m : result A) (k : A -> result B) (b : B) :
  (m ≫= k) = Ok b ↔ ∃ a, m = Ok a ∧ k a = Ok b.
Proof.
  destruct m as [a|e]; simpl; split.
  - intros H. by exists a.
  - by intros (a' & [= <-] & H).
  - discriminate.
  - by intros (a' & [=] & _).
Qed.

Lemma result_bind_Ok {A B : Type} (a : A) (k : A -> result B) :
  (Ok a ≫= k) = k a.
Proof. reflexivity. Qed.

Lemma py_index_nat {A : Type} (l : list A) (i : nat) :
  py_index l (Z.of_nat i) =
  match l !! i with Some x => Ok x | None => Raise IndexError end.
Proof.
  unfold py_index.
  destruct (Z.ltb_spec (Z.of_nat i) 0) as [?|_]; [lia|].
  rewrite Nat2Z.id.
  destruct (Z.leb_spec 0 (Z.of_nat i)) as [_|?]; [|lia]. simpl.
  destruct (Z.ltb_spec (Z.of_nat i) (Z.of_nat (length l))) as [_|Hge]; [done|].
  rewrite lookup_ge_None_2; [done|lia].
Qed.

(** ** Bit fields *)

Lemma land_shiftl_small (p n m : Z) :
  0 <= n → 0 <= m < 2 ^ n → Z.land (Z.shiftl p n) m = 0.
Proof.
  intros Hn Hm. apply Z.bits_inj'. intros k Hk.
  rewrite Z.land_spec, Z.bits_0.
  destruct (Z.lt_ge_cases k n) as [Hlt|Hge].
  - by rewrite Z.shiftl_spec_low.
  - destruct (decide (m = 0)) as [->|];
      [by rewrite Z.bits_0, andb_false_r|].
    rewrite (Z.bits_above_log2 m k); [apply andb_false_r|lia|].
    apply Z.log2_lt_pow2; [lia|].
    pose proof (Z.pow_le_mono_r 2 n k ltac:(lia) Hge). lia.
Qed.

(** A field placed above [n] low bits: [|] adds. *)
Lemma lor_shiftl_add (p n m : Z) :
  0 <= n → 0 <= m < 2 ^ n → Z.lor (Z.shiftl p n) m = p * 2 ^ n + m.
Proof.
  intros Hn Hm.
  pose proof (Z.add_lor_land (Z.shiftl p n) m) as H.
  rewrite land_shiftl_small in H by done.
  rewrite Z.shiftl_mul_pow2 in * by done. lia.
Qed.

(** [(a >> n) << n | (a & (2^n - 1))] is [a]. *)
Lemma split_recompose (a n : Z) :
  0 <= n → Z.lor (Z.shiftl (Z.shiftr a n) n) (Z.land a (Z.ones n)) = a.
Proof.
  intros Hn. rewrite Z.land_ones by done.
  rewrite lor_shiftl_add; [|done|apply Z.mod_pos_bound; lia].
  rewrite Z.shiftr_div_pow2 by done.
  pose proof (Z.div_mod a (2 ^ n)). lia.
Qed.

(** ** The two scans of [_find_victim] *)

Section VictimScanFacts.
Context {A : Type}.
Variable is_valid : A -> bool.
Variable rank : A -> Z.
Variable l : list A.
Variable get : Z -> result A.
Hypothesis get_lookup :
  ∀ (i : nat) x, l !! i = Some x → get (Z.of_nat i) = Ok x.

Lemma seqZ_nat_cons (k n : nat) :
  seqZ (Z.of_nat k) (Z.of_nat (S n)) =
  Z.of_nat k :: seqZ (Z.of_nat (S k)) (Z.of_nat n).
Proof.
  rewrite seqZ_cons by lia. f_equal. f_equal; lia.
Qed.

Lemma scan_invalid_spec (rest : list A) (k : nat) :
  drop k l = rest →
  (∀ j y, (j < k)%nat → l !! j = Some y → is_valid y = true) →
  (∃ w, scan_invalid is_valid get (seqZ (Z.of_nat k) (Z.of_nat (length rest)))
        = Ok (Some (Z.of_nat w)) ∧ first_invalid is_valid l w)
  ∨ (scan_invalid is_valid get (seqZ (Z.of_nat k) (Z.of_nat (length rest)))
     = Ok None ∧ all_valid is_valid l).
Proof.
  revert k. induction rest as [|x rest IH]; intros k Hdrop Hpre.
  - right. split; [done|]. intros j y Hj.
    apply (Hpre j y); [|done].
    apply lookup_lt_Some in Hj.
    assert (length (drop k l) = 0%nat) as Hlen by by rewrite Hdrop.
    rewrite length_drop in Hlen. lia.
  - assert (l !! k = Some x) as Hk.
    { rewrite <- (Nat.add_0_r k), <- lookup_drop, Hdrop. done. }
    assert (drop (S k) l = rest) as Hdrop'.
    { rewrite (drop_S _ _ _ Hk) in Hdrop. congruence. }
    cbn [length]. rewrite seqZ_nat_cons. cbn [scan_invalid].
    rewrite (get_lookup k x Hk). simpl.
    destruct (is_valid x) eqn:Hv; simpl.
    + apply IH; [done|].
      intros j y Hj Hy. destruct (decide (j = k)) as [->|].
      * congruence.
      * apply (Hpre j y); [lia|done].
    + left. exists k. split; [done|]. exists x. auto.
Qed.

Lemma scan_min_spec (rest : list A) (k b : nat) (m : Z) :
  drop k l = rest →
  scan_min_inv rank l k b m →
  ∃ w, scan_min rank get (seqZ (Z.of_nat k) (Z.of_nat (length rest)))
         (Z.of_nat b) m = Ok (Z.of_nat w)
       ∧ least_rank rank l w.
Proof.
  revert k b m. induction rest as [|x rest IH]; intros k b m Hdrop Hinv.
  - destruct Hinv as (xb & Hb & Hxb & Hm & Hall & Hlow).
    exists b. split; [done|]. exists xb. split; [done|].
    assert (length (drop k l) = 0%nat) as Hlen by by rewrite Hdrop.
    rewrite length_drop in Hlen.
    split.
    + intros j y Hj. rewrite Hm. apply (Hall j y); [|done].
      apply lookup_lt_Some in Hj. lia.
    + intros j y Hj Hy. rewrite Hm. by apply (Hlow j y).
  - assert (l !! k = Some x) as Hk.
    { rewrite <- (Nat.add_0_r k), <- lookup_drop, Hdrop. done. }
    assert (drop (S k) l = rest) as Hdrop'.
    { rewrite (drop_S _ _ _ Hk) in Hdrop. congruence. }
    destruct Hinv as (xb & Hb & Hxb & Hm & Hall & Hlow).
    cbn [length]. rewrite seqZ_nat_cons. cbn [scan_min].
    rewrite (get_lookup k x Hk). simpl.
    destruct (Z.ltb_spec (rank x) m) as [Hlt|Hge].
    + apply IH; [done|]. exists x. repeat split; [lia|done| |].
      * intros j y Hj Hy. destruct (decide (j = k)) as [->|].
        -- assert (y = x) by congruence. subst. lia.
        -- specialize (Hall j y ltac:(lia) Hy). lia.
      * intros j y Hj Hy. specialize (Hall j y ltac:(lia) Hy). lia.
    + apply IH; [done|]. exists xb. repeat split; [lia|done|done| |done].
      intros j y Hj Hy. destruct (decide (j = k)) as [->|].
      * assert (y = x) by congruence. subst. lia.
      * apply (Hall j y); [lia|done].
Qed.

Lemma scan_victim_spec :
  (0 < length l)%nat →
  ∃ w, scan_victim is_valid rank get (Z.of_nat (length l)) = Ok (Z.of_nat w)
       ∧ lru_victim is_valid rank l w ∧ (w < length l)%nat.
Proof.
  intros Hne. unfold scan_victim.
  assert (∀ j y, (j < 0)%nat → l !! j = Some y → is_valid y = true)
    as Hpre by (intros; lia).
  pose proof (scan_invalid_spec l 0 eq_refl Hpre) as Hscan.
  change (Z.of_nat 0) with 0 in Hscan.
  destruct Hscan as [(w & -> & Hw)|[-> Hall]].
  - exists w. simpl. split; [done|]. split; [by left|].
    destruct Hw as (x & Hx & _). by apply lookup_lt_Some in Hx.
  - simpl. destruct (lookup_lt_is_Some_2 l 0%nat Hne) as [x0 H0].
    pose proof (get_lookup 0 x0 H0) as Hget0.
    change (Z.of_nat 0) with 0 in Hget0. rewrite Hget0. simpl.
    assert (scan_min_inv rank l 1 0 (rank x0)) as Hinv.
    { exists x0. repeat split; [lia|done| |intros; lia].
      intros j y Hj Hy. assert (j = 0%nat) as -> by lia.
      assert (y = x0) by congruence. subst. lia. }
    destruct (scan_min_spec (drop 1 l) 1 0 (rank x0) eq_refl Hinv)
      as (w & Hw & Hleast).
    change (Z.of_nat 0) with 0 in Hw. change (Z.of_nat 1) with 1 in Hw.
    exists w. split.
    + rewrite <- Hw. f_equal. f_equal. rewrite length_drop. lia.
    + split; [by right|]. destruct Hleast as (x & Hx & _).
      by apply lookup_lt_Some in Hx.
Qed.
End VictimScanFacts.

Lemma alter_as_insert {A : Type} (f : A -> A) (l : list A) (i : nat) (x : A) :
  l !! i = Some x → alter f i l = <[i := f x]> l.
Proof.
  intros Hx. apply list_eq. intros j.
  destruct (decide (i = j)) as [<-|Hne].
  - rewrite list_lookup_alter_eq, Hx, list_lookup_insert_eq; [done|].
    by apply lookup_lt_Some in Hx.
  - by rewrite list_lookup_alter_ne, list_lookup_insert_ne.
Qed.

Lemma shiftl_1_ones (n : Z) : 0 <= n → Z.shiftl 1 n - 1 = Z.ones n.
Proof. intros Hn. rewrite Z.ones_equiv, Z.shiftl_1_l. lia. Qed.

(** ** Properties of the cache *)

Module CacheProps.
Import CacheSim CacheSpec.

Lemma decompose_address_inv (c : Cache) (a t i o : Z) :
  0 <= index_bits c →
  _decompose_address c a = Ok (t, i, o) →
  0 <= i < 2 ^ index_bits c ∧ 0 <= tag_bits c ∧
  i = Z.land (Z.shiftr a (offset_bits c)) (Z.ones (index_bits c)) ∧
  t = Z.land (Z.shiftr a (offset_bits c + index_bits c))
        (Z.ones (tag_bits c)) .
Proof.
  intros Hib. unfold _decompose_address, py_shl, py_shr.
  destruct (Z.ltb_spec (offset_bits c) 0); [done|]. simpl.
  destruct (Z.ltb_spec (index_bits c) 0); [lia|]. simpl.
  destruct (Z.ltb_spec (offset_bits c + index_bits c) 0); [done|]. simpl.
  destruct (Z.ltb_spec (tag_bits c) 0); [done|]. simpl.
  intros [= <- <- <-]. rewrite !shiftl_1_ones by done.
  split; [|done]. rewrite Z.land_ones by done.
  by apply Z.mod_pos_bound, Z.pow_pos_nonneg.
Qed.

Lemma decompose_address_total (c : Cache) (a : Z) :
  0 <= offset_bits c → 0 <= index_bits c → 0 <= tag_bits c →
  ∃ t i o, _decompose_address c a = Ok (t, i, o).
Proof.
  intros Ho Hi Ht. unfold _decompose_address, py_shl, py_shr.
  destruct (Z.ltb_spec (offset_bits c) 0); [lia|]. simpl.
  destruct (Z.ltb_spec (index_bits c) 0); [lia|]. simpl.
  destruct (Z.ltb_spec (offset_bits c + index_bits c) 0); [lia|]. simpl.
  destruct (Z.ltb_spec (tag_bits c) 0); [lia|]. simpl. eauto.
Qed.

Lemma get_line_nat (c : Cache) (s w : nat) :
  get_line c (Z.of_nat s) (Z.of_nat w) =
  match line_at c s w with Some x => Ok x | None => Raise IndexError end.
Proof.
  unfold get_line, line_at. rewrite py_index_nat.
  destruct (cache c !! s) as [set|]; simpl; [|done].
  apply py_index_nat.
Qed.

Lemma find_invalid_loop_scan (c : Cache) (idx : Z) (ways : list Z) :
  _find_invalid_loop c idx ways = scan_invalid valid (get_line c idx) ways.
Proof.
  induction ways as [|w ways IH]; simpl; [done|].
  destruct (get_line c idx w); simpl; [|done]. by rewrite IH.
Qed.

Lemma find_lru_loop_scan (c : Cache) (idx : Z) (ways : list Z) (b m : Z) :
  _find_lru_loop c idx ways b m
  = scan_min lru_counter (get_line c idx) ways b m.
Proof.
  revert b m. induction ways as [|w ways IH]; intros b m; simpl; [done|].
  destruct (get_line c idx w); simpl; [|done]. by rewrite !IH.
Qed.

Lemma find_victim_scan (c : Cache) (idx : Z) :
  _find_victim c idx
  = scan_victim valid lru_counter (get_line c idx) (associativity c).
Proof.
  unfold _find_victim, scan_victim. rewrite find_invalid_loop_scan.
  destruct (scan_invalid _ _ _) as [[w|]|]; simpl; try done.
  destruct (get_line c idx 0); simpl; [|done]. apply find_lru_loop_scan.
Qed.

(** [_find_victim] returns, and returns the LRU victim of the set. *)
Lemma find_victim_spec (c : Cache) (s : nat) (set : list CacheLine) :
  wf c → cache c !! s = Some set →
  ∃ w, _find_victim c (Z.of_nat s) = Ok (Z.of_nat w)
       ∧ lru_victim valid lru_counter set w ∧ (w < length set)%nat.
Proof.
  intros Hwf Hset. rewrite find_victim_scan.
  rewrite <- (wf_ways c Hwf s set Hset).
  apply scan_victim_spec.
  - intros i x Hx. rewrite get_line_nat. unfold line_at.
    rewrite Hset. simpl. by rewrite Hx.
  - pose proof (wf_ways c Hwf s set Hset). pose proof (wf_assoc c Hwf). lia.
Qed.

Lemma wf_ext (c c' : Cache) :
  wf c → cache c' = cache c → same_geometry c c' → wf c'.
Proof.
  intros [H1 H2 H3 H4 H5] Hc (_ & _ & Ha & _ & _ & _ & Ho & Hi & _).
  constructor; rewrite ?Hc, ?Ha, ?Ho, ?Hi; done.
Qed.

(** [_find_line]: the lowest way holding a valid line with the tag, or
    [None] when no way of the set does. *)
Lemma find_line_loop_spec (c : Cache) (s : nat) (set : list CacheLine)
  (t : Z) (rest : list CacheLine) (k : nat) :
  cache c !! s = Some set →
  drop k set = rest →
  (∃ w line,
      _find_line_loop c (Z.of_nat s) t
        (seqZ (Z.of_nat k) (Z.of_nat (length rest))) = Ok (Some (Z.of_nat w))
      ∧ set !! w = Some line ∧ valid line = true ∧ tag line = t)
  ∨ (_find_line_loop c (Z.of_nat s) t
        (seqZ (Z.of_nat k) (Z.of_nat (length rest))) = Ok None
     ∧ ∀ j y, (k ≤ j)%nat → set !! j = Some y →
              ¬ (valid y = true ∧ tag y = t)).
Proof.
  intros Hset. revert k. induction rest as [|x rest IH]; intros k Hdrop.
  - right. split; [done|]. intros j y Hj Hy.
    apply lookup_lt_Some in Hy.
    assert (length (drop k set) = 0%nat) as Hlen by by rewrite Hdrop.
    rewrite length_drop in Hlen. lia.
  - assert (set !! k = Some x) as Hk.
    { rewrite <- (Nat.add_0_r k), <- lookup_drop, Hdrop. done. }
    assert (drop (S k) set = rest) as Hdrop'.
    { rewrite (drop_S _ _ _ Hk) in Hdrop. congruence. }
    cbn [length]. rewrite seqZ_nat_cons. cbn [_find_line_loop].
    rewrite get_line_nat. unfold line_at. rewrite Hset. simpl. rewrite Hk.
    simpl.
    destruct (valid x) eqn:Hv; simpl.
    + destruct (Z.eqb_spec (tag x) t) as [Ht|Ht].
      * left. by exists k, x.
      * destruct (IH (S k) Hdrop') as [Hhit|[Hnone Hno]]; [by left|].
        right. split; [done|]. intros j y Hj Hy.
        destruct (decide (j = k)) as [->|].
        -- assert (y = x) by congruence. subst. tauto.
        -- apply (Hno j y); [lia|done].
    + destruct (IH (S k) Hdrop') as [Hhit|[Hnone Hno]]; [by left|].
      right. split; [done|]. intros j y Hj Hy.
      destruct (decide (j = k)) as [->|].
      * assert (y = x) by congruence. subst. rewrite Hv. intros [? _]. done.
      * apply (Hno j y); [lia|done].
Qed.

Lemma find_line_spec (c : Cache) (s : nat) (set : list CacheLine) (t : Z) :
  wf c → cache c !! s = Some set →
  (∃ w line, _find_line c (Z.of_nat s) t = Ok (Some (Z.of_nat w))
             ∧ set !! w = Some line ∧ valid line = true ∧ tag line = t)
  ∨ (_find_line c (Z.of_nat s) t = Ok None
     ∧ ∀ j y, set !! j = Some y → ¬ (valid y = true ∧ tag y = t)).
Proof.
  intros Hwf Hset. unfold _find_line.
  rewrite <- (wf_ways c Hwf s set Hset).
  destruct (find_line_loop_spec c s set t set 0 Hset eq_refl)
    as [Hhit|[Hnone Hno]]; [by left|].
  right. split; [done|]. intros j y. apply Hno. lia.
Qed.

Lemma alter2_as_insert {A : Type} (f : A -> A) (m : list (list A))
  (s w : nat) (set : list A) (x : A) :
  m !! s = Some set → set !! w = Some x →
  alter (alter f w) s m = <[s := <[w := f x]> set]> m.
Proof.
  intros Hs Hw. rewrite (alter_as_insert _ _ _ _ Hs).
  by rewrite (alter_as_insert _ _ _ _ Hw).
Qed.

Lemma alter2_insert2 {A : Type} (f : A -> A) (m : list (list A))
  (s w : nat) (set : list A) (x y : A) :
  m !! s = Some set → set !! w = Some x →
  alter (alter f w) s (<[s := <[w := y]> set]> m)
  = <[s := <[w := f y]> set]> m.
Proof.
  intros Hs Hw.
  assert ((s < length m)%nat) by by apply lookup_lt_Some in Hs.
  assert ((w < length set)%nat) by by apply lookup_lt_Some in Hw.
  rewrite (alter2_as_insert f _ s w (<[w := y]> set) y).
  - by rewrite list_insert_insert_eq, list_insert_insert_eq.
  - by rewrite list_lookup_insert_eq.
  - by rewrite list_lookup_insert_eq.
Qed.

(** The storage after loading a line and stamping it. *)
Lemma update_lru_load_cache (c : Cache) (s w : nat) (set : list CacheLine)
  (line : CacheLine) (t : Z) (ty : AccessType) :
  cache c !! s = Some set → set !! w = Some line →
  cache (_update_lru
           (update_line c (Z.of_nat s) (Z.of_nat w) (load_line t ty))
           (Z.of_nat s) (Z.of_nat w))
  = <[s := <[w := touched_line t (is_write ty)
                   (global_lru_counter c + 1)]> set]> (cache c).
Proof.
  intros Hset Hw. unfold _update_lru, update_line. rewrite !Nat2Z.id. simpl.
  rewrite (alter2_as_insert _ _ _ _ _ _ Hset Hw).
  by rewrite (alter2_insert2 _ _ _ _ _ _ _ Hset Hw).
Qed.

(** What a returning [access] has done. *)
Lemma access_inv (c : Cache) (a : Z) (ty : AccessType) (v hit : bool)
  (c' : Cache) :
  wf c → access c a ty v = Ok (hit, c') →
  ∃ t s o set w line,
    _decompose_address c a = Ok (t, Z.of_nat s, o)
    ∧ cache c !! s = Some set ∧ set !! w = Some line
    ∧ global_lru_counter c' = global_lru_counter c + 1
    ∧ same_geometry c c'
    ∧ ((hit = true ∧ valid line = true ∧ tag line = t
        ∧ cache c' =
          <[s := <[w := touched_line t (is_write ty || dirty line)
                           (global_lru_counter c + 1)]> set]> (cache c))
       ∨ (hit = false
          ∧ (∀ j y, set !! j = Some y → ¬ (valid y = true ∧ tag y = t))
          ∧ _find_victim c (Z.of_nat s) = Ok (Z.of_nat w)
          ∧ lru_victim valid lru_counter set w
          ∧ cache c' =
            <[s := <[w := touched_line t (is_write ty)
                             (global_lru_counter c + 1)]> set]> (cache c))).
Proof.
  intros Hwf. unfold access. intros Hacc.
  apply rbind_Ok in Hacc as ([[t i] o] & Hdec & Hacc).
  destruct (decompose_address_inv c a t i o (wf_index_bits c Hwf) Hdec)
    as (Hi & _).
  assert (∃ s : nat, i = Z.of_nat s) as [s ->].
  { exists (Z.to_nat i). lia. }
  destruct (lookup_lt_is_Some_2 (cache c) s) as [set Hset].
  { pose proof (wf_sets c Hwf). lia. }
  exists t, s, o, set.
  destruct (find_line_spec c s set t Hwf Hset)
    as [(w & line & Hfl & Hw & Hv & Ht)|[Hfl Hno]];
    rewrite Hfl in Hacc; simpl in Hacc.
  - exists w, line. injection Hacc as <- <-.
    split; [done|]. split; [done|]. split; [done|].
    split; [by destruct ty|]. split; [by destruct ty|]. left.
    split; [done|]. split; [done|]. split; [done|].
    unfold _update_lru, update_line. rewrite !Nat2Z.id.
    destruct ty; cbn [cache with_cache with_global_lru_counter
                      incr_read_hits incr_write_hits with_stats
                      global_lru_counter is_write orb].
    + rewrite (alter2_as_insert _ _ _ _ _ _ Hset Hw).
      unfold set_lru_counter, touched_line. by rewrite Hv, Ht.
    + rewrite (alter2_as_insert _ _ _ _ _ _ Hset Hw).
      rewrite (alter2_insert2 _ _ _ _ _ _ _ Hset Hw).
      unfold set_lru_counter, set_dirty, touched_line. simpl.
      by rewrite Hv, Ht.
  - set (c1 := match ty with
               | READ => incr_read_misses c
               | WRITE => incr_write_misses c
               end) in *.
    assert (cache c1 = cache c) as Hc1 by by destruct ty.
    assert (same_geometry c c1) as Hg1 by by destruct ty.
    assert (global_lru_counter c1 = global_lru_counter c) as Hl1
      by by destruct ty.
    assert (wf c1) as Hwf1 by by apply (wf_ext c).
    assert (cache c1 !! s = Some set) as Hset1 by by rewrite Hc1.
    destruct (find_victim_spec c1 s set Hwf1 Hset1) as (w & Hfv & Hvic & Hlt).
    assert (_find_victim c (Z.of_nat s) = Ok (Z.of_nat w)) as Hfvc.
    { rewrite !find_victim_scan in *.
      destruct Hg1 as (_ & _ & Ha & _). rewrite <- Ha. rewrite <- Hfv.
      unfold scan_victim, get_line. by rewrite Hc1. }
    rewrite Hfv in Hacc. simpl in Hacc.
    destruct (lookup_lt_is_Some_2 set w Hlt) as [line Hw].
    rewrite get_line_nat in Hacc. unfold line_at in Hacc.
    rewrite Hset1 in Hacc. simpl in Hacc. rewrite Hw in Hacc.
    simpl in Hacc. injection Hacc as <- <-.
    exists w, line.
    split; [done|]. split; [done|]. split; [done|].
    split.
    { unfold _update_lru, update_line. simpl.
      destruct (v && valid line && dirty line), (valid line); simpl; lia. }
    split.
    { unfold _update_lru, update_line, same_geometry. simpl.
      destruct Hg1 as (?&?&?&?&?&?&?&?&?).
      destruct (v && valid line && dirty line), (valid line); simpl; done. }
    right. split; [done|]. split; [done|]. split; [done|]. split; [done|].
    set (c3 := if valid line then _ else _).
    assert (cache c3 = cache c ∧
            global_lru_counter c3 = global_lru_counter c) as [Hc3 Hl3].
    { subst c3. destruct (v && valid line && dirty line), (valid line);
        simpl; split; congruence. }
    rewrite (update_lru_load_cache c3 s w set line t ty); [|congruence|done].
    by rewrite Hc3, Hl3.
Qed.

(** Under [wf], and with a non-negative tag width, [access] returns. *)
Lemma access_total (c : Cache) (a : Z) (ty : AccessType) (v : bool) :
  wf c → 0 <= tag_bits c → ∃ hit c', access c a ty v = Ok (hit, c').
Proof.
  intros Hwf Htag. unfold access.
  destruct (decompose_address_total c a (wf_offset_bits c Hwf)
              (wf_index_bits c Hwf) Htag) as (t & i & o & Hdec).
  rewrite Hdec. simpl.
  destruct (decompose_address_inv c a t i o (wf_index_bits c Hwf) Hdec)
    as (Hi & _).
  assert (∃ s : nat, i = Z.of_nat s) as [s ->].
  { exists (Z.to_nat i). lia. }
  destruct (lookup_lt_is_Some_2 (cache c) s) as [set Hset].
  { pose proof (wf_sets c Hwf). lia. }
  destruct (find_line_spec c s set t Hwf Hset)
    as [(w & line & Hfl & Hw & Hv & Ht)|[Hfl Hno]]; rewrite Hfl; simpl.
  - eauto.
  - set (c1 := match ty with
               | READ => incr_read_misses c
               | WRITE => incr_write_misses c
               end) in *.
    assert (cache c1 = cache c) as Hc1 by by destruct ty.
    assert (same_geometry c c1) as Hg1 by by destruct ty.
    assert (wf c1) as Hwf1 by by apply (wf_ext c).
    assert (cache c1 !! s = Some set) as Hset1 by by rewrite Hc1.
    destruct (find_victim_spec c1 s set Hwf1 Hset1) as (w & Hfv & Hvic & Hlt).
    rewrite Hfv. simpl.
    destruct (lookup_lt_is_Some_2 set w Hlt) as [line Hw].
    rewrite get_line_nat. unfold line_at. rewrite Hset1. simpl. rewrite Hw.
    simpl. eauto.
Qed.

(** *** Victim selection on a miss *)

(** C7. Whenever [Cache.access] misses, the way that receives the new
    line is the lowest-indexed invalid way of the target set if the set
    has an invalid way, and otherwise the way with the minimum
    [lru_counter] of the set, the lowest-indexed one among ties; this
    is the way returned by [_find_victim], and no other line of the
    cache is modified. *)
Theorem access_miss_victim (c : Cache) (a : Z) (ty : AccessType) (v : bool)
  (c' : Cache) :
  wf c → access c a ty v = Ok (false, c') →
  ∃ t s o set w,
    _decompose_address c a = Ok (t, Z.of_nat s, o)
    ∧ cache c !! s = Some set
    ∧ _find_victim c (Z.of_nat s) = Ok (Z.of_nat w)
    ∧ (first_invalid valid set w
       ∨ (all_valid valid set ∧ least_rank lru_counter set w))
    ∧ cache c' =
      <[s := <[w := mkLine true (is_write ty) t
                      (global_lru_counter c + 1)]> set]> (cache c).
Proof.
  intros Hwf Hacc.
  destruct (access_inv c a ty v false c' Hwf Hacc)
    as (t & s & o & set & w & line & Hdec & Hset & Hw & _ & _ & Hcase).
  destruct Hcase as [(Hh & _)|(_ & _ & Hfv & Hvic & Hc')]; [done|].
  exists t, s, o, set, w. auto.
Qed.

(** *** The LRU stamps *)

Lemma lru_distinct_min_unique (c : Cache) : lru_distinct c → lru_min_unique c.
Proof.
  intros Hd s set w x Hset Hall Hw Hmin j y Hj Hne.
  destruct (Hall w x Hw) as [Hvx Hnx].
  destruct (Hall j y Hj) as [Hvy _].
  specialize (Hmin j y Hj).
  destruct (decide (lru_counter x = lru_counter y)) as [Heq|]; [|lia].
  destruct (Hd s w x s j y) as [_ ?]; try done.
  - unfold line_at. rewrite Hset. done.
  - unfold line_at. rewrite Hset. done.
Qed.

Lemma line_at_insert (m : list (list CacheLine)) (c' : Cache) (s w : nat)
  (set : list CacheLine) (line nl : CacheLine) (s' w' : nat) :
  m !! s = Some set → set !! w = Some line →
  cache c' = <[s := <[w := nl]> set]> m →
  line_at c' s' w' =
  if decide (s = s' ∧ w = w') then Some nl else m !! s' ≫= (.!! w').
Proof.
  intros Hset Hw Hc'. unfold line_at. rewrite Hc'.
  assert ((s < length m)%nat) by by apply lookup_lt_Some in Hset.
  assert ((w < length set)%nat) by by apply lookup_lt_Some in Hw.
  destruct (decide (s = s')) as [<-|Hs].
  - rewrite list_lookup_insert_eq by done. simpl.
    destruct (decide (w = w')) as [<-|Hw'].
    + rewrite list_lookup_insert_eq by done. by rewrite decide_True.
    + rewrite list_lookup_insert_ne by done. rewrite decide_False by tauto.
      by rewrite Hset.
  - rewrite list_lookup_insert_ne by done. by rewrite decide_False by tauto.
Qed.

(** A returning [access] advances the counter by one and preserves
    well-formedness and the stamp invariant. *)
Lemma access_preserves (c : Cache) (a : Z) (ty : AccessType) (v hit : bool)
  (c' : Cache) :
  wf c → lru_inv c → access c a ty v = Ok (hit, c') →
  global_lru_counter c' = global_lru_counter c + 1
  ∧ wf c' ∧ same_geometry c c' ∧ lru_inv c'.
Proof.
  intros Hwf [Hb Hd] Hacc.
  destruct (access_inv c a ty v hit c' Hwf Hacc)
    as (t & s & o & set & w & line & Hdec & Hset & Hw & Hg & Hgeo & Hcase).
  assert (∃ nl, valid nl = true
                ∧ lru_counter nl = global_lru_counter c + 1
                ∧ cache c' = <[s := <[w := nl]> set]> (cache c))
    as (nl & Hnv & Hnl & Hc').
  { destruct Hcase as [(_ & _ & _ & Hc')|(_ & _ & _ & _ & Hc')];
      eexists; (split; [|split; [|exact Hc']]); done. }
  clear Hcase.
  pose proof (line_at_insert (cache c) c' s w set line nl) as Hat.
  split; [done|]. split; [|split; [done|split]].
  - destruct Hgeo as (_ & _ & Ha & _ & _ & _ & Ho & Hi & _).
    destruct Hwf as [H1 H2 H3 H4 H5].
    constructor; rewrite ?Ha, ?Ho, ?Hi; try done.
    + intros s1 set1. rewrite Hc'.
      destruct (decide (s = s1)) as [<-|Hs].
      * rewrite list_lookup_insert_eq by by apply lookup_lt_Some in Hset.
        intros [= <-]. rewrite length_insert. by apply (H2 s).
      * rewrite list_lookup_insert_ne by done. apply H2.
    + by rewrite Hc', length_insert.
  - intros s1 w1 l1 H1 Hv1. rewrite (Hat s1 w1 Hset Hw Hc') in H1.
    rewrite Hg. case_decide.
    + assert (l1 = nl) as -> by congruence. lia.
    + specialize (Hb s1 w1 l1 H1 Hv1). lia.
  - intros s1 w1 l1 s2 w2 l2 H1 H2 Hv1 Hv2 Heq Hnz.
    rewrite (Hat s1 w1 Hset Hw Hc') in H1.
    rewrite (Hat s2 w2 Hset Hw Hc') in H2.
    repeat case_decide.
    + intuition congruence.
    + assert (l2 = nl) as -> by congruence.
      specialize (Hb s1 w1 l1 H1 Hv1). lia.
    + assert (l1 = nl) as -> by congruence.
      specialize (Hb s2 w2 l2 H2 Hv2). lia.
    + by apply (Hd s1 w1 l1 s2 w2 l2).
Qed.

(** C10. Every [Cache.access] call that returns increases
    [global_lru_counter] by exactly one and preserves the invariant
    that every valid line's [lru_counter] is at most
    [global_lru_counter] and that no two valid lines anywhere in the
    cache share a non-zero [lru_counter]; hence, in a set whose ways
    are all valid and stamped, the minimum used for victim selection is
    held by exactly one way.  The call does return when the tag width
    is not negative. *)
Theorem access_lru_invariant (c : Cache) (a : Z) (ty : AccessType)
  (v : bool) :
  wf c → lru_bounded c → lru_distinct c →
  (0 <= tag_bits c → ∃ hit c', access c a ty v = Ok (hit, c'))
  ∧ (∀ hit c',
       access c a ty v = Ok (hit, c') →
       global_lru_counter c' = global_lru_counter c + 1
       ∧ wf c'
       ∧ lru_bounded c' ∧ lru_distinct c' ∧ lru_min_unique c').
Proof.
  intros Hwf Hb Hd. split.
  - intros Htag. by apply access_total.
  - intros hit c' Hacc.
    destruct (access_preserves c a ty v hit c' Hwf (conj Hb Hd) Hacc)
      as (Hg & Hwf' & Hgeo & Hb' & Hd').
    repeat (split; [done|]).
    by apply lru_distinct_min_unique.
Qed.

(** *** Construction *)

Lemma is_power_of_2_log2 (n : Z) :
  _is_power_of_2 n = true → 0 < n ∧ n = 2 ^ Z.log2 n.
Proof.
  unfold _is_power_of_2. intros H. apply andb_true_iff in H as [Hpos Hland].
  apply Z.ltb_lt in Hpos. apply Z.eqb_eq in Hland. split; [done|].
  destruct (Z.log2_spec n Hpos) as [Hlo Hhi].
  destruct (decide (n = 2 ^ Z.log2 n)) as [|Hne]; [done|exfalso].
  assert (Z.log2 (n - 1) = Z.log2 n) as Hlog.
  { apply Z.log2_unique; [apply Z.log2_nonneg|].
    replace (Z.succ (Z.log2 n)) with (Z.log2 n + 1) in Hhi by lia. lia. }
  assert (Z.testbit (Z.land n (n - 1)) (Z.log2 n) = true) as Hbit.
  { rewrite Z.land_spec, Z.bit_log2 by done. simpl.
    rewrite <- Hlog. apply Z.bit_log2.
    pose proof (Z.pow_pos_nonneg 2 (Z.log2 n) ltac:(lia) (Z.log2_nonneg n)).
    lia. }
  rewrite Hland, Z.bits_0 in Hbit. done.
Qed.

(** What [__init__] has checked and computed when it does not raise. *)
Lemma init_inv (sz bs ways ab : Z) (c : Cache) :
  __init__ sz bs ways ab = Ok c →
  0 < sz ∧ 0 < bs ∧ 0 < ways ∧ sz mod bs = 0
  ∧ _is_power_of_2 bs = true ∧ _is_power_of_2 (sz / bs / ways) = true
  ∧ c = mkCache sz bs ways ab (sz / bs) (sz / bs / ways)
          (Z.log2 bs) (Z.log2 (sz / bs / ways))
          (ab - Z.log2 (sz / bs / ways) - Z.log2 bs)
          (replicate (Z.to_nat (sz / bs / ways))
             (replicate (Z.to_nat ways) CacheLine_default))
          0 0 0 0 0 0 0.
Proof.
  unfold __init__.
  destruct (Z.leb_spec sz 0); [done|].
  destruct (Z.leb_spec bs 0); [done|].
  destruct (Z.leb_spec ways 0); [done|]. simpl.
  destruct (Z.eqb_spec (sz mod bs) 0); [|done]. simpl.
  destruct (_is_power_of_2 bs); [|done]. simpl.
  destruct (_is_power_of_2 (sz / bs / ways)); [|done]. simpl.
  intros [= <-]. done.
Qed.

Lemma init_wf (sz bs ways ab : Z) (c : Cache) :
  __init__ sz bs ways ab = Ok c → wf c.
Proof.
  intros Hinit.
  destruct (init_inv _ _ _ _ _ Hinit) as (_ & _ & Hw & _ & _ & Hp & ->).
  apply is_power_of_2_log2 in Hp as [Hpos Hpow].
  constructor; simpl.
  - done.
  - intros s set Hset. apply lookup_replicate in Hset as [-> _].
    rewrite length_replicate. lia.
  - rewrite length_replicate. lia.
  - apply Z.log2_nonneg.
  - apply Z.log2_nonneg.
Qed.

Lemma init_lines_invalid (sz bs ways ab : Z) (c : Cache) (s w : nat)
  (l : CacheLine) :
  __init__ sz bs ways ab = Ok c → line_at c s w = Some l →
  l = CacheLine_default.
Proof.
  intros Hinit.
  destruct (init_inv _ _ _ _ _ Hinit) as (_ & _ & _ & _ & _ & _ & ->).
  unfold line_at. simpl. intros Hl.
  destruct (replicate _ _ !! s) as [set|] eqn:Hset; [|done]. simpl in Hl.
  apply lookup_replicate in Hset as [-> _].
  by apply lookup_replicate in Hl as [-> _].
Qed.

Lemma init_lru_inv (sz bs ways ab : Z) (c : Cache) :
  __init__ sz bs ways ab = Ok c → lru_inv c.
Proof.
  intros Hinit. split.
  - intros s w l Hl Hv.
    by rewrite (init_lines_invalid _ _ _ _ _ _ _ _ Hinit Hl) in Hv.
  - intros s w l s' w' l' Hl _ Hv.
    by rewrite (init_lines_invalid _ _ _ _ _ _ _ _ Hinit Hl) in Hv.
Qed.

(** The bit-field widths always add up to the address width. *)
Lemma init_bits_sum (sz bs ways ab : Z) (c : Cache) :
  __init__ sz bs ways ab = Ok c →
  offset_bits c + index_bits c + tag_bits c = address_bits c.
Proof.
  intros Hinit.
  destruct (init_inv _ _ _ _ _ Hinit) as (_ & _ & _ & _ & _ & _ & ->).
  simpl. lia.
Qed.

(** The capacity equation holds exactly when the associativity divides
    the number of blocks, which [__init__] does not check. *)
Lemma init_size_product (sz bs ways ab : Z) (c : Cache) :
  __init__ sz bs ways ab = Ok c →
  (num_sets c * associativity c * block_size c = size c
   ↔ (sz / bs) mod ways = 0).
Proof.
  intros Hinit.
  destruct (init_inv _ _ _ _ _ Hinit) as (_ & Hbs & Hw & Hmod & _ & _ & ->).
  simpl.
  pose proof (Z.div_mod sz bs ltac:(lia)) as Hsz.
  pose proof (Z.div_mod (sz / bs) ways ltac:(lia)) as Hnb.
  pose proof (Z.mod_pos_bound (sz / bs) ways Hw).
  split; intros H'; nia.
Qed.

(** C2. [Cache.__init__] accepts size 192, block size 64 and
    associativity 2 (3 blocks, floor-divided into 1 set of 2 ways) and
    the geometry it builds holds 1 * 2 * 64 = 128 bytes, not the 192 of
    [size]: the capacity equation of the claim fails on an accepted
    combination, while the bit-field equation holds. *)
Theorem init_accepts_inconsistent_geometry :
  ∃ c, __init__ 192 64 2 32 = Ok c
       ∧ num_sets c * associativity c * block_size c = 128
       ∧ size c = 192
       ∧ length (cache c) = 1%nat
       ∧ offset_bits c + index_bits c + tag_bits c = address_bits c.
Proof. eexists. split; [reflexivity|]. by vm_compute. Qed.

Lemma access_miss_victim_witness :
  ∃ c c', __init__ 1024 64 1 32 = Ok c
    ∧ access c 4096 READ false = Ok (false, c')
    ∧ ∃ t s o set w,
        _decompose_address c 4096 = Ok (t, Z.of_nat s, o)
        ∧ cache c !! s = Some set
        ∧ _find_victim c (Z.of_nat s) = Ok (Z.of_nat w)
        ∧ (first_invalid valid set w
           ∨ (all_valid valid set ∧ least_rank lru_counter set w))
        ∧ cache c' =
          <[s := <[w := mkLine true (is_write READ) t
                          (global_lru_counter c + 1)]> set]> (cache c).
Proof.
  eexists. eexists. split; [reflexivity|]. split; [reflexivity|].
  apply (access_miss_victim _ 4096 READ false).
  - apply (init_wf 1024 64 1 32). reflexivity.
  - reflexivity.
Defined.

Lemma access_lru_invariant_witness :
  ∃ c, __init__ 1024 64 4 32 = Ok c
    ∧ (0 <= tag_bits c → ∃ hit c', access c 4096 WRITE true = Ok (hit, c'))
    ∧ (∀ hit c',
         access c 4096 WRITE true = Ok (hit, c') →
         global_lru_counter c' = global_lru_counter c + 1
         ∧ wf c'
         ∧ lru_bounded c' ∧ lru_distinct c' ∧ lru_min_unique c').
Proof.
  eexists. split; [reflexivity|].
  apply access_lru_invariant.
  - apply (init_wf 1024 64 4 32). reflexivity.
  - apply (init_lru_inv 1024 64 4 32). reflexivity.
  - apply (init_lru_inv 1024 64 4 32). reflexivity.
Defined.

(** *** The states a program can reach *)

Lemma reachable_inv (c : Cache) :
  reachable c → wf c ∧ lru_inv c ∧ lru_stamped c.
Proof.
  induction 1 as [sz bs ways ab c Hinit|c a ty v hit c' _ IH Hacc].
  - split; [by apply (init_wf sz bs ways ab)|].
    split; [by apply (init_lru_inv sz bs ways ab)|]. split.
    + destruct (init_inv _ _ _ _ _ Hinit) as (_ & _ & _ & _ & _ & _ & ->).
      done.
    + intros s w l Hl Hv.
      by rewrite (init_lines_invalid _ _ _ _ _ _ _ _ Hinit Hl) in Hv.
  - destruct IH as (Hwf & Hinv & Hglc & Hst).
    destruct (access_preserves c a ty v hit c' Hwf Hinv Hacc)
      as (Hg & Hwf' & _ & Hinv').
    split; [done|]. split; [done|]. split; [lia|].
    destruct (access_inv c a ty v hit c' Hwf Hacc)
      as (t & s & o & set & w & line & _ & Hset & Hw & _ & _ & Hcase).
    intros s1 w1 l1 H1 Hv1.
    destruct Hcase as [(_ & _ & _ & Hc')|(_ & _ & _ & _ & Hc')];
      rewrite (line_at_insert (cache c) c' s w set line _ s1 w1 Hset Hw Hc')
        in H1;
      (case_decide;
       [ assert (0 < lru_counter l1); [|done];
         injection H1 as <-; simpl; lia
       | by apply (Hst s1 w1 l1) ]).
Qed.

(** On every reachable cache the victim of a full set is its one and
    only least recently used way. *)
Lemma reachable_lru_victim_unique (c : Cache) (s : nat)
  (set : list CacheLine) (w : nat) (x : CacheLine) :
  reachable c → cache c !! s = Some set →
  all_valid valid set → set !! w = Some x →
  (∀ j y, set !! j = Some y → lru_counter x <= lru_counter y) →
  ∀ j y, set !! j = Some y → j ≠ w → lru_counter x < lru_counter y.
Proof.
  intros Hr Hset Hall Hw Hmin.
  destruct (reachable_inv c Hr) as (_ & [_ Hd] & _ & Hst).
  apply (lru_distinct_min_unique c Hd s set w x Hset); [|done|done].
  intros j y Hj. split; [by apply (Hall j)|].
  assert (0 < lru_counter y); [|lia].
  apply (Hst s j y); [|by apply (Hall j)].
  unfold line_at. by rewrite Hset.
Qed.

(** *** The statistics and the content after an access *)

(** Everything a returning [access] has done, counters included. *)
Lemma access_effect (c : Cache) (a : Z) (ty : AccessType) (v hit : bool)
  (c' : Cache) :
  wf c → access c a ty v = Ok (hit, c') →
  ∃ t s o set w line,
    _decompose_address c a = Ok (t, Z.of_nat s, o)
    ∧ cache c !! s = Some set ∧ set !! w = Some line
    ∧ same_geometry c c'
    ∧ global_lru_counter c' = global_lru_counter c + 1
    ∧ read_hits c'
      = read_hits c + (if hit && negb (is_write ty) then 1 else 0)
    ∧ write_hits c'
      = write_hits c + (if hit && is_write ty then 1 else 0)
    ∧ read_misses c'
      = read_misses c + (if negb hit && negb (is_write ty) then 1 else 0)
    ∧ write_misses c'
      = write_misses c + (if negb hit && is_write ty then 1 else 0)
    ∧ evictions c'
      = evictions c + (if negb hit && valid line then 1 else 0)
    ∧ dirty_evictions c'
      = dirty_evictions c
        + (if negb hit && v && valid line && dirty line then 1 else 0)
    ∧ ((hit = true ∧ valid line = true ∧ tag line = t
        ∧ cache c' =
          <[s := <[w := touched_line t (is_write ty || dirty line)
                           (global_lru_counter c + 1)]> set]> (cache c))
       ∨ (hit = false
          ∧ (∀ j y, set !! j = Some y → ¬ (valid y = true ∧ tag y = t))
          ∧ lru_victim valid lru_counter set w
          ∧ cache c' =
            <[s := <[w := touched_line t (is_write ty)
                             (global_lru_counter c + 1)]> set]> (cache c))).
Proof.
  intros Hwf. unfold access. intros Hacc.
  apply rbind_Ok in Hacc as ([[t i] o] & Hdec & Hacc).
  destruct (decompose_address_inv c a t i o (wf_index_bits c Hwf) Hdec)
    as (Hi & _).
  assert (∃ s : nat, i = Z.of_nat s) as [s ->].
  { exists (Z.to_nat i). lia. }
  destruct (lookup_lt_is_Some_2 (cache c) s) as [set Hset].
  { pose proof (wf_sets c Hwf). lia. }
  exists t, s, o, set.
  destruct (find_line_spec c s set t Hwf Hset)
    as [(w & line & Hfl & Hw & Hv & Ht)|[Hfl Hno]];
    rewrite Hfl in Hacc; simpl in Hacc.
  - exists w, line. injection Hacc as <- <-.
    split; [done|]. split; [done|]. split; [done|].
    split; [by destruct ty|]. split; [by destruct ty|].
    do 6 (split; [destruct ty; simpl; lia|]).
    left. split; [done|]. split; [done|]. split; [done|].
    unfold _update_lru, update_line. rewrite !Nat2Z.id.
    destruct ty; cbn [cache with_cache with_global_lru_counter
                      incr_read_hits incr_write_hits with_stats
                      global_lru_counter is_write orb].
    + rewrite (alter2_as_insert _ _ _ _ _ _ Hset Hw).
      unfold set_lru_counter, touched_line. by rewrite Hv, Ht.
    + rewrite (alter2_as_insert _ _ _ _ _ _ Hset Hw).
      rewrite (alter2_insert2 _ _ _ _ _ _ _ Hset Hw).
      unfold set_lru_counter, set_dirty, touched_line. simpl.
      by rewrite Hv, Ht.
  - set (c1 := match ty with
               | READ => incr_read_misses c
               | WRITE => incr_write_misses c
               end) in *.
    assert (cache c1 = cache c) as Hc1 by by destruct ty.
    assert (same_geometry c c1) as Hg1 by by destruct ty.
    assert (wf c1) as Hwf1 by by apply (wf_ext c).
    assert (cache c1 !! s = Some set) as Hset1 by by rewrite Hc1.
    destruct (find_victim_spec c1 s set Hwf1 Hset1) as (w & Hfv & Hvic & Hlt).
    rewrite Hfv in Hacc. simpl in Hacc.
    destruct (lookup_lt_is_Some_2 set w Hlt) as [line Hw].
    rewrite get_line_nat in Hacc. unfold line_at in Hacc.
    rewrite Hset1 in Hacc. simpl in Hacc. rewrite Hw in Hacc.
    simpl in Hacc. injection Hacc as <- <-.
    exists w, line.
    split; [done|]. split; [done|]. split; [done|].
    split.
    { unfold _update_lru, update_line, same_geometry. simpl.
      destruct Hg1 as (?&?&?&?&?&?&?&?&?).
      destruct (v && valid line && dirty line), (valid line); simpl; done. }
    split.
    { unfold _update_lru, update_line. simpl.
      destruct (v && valid line && dirty line), (valid line), ty;
        simpl; lia. }
    do 6 (split;
          [unfold _update_lru, update_line; subst c1;
           destruct v, (valid line), (dirty line), ty; simpl; lia|]).
    right. split; [done|]. split; [done|]. split; [done|].
    set (c3 := if valid line then _ else _).
    assert (cache c3 = cache c ∧
            global_lru_counter c3 = global_lru_counter c) as [Hc3 Hl3].
    { subst c3. destruct (v && valid line && dirty line), (valid line);
        simpl; split; destruct ty; done. }
    rewrite (update_lru_load_cache c3 s w set line t ty); [|congruence|done].
    by rewrite Hc3, Hl3.
Qed.

(** *** What the constructor accepts *)

(** [_is_power_of_2(n)] is true exactly when [n] is [2 ^ k] for some
    [k >= 0]: the test [n > 0 and n & (n - 1) == 0] is exact. *)
Lemma is_power_of_2_iff (n : Z) :
  _is_power_of_2 n = true ↔ ∃ k, 0 <= k ∧ n = 2 ^ k.
Proof.
  split.
  - intros H. apply is_power_of_2_log2 in H as [Hpos Hn].
    exists (Z.log2 n). split; [apply Z.log2_nonneg|done].
  - intros (k & Hk & ->). unfold _is_power_of_2.
    pose proof (Z.pow_pos_nonneg 2 k ltac:(lia) Hk) as Hpos.
    apply andb_true_iff. split; [by apply Z.ltb_lt|].
    apply Z.eqb_eq. replace (2 ^ k - 1) with (Z.ones k)
      by (rewrite Z.ones_equiv; lia).
    rewrite Z.land_ones by done. apply Z.mod_same; lia.
Qed.

(** X1. [Cache.__init__] returns a cache exactly when size, block size
    and associativity are positive, the block size divides the size,
    the block size is a power of two and the floor-divided set count
    [size // block_size // associativity] is a power of two; in every
    other case it raises [ValueError].  The address width is never
    checked. *)
Theorem init_accepts_iff (sz bs ways ab : Z) :
  let accepted :=
    0 < sz ∧ 0 < bs ∧ 0 < ways ∧ sz mod bs = 0
    ∧ (∃ k, 0 <= k ∧ bs = 2 ^ k)
    ∧ (∃ k, 0 <= k ∧ sz / bs / ways = 2 ^ k) in
  ((∃ c, __init__ sz bs ways ab = Ok c) ↔ accepted)
  ∧ (¬ accepted → __init__ sz bs ways ab = Raise ValueError).
Proof.
  cbv zeta. rewrite <- !is_power_of_2_iff.
  assert (∀ c, __init__ sz bs ways ab = Ok c →
               0 < sz ∧ 0 < bs ∧ 0 < ways ∧ sz mod bs = 0
               ∧ _is_power_of_2 bs = true
               ∧ _is_power_of_2 (sz / bs / ways) = true) as Hinv.
  { intros c Hc. destruct (init_inv _ _ _ _ _ Hc) as (?&?&?&?&?&?&_).
    done. }
  assert (0 < sz ∧ 0 < bs ∧ 0 < ways ∧ sz mod bs = 0
          ∧ _is_power_of_2 bs = true
          ∧ _is_power_of_2 (sz / bs / ways) = true
          ∨ __init__ sz bs ways ab = Raise ValueError) as Hcases.
  { unfold __init__.
    destruct (Z.leb_spec sz 0); [by right|].
    destruct (Z.leb_spec bs 0); [by right|].
    destruct (Z.leb_spec ways 0); [by right|]. simpl.
    destruct (Z.eqb_spec (sz mod bs) 0); [|by right]. simpl.
    destruct (_is_power_of_2 bs); [|by right]. simpl.
    destruct (_is_power_of_2 (sz / bs / ways)); [|by right]. by left. }
  split; [split|].
  - intros [c Hc]. by apply (Hinv c).
  - intros (Hsz & Hbs & Hw & Hmod & Hpb & Hps). unfold __init__.
    destruct (Z.leb_spec sz 0); [lia|].
    destruct (Z.leb_spec bs 0); [lia|].
    destruct (Z.leb_spec ways 0); [lia|]. simpl.
    destruct (Z.eqb_spec (sz mod bs) 0); [|done]. simpl.
    rewrite Hpb, Hps. simpl. by eexists.
  - intros Hn. by destruct Hcases.
Qed.

(** X2. On accepted parameters the geometry is exact in its bit
    widths: [block_size = 2 ^ offset_bits], [num_sets = 2 ^ index_bits],
    the three widths add up to [address_bits]; the storage has
    [num_sets] sets of [associativity] lines, each the default line
    (invalid, clean, tag 0, stamp 0), and each of the six statistics
    counters and the LRU clock starts at zero. *)
Theorem init_geometry (sz bs ways ab : Z) (c : Cache) :
  __init__ sz bs ways ab = Ok c →
  block_size c = 2 ^ offset_bits c
  ∧ num_sets c = 2 ^ index_bits c
  ∧ offset_bits c + index_bits c + tag_bits c = address_bits c
  ∧ Z.of_nat (length (cache c)) = num_sets c
  ∧ (∀ s set, cache c !! s = Some set →
              Z.of_nat (length set) = associativity c
              ∧ ∀ w l, set !! w = Some l → l = CacheLine_default)
  ∧ read_hits c = 0 ∧ read_misses c = 0
  ∧ write_hits c = 0 ∧ write_misses c = 0
  ∧ evictions c = 0 ∧ dirty_evictions c = 0
  ∧ global_lru_counter c = 0.
Proof.
  intros Hinit.
  destruct (init_inv _ _ _ _ _ Hinit) as (_ & _ & Hw & _ & Hpb & Hps & ->).
  apply is_power_of_2_log2 in Hpb as [_ Hpb].
  apply is_power_of_2_log2 in Hps as [Hpos Hps].
  cbn [block_size num_sets offset_bits index_bits tag_bits address_bits
       cache associativity read_hits read_misses write_hits write_misses
       evictions dirty_evictions global_lru_counter].
  split; [done|]. split; [done|]. split; [lia|].
  split; [rewrite length_replicate; lia|].
  split; [|done].
  intros s set Hset. apply lookup_replicate in Hset as [-> _].
  split; [rewrite length_replicate; lia|].
  intros w l Hl. by apply lookup_replicate in Hl as [-> _].
Qed.

Lemma init_geometry_witness :
  ∃ c, __init__ 4096 64 4 32 = Ok c
    ∧ block_size c = 2 ^ offset_bits c
    ∧ num_sets c = 2 ^ index_bits c
    ∧ offset_bits c + index_bits c + tag_bits c = address_bits c
    ∧ Z.of_nat (length (cache c)) = num_sets c
    ∧ (∀ s set, cache c !! s = Some set →
                Z.of_nat (length set) = associativity c
                ∧ ∀ w l, set !! w = Some l → l = CacheLine_default)
    ∧ read_hits c = 0 ∧ read_misses c = 0
    ∧ write_hits c = 0 ∧ write_misses c = 0
    ∧ evictions c = 0 ∧ dirty_evictions c = 0
    ∧ global_lru_counter c = 0.
Proof.
  eexists. split; [reflexivity|].
  apply (init_geometry 4096 64 4 32). reflexivity.
Defined.

(** *** The fields of an address *)

Lemma decompose_address_fields (c : Cache) (a t i o : Z) :
  _decompose_address c a = Ok (t, i, o) →
  (0 <= offset_bits c ∧ 0 <= index_bits c ∧ 0 <= tag_bits c)
  ∧ o = a mod 2 ^ offset_bits c
  ∧ i = (a / 2 ^ offset_bits c) mod 2 ^ index_bits c
  ∧ t = (a / 2 ^ (offset_bits c + index_bits c)) mod 2 ^ tag_bits c.
Proof.
  unfold _decompose_address, py_shl, py_shr.
  destruct (Z.ltb_spec (offset_bits c) 0); [done|]. simpl.
  destruct (Z.ltb_spec (index_bits c) 0); [done|]. simpl.
  destruct (Z.ltb_spec (offset_bits c + index_bits c) 0); [done|]. simpl.
  destruct (Z.ltb_spec (tag_bits c) 0); [done|]. simpl.
  intros [= <- <- <-]. split; [done|].
  rewrite !shiftl_1_ones, !Z.land_ones, !Z.shiftr_div_pow2 by lia. done.
Qed.

(** X3. [_decompose_address] splits an address into three bit fields
    that do not overlap: each result lies in the range of its width,
    and putting them back with [(tag << (offset_bits + index_bits)) |
    (index << offset_bits) | offset] gives the address reduced to
    [offset_bits + index_bits + tag_bits] bits; address bits above the
    three fields are dropped. *)
Theorem decompose_address_recompose (c : Cache) (a t i o : Z) :
  _decompose_address c a = Ok (t, i, o) →
  (0 <= o < 2 ^ offset_bits c ∧ 0 <= i < 2 ^ index_bits c
   ∧ 0 <= t < 2 ^ tag_bits c)
  ∧ Z.lor (Z.shiftl t (offset_bits c + index_bits c))
          (Z.lor (Z.shiftl i (offset_bits c)) o)
    = a mod 2 ^ (offset_bits c + index_bits c + tag_bits c).
Proof.
  intros Hdec.
  destruct (decompose_address_fields c a t i o Hdec)
    as ((Ho & Hi & Ht) & -> & -> & ->).
  set (ob := offset_bits c) in *. set (ib := index_bits c) in *.
  set (tb := tag_bits c) in *.
  assert (0 < 2 ^ ob) by (apply Z.pow_pos_nonneg; lia).
  assert (0 < 2 ^ ib) by (apply Z.pow_pos_nonneg; lia).
  assert (0 < 2 ^ tb) by (apply Z.pow_pos_nonneg; lia).
  pose proof (Z.mod_pos_bound a (2 ^ ob) ltac:(lia)) as Bo.
  pose proof (Z.mod_pos_bound (a / 2 ^ ob) (2 ^ ib) ltac:(lia)) as Bi.
  pose proof (Z.mod_pos_bound (a / 2 ^ (ob + ib)) (2 ^ tb) ltac:(lia)) as Bt.
  split; [done|].
  rewrite (lor_shiftl_add _ ob) by done.
  assert (a mod 2 ^ (ob + ib)
          = (a / 2 ^ ob) mod 2 ^ ib * 2 ^ ob + a mod 2 ^ ob) as Hlow.
  { rewrite Z.pow_add_r by done. rewrite Z.rem_mul_r by lia. lia. }
  rewrite <- Hlow.
  rewrite lor_shiftl_add;
    [|lia|apply Z.mod_pos_bound; apply Z.pow_pos_nonneg; lia].
  rewrite (Z.pow_add_r 2 (ob + ib) tb) by lia.
  rewrite (Z.rem_mul_r a (2 ^ (ob + ib)) (2 ^ tb)); [lia| |lia].
  apply Z.pow_nonzero; lia.
Qed.

Lemma decompose_address_recompose_witness :
  ∃ c, __init__ 4096 64 4 32 = Ok c
    ∧ _decompose_address c 0x12345678 = Ok (0x48D15, 9, 0x38)
    ∧ Z.lor (Z.shiftl 0x48D15 (offset_bits c + index_bits c))
            (Z.lor (Z.shiftl 9 (offset_bits c)) 0x38)
      = 0x12345678 mod 2 ^ (offset_bits c + index_bits c + tag_bits c).
Proof.
  eexists. split; [reflexivity|]. split; [reflexivity|].
  eapply proj2. apply (decompose_address_recompose _ 0x12345678).
  reflexivity.
Defined.

(** *** Hits, misses and the counters *)

Lemma decompose_address_ext (c c' : Cache) (a : Z) :
  same_geometry c c' → _decompose_address c' a = _decompose_address c a.
Proof.
  intros (_ & _ & _ & _ & _ & _ & Ho & Hi & Ht).
  unfold _decompose_address. by rewrite Ho, Hi, Ht.
Qed.

Lemma access_wf (c : Cache) (a : Z) (ty : AccessType) (v hit : bool)
  (c' : Cache) :
  wf c → access c a ty v = Ok (hit, c') → wf c'.
Proof.
  intros Hwf Hacc.
  destruct (access_effect c a ty v hit c' Hwf Hacc)
    as (t & s & o & set & w & line & _ & Hset & Hw & Hgeo & _ & _ & _ & _
        & _ & _ & _ & Hcase).
  assert (∃ nl, cache c' = <[s := <[w := nl]> set]> (cache c))
    as (nl & Hc').
  { destruct Hcase as [(_ & _ & _ & Hc')|(_ & _ & _ & Hc')]; by eexists. }
  destruct Hgeo as (_ & _ & Ha & _ & _ & _ & Ho & Hi & _).
  destruct Hwf as [H1 H2 H3 H4 H5].
  constructor; rewrite ?Ha, ?Ho, ?Hi; try done.
  - intros s1 set1. rewrite Hc'.
    destruct (decide (s = s1)) as [<-|Hs].
    + rewrite list_lookup_insert_eq by by eapply lookup_lt_Some.
      intros [= <-]. rewrite length_insert. by apply (H2 s).
    + rewrite list_lookup_insert_ne by done. apply H2.
  - by rewrite Hc', length_insert.
Qed.

(** An access hits exactly when the indexed set holds a valid line
    with the address's tag. *)
Lemma access_hit_iff (c : Cache) (a : Z) (ty : AccessType) (v : bool)
  (t o : Z) (s : nat) (set : list CacheLine) :
  wf c → _decompose_address c a = Ok (t, Z.of_nat s, o) →
  cache c !! s = Some set →
  (∃ c', access c a ty v = Ok (true, c'))
  ↔ (∃ w line, set !! w = Some line ∧ valid line = true ∧ tag line = t).
Proof.
  intros Hwf Hdec Hset. split.
  - intros [c' Hacc].
    destruct (access_effect c a ty v true c' Hwf Hacc)
      as (t' & s' & o' & set' & w & line & Hdec' & Hset' & Hw & _ & _ & _
          & _ & _ & _ & _ & _ & Hcase).
    rewrite Hdec in Hdec'. injection Hdec' as <- Hs <-.
    apply Nat2Z.inj in Hs as <-. rewrite Hset in Hset'.
    injection Hset' as <-.
    destruct Hcase as [(_ & Hv & Ht & _)|(? & _)]; [|done].
    by exists w, line.
  - intros (w & line & Hw & Hv & Ht). unfold access.
    rewrite Hdec, result_bind_Ok.
    destruct (find_line_spec c s set t Hwf Hset)
      as [(w' & line' & -> & _)|[_ Hno]].
    + rewrite result_bind_Ok. by eexists.
    + by destruct (Hno w line Hw).
Qed.

(** X4. After any access, an access to an address of the same block
    (same tag and same set index, any offset, read or write) hits: the
    block an access touches is resident when the access returns. *)
Theorem access_same_block_hits (c : Cache) (a b : Z) (ty ty' : AccessType)
  (v v' hit : bool) (c' : Cache) (t i o o' : Z) :
  wf c →
  _decompose_address c a = Ok (t, i, o) →
  _decompose_address c b = Ok (t, i, o') →
  access c a ty v = Ok (hit, c') →
  ∃ c'', access c' b ty' v' = Ok (true, c'').
Proof.
  intros Hwf Hda Hdb Hacc.
  destruct (access_effect c a ty v hit c' Hwf Hacc)
    as (t' & s & o'' & set & w & line & Hdec & Hset & Hw & Hgeo & _ & _
        & _ & _ & _ & _ & _ & Hcase).
  rewrite Hda in Hdec. injection Hdec as <- -> <-.
  assert (∃ nl, valid nl = true ∧ tag nl = t
                ∧ cache c' = <[s := <[w := nl]> set]> (cache c))
    as (nl & Hnv & Hnt & Hc').
  { destruct Hcase as [(_ & _ & _ & Hc')|(_ & _ & _ & Hc')];
      eexists; (split; [|split; [|exact Hc']]); done. }
  apply (access_hit_iff c' b ty' v' t o' s (<[w := nl]> set)).
  - by apply (access_wf c a ty v hit).
  - by rewrite (decompose_address_ext c c').
  - rewrite Hc'. apply list_lookup_insert_eq. by eapply lookup_lt_Some.
  - exists w, nl. split; [|done].
    apply list_lookup_insert_eq. by eapply lookup_lt_Some.
Qed.

Lemma access_same_block_hits_witness :
  ∃ c c' c'', __init__ 4096 64 4 32 = Ok c
    ∧ access c 0x1000 READ false = Ok (false, c')
    ∧ access c' 0x103F WRITE true = Ok (true, c'').
Proof.
  pose (c := mkCache 4096 64 4 32 64 16 6 4 22
               (replicate 16 (replicate 4 CacheLine_default))
               0 0 0 0 0 0 0).
  assert (__init__ 4096 64 4 32 = Ok c) as Hinit by reflexivity.
  destruct (access c 0x1000 READ false) as [[hit c']|e] eqn:Hacc;
    [|discriminate Hacc].
  destruct (access_same_block_hits c 0x1000 0x103F READ WRITE false true
              hit c' 4 0 0 0x3F) as [c'' H'];
    [by apply (init_wf 4096 64 4 32)|reflexivity|reflexivity|exact Hacc|].
  exists c, c', c''. split; [done|]. split; [|done].
  vm_compute in Hacc. by injection Hacc as <- <-.
Defined.

(** X5. A hit evicts nothing and loads nothing: the miss and eviction
    counters stay as they were, one of the two hit counters grows by
    one, and every line of the cache keeps its valid bit and its tag;
    a read hit keeps every dirty bit too. *)
Theorem access_hit_effect (c : Cache) (a : Z) (ty : AccessType) (v : bool)
  (c' : Cache) :
  wf c → access c a ty v = Ok (true, c') →
  read_misses c' = read_misses c ∧ write_misses c' = write_misses c
  ∧ evictions c' = evictions c ∧ dirty_evictions c' = dirty_evictions c
  ∧ read_hits c' + write_hits c' = read_hits c + write_hits c + 1
  ∧ (∀ s w, (λ l, (valid l, tag l)) <$> line_at c' s w
            = (λ l, (valid l, tag l)) <$> line_at c s w)
  ∧ (ty = READ → ∀ s w, dirty <$> line_at c' s w = dirty <$> line_at c s w).
Proof.
  intros Hwf Hacc.
  destruct (access_effect c a ty v true c' Hwf Hacc)
    as (t & s & o & set & w & line & _ & Hset & Hw & _ & _ & Hrh & Hwh
        & Hrm & Hwm & Hev & Hdev & Hcase).
  destruct Hcase as [(_ & Hv & Ht & Hc')|(? & _)]; [|done].
  simpl in *. do 4 (split; [lia|]).
  split; [destruct ty; simpl in *; lia|].
  pose proof (λ s1 w1, line_at_insert (cache c) c' s w set line _ s1 w1
                        Hset Hw Hc') as Hat.
  assert (line_at c s w = Some line) as Hline.
  { unfold line_at. by rewrite Hset. }
  split.
  - intros s1 w1. rewrite (Hat s1 w1).
    case_decide as Heq; [|done]. destruct Heq as [<- <-].
    rewrite Hline. simpl. by rewrite Hv, Ht.
  - intros -> s1 w1. rewrite (Hat s1 w1).
    case_decide as Heq; [|done]. destruct Heq as [<- <-].
    by rewrite Hline.
Qed.

Lemma access_hit_effect_witness :
  ∃ c c' c'', __init__ 4096 64 4 32 = Ok c
    ∧ access c 0x1000 WRITE false = Ok (false, c')
    ∧ access c' 0x1008 READ false = Ok (true, c'')
    ∧ evictions c'' = evictions c'
    ∧ read_hits c'' + write_hits c'' = read_hits c' + write_hits c' + 1
    ∧ ∀ s w, dirty <$> line_at c'' s w = dirty <$> line_at c' s w.
Proof.
  pose (c := mkCache 4096 64 4 32 64 16 6 4 22
               (replicate 16 (replicate 4 CacheLine_default))
               0 0 0 0 0 0 0).
  destruct (access c 0x1000 WRITE false) as [[hit c']|e] eqn:Hacc;
    [|discriminate Hacc].
  destruct (access c' 0x1008 READ false) as [[hit' c'']|e] eqn:Hacc';
    [|vm_compute in Hacc; injection Hacc as <- <-; discriminate Hacc'].
  assert (hit = false ∧ hit' = true) as [-> ->].
  { vm_compute in Hacc. injection Hacc as <- <-.
    vm_compute in Hacc'. by injection Hacc' as <- <-. }
  exists c, c', c''. split; [reflexivity|]. split; [done|]. split; [done|].
  destruct (access_hit_effect c' 0x1008 READ false c'')
    as (_ & _ & Hev & _ & Hh & _ & Hd);
    [|exact Hacc'|by auto].
  apply (access_wf c 0x1000 WRITE false false c'); [|exact Hacc].
  by apply (init_wf 4096 64 4 32).
Defined.

Lemma lru_victim_valid (set : list CacheLine) (w : nat) (line : CacheLine) :
  lru_victim valid lru_counter set w → set !! w = Some line →
  valid line = forallb valid set.
Proof.
  intros [(x & Hx & Hinv & _)|[Hall _]] Hw.
  - rewrite Hx in Hw. injection Hw as <-. rewrite Hinv. symmetry.
    apply not_true_is_false. rewrite forallb_forall. intros Hf.
    apply list_elem_of_lookup_2, list_elem_of_In in Hx.
    specialize (Hf x Hx). congruence.
  - rewrite (Hall w line Hw). symmetry. apply forallb_forall.
    intros y Hy. apply list_elem_of_In, list_elem_of_lookup_1 in Hy as [j Hj].
    by apply (Hall j).
Qed.

(** X6. The accounting of a miss: one of the two miss counters grows
    by one and the hit counters stay; [evictions] grows by one exactly
    when every way of the indexed set is valid; [dirty_evictions] never
    grows by more than [evictions] does, and it does not grow at all
    when [verbose] is false, whatever line is replaced: the counter is
    updated inside the verbose branch only. *)
Theorem access_miss_accounting (c : Cache) (a : Z) (ty : AccessType)
  (v : bool) (c' : Cache) :
  wf c → access c a ty v = Ok (false, c') →
  ∃ t s o set,
    _decompose_address c a = Ok (t, Z.of_nat s, o)
    ∧ cache c !! s = Some set
    ∧ read_hits c' = read_hits c ∧ write_hits c' = write_hits c
    ∧ read_misses c' + write_misses c'
      = read_misses c + write_misses c + 1
    ∧ evictions c' = evictions c + (if forallb valid set then 1 else 0)
    ∧ dirty_evictions c <= dirty_evictions c'
      <= dirty_evictions c + (evictions c' - evictions c)
    ∧ (v = false → dirty_evictions c' = dirty_evictions c).
Proof.
  intros Hwf Hacc.
  destruct (access_effect c a ty v false c' Hwf Hacc)
    as (t & s & o & set & w & line & Hdec & Hset & Hw & _ & _ & Hrh & Hwh
        & Hrm & Hwm & Hev & Hdev & Hcase).
  destruct Hcase as [(? & _)|(_ & _ & Hvic & _)]; [done|].
  rewrite (lru_victim_valid set w line Hvic Hw) in Hev, Hdev.
  exists t, s, o, set. simpl in *.
  split; [done|]. split; [done|]. split; [lia|]. split; [lia|].
  split; [destruct ty; simpl in *; lia|]. split; [done|].
  split; [|intros ->; simpl in Hdev; lia].
  rewrite Hev, Hdev.
  destruct v, (forallb valid set), (dirty line); simpl; lia.
Qed.

Lemma access_miss_accounting_witness :
  ∃ c c', __init__ 128 64 1 32 = Ok c
    ∧ access c 0x80 WRITE false = Ok (false, c')
    ∧ ∃ c'', access c' 0x100 READ false = Ok (false, c'')
        ∧ evictions c'' = evictions c' + 1
        ∧ dirty_evictions c'' = dirty_evictions c'.
Proof.
  pose (c := mkCache 128 64 1 32 2 2 6 1 25
               (replicate 2 (replicate 1 CacheLine_default))
               0 0 0 0 0 0 0).
  destruct (access c 0x80 WRITE false) as [[hit c']|e] eqn:Hacc;
    [|discriminate Hacc].
  destruct (access c' 0x100 READ false) as [[hit' c'']|e] eqn:Hacc';
    [|vm_compute in Hacc; injection Hacc as <- <-; discriminate Hacc'].
  assert (hit = false ∧ hit' = false) as [-> ->].
  { vm_compute in Hacc. injection Hacc as <- <-.
    vm_compute in Hacc'. by injection Hacc' as <- <-. }
  exists c, c'. split; [reflexivity|]. split; [done|].
  exists c''. split; [done|].
  destruct (access_miss_accounting c' 0x100 READ false c'')
    as (t & s & o & set & Hdec & Hset & _ & _ & _ & Hev & _ & Hdev);
    [|exact Hacc'|].
  { apply (access_wf c 0x80 WRITE false false c'); [|exact Hacc].
    by apply (init_wf 128 64 1 32). }
  split; [|by apply Hdev].
  vm_compute in Hacc. injection Hacc as <-.
  vm_compute in Hdec. injection Hdec as <- Hs <-.
  change 0 with (Z.of_nat 0) in Hs. apply Nat2Z.inj in Hs as <-.
  vm_compute in Hset. injection Hset as <-. exact Hev.
Defined.

(** *** Invariants of the reachable states, continued *)

Lemma access_preserves_no_dup_tags (c : Cache) (a : Z) (ty : AccessType)
  (v hit : bool) (c' : Cache) :
  wf c → no_dup_tags c → access c a ty v = Ok (hit, c') → no_dup_tags c'.
Proof.
  intros Hwf Hnd Hacc.
  destruct (access_effect c a ty v hit c' Hwf Hacc)
    as (t & s & o & set & w & line & _ & Hset & Hw & _ & _ & _ & _ & _ & _
        & _ & _ & Hcase).
  assert (∃ nl, tag nl = t
                ∧ cache c' = <[s := <[w := nl]> set]> (cache c)
                ∧ ∀ j y, set !! j = Some y → valid y = true → tag y = t →
                         j = w)
    as (nl & Hnt & Hc' & Hone).
  { destruct Hcase as [(_ & Hv & Ht & Hc')|(_ & Hno & _ & Hc')];
      eexists; (split; [|split; [exact Hc'|]]); try done.
    - intros j y Hj Hvy Hty. apply (Hnd s set j w y line); congruence.
    - intros j y Hj Hvy Hty. by destruct (Hno j y Hj). }
  assert ((s < length (cache c))%nat) by by eapply lookup_lt_Some.
  assert ((w < length set)%nat) by by eapply lookup_lt_Some.
  intros s1 set1 i j x y. rewrite Hc'.
  destruct (decide (s = s1)) as [<-|Hs].
  - rewrite list_lookup_insert_eq by done. intros [= <-].
    destruct (decide (w = i)) as [<-|Hi], (decide (w = j)) as [<-|Hj];
      [done|..].
    + rewrite list_lookup_insert_eq, list_lookup_insert_ne by done.
      intros [= <-] Hy _ Hvy Hty. symmetry. apply (Hone j y); congruence.
    + rewrite list_lookup_insert_eq, list_lookup_insert_ne by done.
      intros Hx [= <-] Hvx _ Hty. apply (Hone i x); congruence.
    + rewrite !list_lookup_insert_ne by done. by apply (Hnd s set).
  - rewrite list_lookup_insert_ne by done. apply Hnd.
Qed.

(** X7. In every cache reached from the constructor by accesses, a set
    never holds the same tag in two valid lines: a block is resident
    in at most one way. *)
Theorem reachable_no_dup_tags (c : Cache) : reachable c → no_dup_tags c.
Proof.
  intros Hr. enough (wf c ∧ no_dup_tags c) as [_ H] by done.
  induction Hr as [sz bs ways ab c Hinit|c a ty v hit c' _ [Hwf IH] Hacc].
  - split; [by apply (init_wf sz bs ways ab)|].
    intros s set i j x y Hset Hx _ Hvx.
    assert (line_at c s i = Some x) as Hl.
    { unfold line_at. by rewrite Hset. }
    by rewrite (init_lines_invalid _ _ _ _ _ _ _ _ Hinit Hl) in Hvx.
  - split; [by apply (access_wf c a ty v hit)|].
    by apply (access_preserves_no_dup_tags c a ty v hit).
Qed.

Lemma reachable_no_dup_tags_witness :
  ∃ c c', __init__ 4096 64 4 32 = Ok c
    ∧ access c 0x1000 READ false = Ok (false, c')
    ∧ no_dup_tags c'.
Proof.
  pose (c := mkCache 4096 64 4 32 64 16 6 4 22
               (replicate 16 (replicate 4 CacheLine_default))
               0 0 0 0 0 0 0).
  destruct (access c 0x1000 READ false) as [[hit c']|e] eqn:Hacc;
    [|discriminate Hacc].
  exists c, c'. split; [reflexivity|].
  split; [vm_compute in Hacc; by injection Hacc as <- <-|].
  apply reachable_no_dup_tags.
  apply (reachable_access c 0x1000 READ false hit c'); [|exact Hacc].
  by apply (reachable_init 4096 64 4 32).
Defined.

(** X8. The counters of a reachable cache are consistent: each is
    non-negative, the four hit and miss counters add up to the number
    of accesses made ([global_lru_counter], which every access
    advances by one), there are no more evictions than misses and no
    more dirty evictions than evictions. *)
Theorem reachable_statistics (c : Cache) :
  reachable c →
  total_accesses c = global_lru_counter c
  ∧ 0 <= read_hits c ∧ 0 <= read_misses c
  ∧ 0 <= write_hits c ∧ 0 <= write_misses c
  ∧ 0 <= dirty_evictions c <= evictions c
  ∧ evictions c <= read_misses c + write_misses c.
Proof.
  intros Hr.
  enough (wf c ∧ total_accesses c = global_lru_counter c
          ∧ 0 <= read_hits c ∧ 0 <= read_misses c
          ∧ 0 <= write_hits c ∧ 0 <= write_misses c
          ∧ 0 <= dirty_evictions c <= evictions c
          ∧ evictions c <= read_misses c + write_misses c) as [_ H] by done.
  unfold total_accesses.
  induction Hr as [sz bs ways ab c Hinit|c a ty v hit c' _ [Hwf IH] Hacc].
  - split; [by apply (init_wf sz bs ways ab)|].
    destruct (init_inv _ _ _ _ _ Hinit) as (_ & _ & _ & _ & _ & _ & ->).
    simpl. lia.
  - split; [by apply (access_wf c a ty v hit)|].
    destruct (access_effect c a ty v hit c' Hwf Hacc)
      as (_ & _ & _ & _ & _ & line & _ & _ & _ & _ & -> & -> & -> & -> & ->
          & -> & -> & _).
    destruct hit, ty, v, (valid line), (dirty line); simpl; lia.
Qed.

Lemma reachable_statistics_witness :
  ∃ c c', __init__ 4096 64 4 32 = Ok c
    ∧ access c 0x1000 WRITE true = Ok (false, c')
    ∧ total_accesses c' = global_lru_counter c'
    ∧ evictions c' <= read_misses c' + write_misses c'.
Proof.
  pose (c := mkCache 4096 64 4 32 64 16 6 4 22
               (replicate 16 (replicate 4 CacheLine_default))
               0 0 0 0 0 0 0).
  destruct (access c 0x1000 WRITE true) as [[hit c']|e] eqn:Hacc;
    [|discriminate Hacc].
  exists c, c'. split; [reflexivity|].
  split; [vm_compute in Hacc; by injection Hacc as <- <-|].
  destruct (reachable_statistics c') as (Ht & _ & _ & _ & _ & _ & He);
    [|done].
  apply (reachable_access c 0x1000 WRITE true hit c'); [|exact Hacc].
  by apply (reachable_init 4096 64 4 32).
Defined.

(** *** The statistics do not steer the cache *)

Lemma get_line_ext (c1 c2 : Cache) (s w : Z) :
  cache c1 = cache c2 → get_line c2 s w = get_line c1 s w.
Proof. unfold get_line. by intros ->. Qed.

Lemma find_line_loop_ext (c1 c2 : Cache) (s t : Z) (ws : list Z) :
  cache c1 = cache c2 →
  _find_line_loop c2 s t ws = _find_line_loop c1 s t ws.
Proof.
  intros Hc. induction ws as [|w ws IH]; [done|].
  cbn [_find_line_loop]. by rewrite IH, (get_line_ext c1 c2).
Qed.

Lemma find_invalid_loop_ext (c1 c2 : Cache) (s : Z) (ws : list Z) :
  cache c1 = cache c2 →
  _find_invalid_loop c2 s ws = _find_invalid_loop c1 s ws.
Proof.
  intros Hc. induction ws as [|w ws IH]; [done|].
  cbn [_find_invalid_loop]. by rewrite IH, (get_line_ext c1 c2).
Qed.

Lemma find_lru_loop_ext (c1 c2 : Cache) (s : Z) (ws : list Z) (b m : Z) :
  cache c1 = cache c2 →
  _find_lru_loop c2 s ws b m = _find_lru_loop c1 s ws b m.
Proof.
  intros Hc. revert b m. induction ws as [|w ws IH]; [done|]. intros b m.
  cbn [_find_lru_loop]. rewrite (get_line_ext c1 c2) by done.
  destruct (get_line c1 s w) as [l|]; [|done].
  rewrite !result_bind_Ok. by rewrite !IH.
Qed.

Lemma find_victim_ext (c1 c2 : Cache) (s : Z) :
  cache c1 = cache c2 → associativity c2 = associativity c1 →
  _find_victim c2 s = _find_victim c1 s.
Proof.
  intros Hc Ha. unfold _find_victim.
  rewrite Ha, (find_invalid_loop_ext c1 c2), (get_line_ext c1 c2) by done.
  destruct (_find_invalid_loop c1 s _) as [[w|]|]; try done.
  rewrite result_bind_Ok.
  destruct (get_line c1 s 0) as [l|]; [|done].
  rewrite !result_bind_Ok. by apply find_lru_loop_ext.
Qed.

(** Two caches with the same content answer an access alike and have
    the same content afterwards. *)
Lemma access_ext (c1 c2 : Cache) (a : Z) (ty : AccessType) (v hit : bool)
  (c1' : Cache) :
  same_content c1 c2 → access c1 a ty v = Ok (hit, c1') →
  ∃ c2', access c2 a ty v = Ok (hit, c2') ∧ same_content c1' c2'.
Proof.
  intros (Hc & Hg & Hl) Hacc. unfold access in *.
  rewrite (decompose_address_ext c1 c2) by done.
  apply rbind_Ok in Hacc as ([[t i] o] & -> & Hacc).
  rewrite result_bind_Ok. unfold _find_line in *.
  pose proof Hg as (_ & _ & Ha & _).
  rewrite Ha, (find_line_loop_ext c1 c2) by done.
  apply rbind_Ok in Hacc as (way & -> & Hacc). rewrite result_bind_Ok.
  destruct way as [w|].
  - injection Hacc as <- <-. eexists. split; [done|].
    destruct Hg as (? & ? & ? & ? & ? & ? & ? & ? & ?).
    unfold same_content, same_geometry.
    destruct ty; cbn; rewrite ?Hc, ?Hl; by repeat split.
  - set (c11 := match ty with
                | READ => incr_read_misses c1
                | WRITE => incr_write_misses c1
                end) in *.
    set (c21 := match ty with
                | READ => incr_read_misses c2
                | WRITE => incr_write_misses c2
                end).
    assert (cache c11 = cache c21) as Hc1 by by destruct ty.
    assert (associativity c21 = associativity c11) as Ha1 by by destruct ty.
    assert (global_lru_counter c11 = global_lru_counter c21) as Hl1
      by by destruct ty.
    assert (same_geometry c11 c21) as Hg1 by by destruct ty.
    rewrite (find_victim_ext c11 c21) by done.
    apply rbind_Ok in Hacc as (w & -> & Hacc). rewrite result_bind_Ok.
    rewrite (get_line_ext c11 c21) by done.
    apply rbind_Ok in Hacc as (line & -> & Hacc). rewrite result_bind_Ok.
    injection Hacc as <- <-. eexists. split; [done|].
    clearbody c11 c21.
    destruct Hg1 as (? & ? & ? & ? & ? & ? & ? & ? & ?).
    unfold same_content, same_geometry.
    destruct (v && valid line && dirty line), (valid line);
      cbn; rewrite ?Hc1, ?Hl1; by repeat split.
Qed.

(** X9. The statistics never steer the cache.  [reset_stats] sets
    each of the six counters ([read_hits], [read_misses], [write_hits],
    [write_misses], [evictions], [dirty_evictions]) to zero and keeps
    the lines, the geometry and the LRU clock; and two caches that
    differ in their counters only give the same hit or miss answer to
    any access and hold the same lines and clock afterwards. *)
Theorem reset_stats_keeps_behaviour (c : Cache) :
  same_content c (reset_stats c)
  ∧ read_hits (reset_stats c) = 0 ∧ read_misses (reset_stats c) = 0
  ∧ write_hits (reset_stats c) = 0 ∧ write_misses (reset_stats c) = 0
  ∧ evictions (reset_stats c) = 0 ∧ dirty_evictions (reset_stats c) = 0
  ∧ ∀ a ty v hit c',
      access c a ty v = Ok (hit, c') →
      ∃ c'', access (reset_stats c) a ty v = Ok (hit, c'')
             ∧ same_content c' c''.
Proof.
  assert (same_content c (reset_stats c)) as Hs by done.
  split; [done|]. do 6 (split; [done|]).
  intros a ty v hit c'. by apply access_ext.
Qed.

Lemma reset_stats_keeps_behaviour_witness :
  ∃ c c' c'', __init__ 4096 64 4 32 = Ok c
    ∧ access c 0x1000 READ false = Ok (false, c')
    ∧ access (reset_stats c') 0x1000 READ false = Ok (true, c'')
    ∧ read_hits c'' = 1 ∧ read_misses c'' = 0.
Proof.
  pose (c := mkCache 4096 64 4 32 64 16 6 4 22
               (replicate 16 (replicate 4 CacheLine_default))
               0 0 0 0 0 0 0).
  destruct (access c 0x1000 READ false) as [[hit c']|e] eqn:Hacc;
    [|discriminate Hacc].
  destruct (access c' 0x1000 READ false) as [[hit' c2]|e] eqn:Hacc';
    [|vm_compute in Hacc; injection Hacc as <- <-; discriminate Hacc'].
  destruct (reset_stats_keeps_behaviour c')
    as (_ & _ & _ & _ & _ & _ & _ & Hsame).
  destruct (Hsame 0x1000 READ false hit' c2 Hacc') as (c'' & Hacc'' & _).
  exists c, c', c''. split; [reflexivity|].
  vm_compute in Hacc. injection Hacc as <- <-.
  vm_compute in Hacc'. injection Hacc' as <- <-.
  split; [done|]. split; [exact Hacc''|].
  vm_compute in Hacc''. by injection Hacc'' as <-.
Defined.

End CacheProps.

(** ** Properties of the TLB *)

Module TLBProps.
Import TLBSim TLBSpec.

Lemma matches_test (vpn : Z) (ps : PageSize) (e : TLBEntry) :
  valid e && (TLBSim.vpn e =? vpn) && PageSize_eqb (page_size e) ps = true
  ↔ matches vpn ps e.
Proof.
  unfold matches, PageSize_eqb.
  rewrite !andb_true_iff, Z.eqb_eq, bool_decide_eq_true. tauto.
Qed.

Lemma find_entry_loop_spec (t : TLB) (vpn : Z) (ps : PageSize)
  (rest : list TLBEntry) (k : nat) :
  drop k (entries t) = rest →
  (∀ j y, (j < k)%nat → entries t !! j = Some y → ¬ matches vpn ps y) →
  (∃ i e, _find_entry_loop t vpn ps
            (seqZ (Z.of_nat k) (Z.of_nat (length rest)))
          = Ok (Some (Z.of_nat i))
          ∧ first_match t vpn ps i e)
  ∨ (_find_entry_loop t vpn ps
       (seqZ (Z.of_nat k) (Z.of_nat (length rest))) = Ok None
     ∧ no_match t vpn ps).
Proof.
  revert k. induction rest as [|x rest IH]; intros k Hdrop Hpre.
  - right. split; [done|]. intros j y Hy.
    apply (Hpre j y); [|done]. apply lookup_lt_Some in Hy.
    assert (length (drop k (entries t)) = 0%nat) as Hlen by by rewrite Hdrop.
    rewrite length_drop in Hlen. lia.
  - assert (entries t !! k = Some x) as Hk.
    { rewrite <- (Nat.add_0_r k), <- lookup_drop, Hdrop. done. }
    assert (drop (S k) (entries t) = rest) as Hdrop'.
    { rewrite (drop_S _ _ _ Hk) in Hdrop. congruence. }
    cbn [length]. rewrite seqZ_nat_cons. cbn [_find_entry_loop].
    rewrite py_index_nat, Hk. simpl.
    destruct (valid x && (TLBSim.vpn x =? vpn)
              && PageSize_eqb (page_size x) ps) eqn:Htest.
    + left. exists k, x. split; [done|].
      split; [done|]. split; [by apply matches_test|done].
    + apply IH; [done|]. intros j y Hj Hy.
      destruct (decide (j = k)) as [->|].
      * assert (y = x) as -> by congruence.
        rewrite <- matches_test. by rewrite Htest.
      * apply (Hpre j y); [lia|done].
Qed.

Lemma find_entry_spec (t : TLB) (vpn : Z) (ps : PageSize) :
  wf t →
  (∃ i e, _find_entry t vpn ps = Ok (Some (Z.of_nat i))
          ∧ first_match t vpn ps i e)
  ∨ (_find_entry t vpn ps = Ok None ∧ no_match t vpn ps).
Proof.
  intros Hwf. unfold _find_entry. rewrite Hwf.
  apply (find_entry_loop_spec t vpn ps (entries t) 0); [done|].
  intros; lia.
Qed.

Lemma first_match_unique (t : TLB) (vpn : Z) (ps : PageSize)
  (i j : nat) (e y : TLBEntry) :
  first_match t vpn ps i e → first_match t vpn ps j y → i = j ∧ e = y.
Proof.
  intros (Hi & Hm & Hlo) (Hj & Hm' & Hlo').
  assert (i = j) as ->.
  { destruct (Nat.lt_trichotomy i j) as [Hlt|[->|Hgt]]; [|done|].
    - by destruct (Hlo' i e Hlt Hi).
    - by destruct (Hlo j y Hgt Hj). }
  split; [done|congruence].
Qed.

Lemma find_entry_hit (t : TLB) (vpn : Z) (ps : PageSize) (i : nat)
  (e : TLBEntry) :
  wf t → first_match t vpn ps i e →
  _find_entry t vpn ps = Ok (Some (Z.of_nat i)).
Proof.
  intros Hwf Hfm.
  destruct (find_entry_spec t vpn ps Hwf) as [(j & y & -> & Hj)|[_ Hno]].
  - by destruct (first_match_unique _ _ _ _ _ _ _ Hfm Hj) as [-> _].
  - destruct Hfm as (Hi & Hm & _). by destruct (Hno i e Hi).
Qed.

Lemma find_entry_miss (t : TLB) (vpn : Z) (ps : PageSize) :
  wf t → no_match t vpn ps → _find_entry t vpn ps = Ok None.
Proof.
  intros Hwf Hno.
  destruct (find_entry_spec t vpn ps Hwf)
    as [(j & y & _ & Hj & Hm & _)|[-> _]]; [|done].
  by destruct (Hno j y Hj).
Qed.

Lemma tlb_find_invalid_loop_scan (t : TLB) (idxs : list Z) :
  _find_invalid_loop t idxs = scan_invalid valid (py_index (entries t)) idxs.
Proof.
  induction idxs as [|i idxs IH]; simpl; [done|].
  destruct (py_index (entries t) i); simpl; [|done]. by rewrite IH.
Qed.

Lemma tlb_find_lru_loop_scan (t : TLB) (idxs : list Z) (b m : Z) :
  _find_lru_loop t idxs b m
  = scan_min lru_counter (py_index (entries t)) idxs b m.
Proof.
  revert b m. induction idxs as [|i idxs IH]; intros b m; simpl; [done|].
  destruct (py_index (entries t) i); simpl; [|done]. by rewrite !IH.
Qed.

(** [_find_victim] returns, on a TLB with at least one entry, the LRU
    victim among all entries. *)
Lemma tlb_find_victim_spec (t : TLB) :
  wf t → 0 < num_entries t →
  ∃ i, _find_victim t = Ok (Z.of_nat i)
       ∧ lru_victim valid lru_counter (entries t) i
       ∧ (i < length (entries t))%nat.
Proof.
  intros Hwf Hpos.
  assert (_find_victim t
          = scan_victim valid lru_counter (py_index (entries t))
              (num_entries t)) as ->.
  { unfold _find_victim, scan_victim. rewrite tlb_find_invalid_loop_scan.
    destruct (scan_invalid _ _ _) as [[i|]|]; simpl; try done.
    destruct (py_index (entries t) 0); simpl; [|done].
    apply tlb_find_lru_loop_scan. }
  rewrite Hwf. apply scan_victim_spec.
  - intros i x Hx. by rewrite py_index_nat, Hx.
  - unfold wf in Hwf. lia.
Qed.

(** The common core of the two statements about a write that hits a
    read-only entry: the early [return None]. *)
Lemma translate_write_protected (t : TLB) (va : Z) (ps : PageSize)
  (verbose : bool) (i : nat) (e : TLBEntry) :
  wf t →
  first_match t (_extract_vpn va ps) ps i e →
  writable e = false →
  translate t va ps true verbose = Ok (None, with_hits t (hits t + 1), []).
Proof.
  intros Hwf Hfm Hw. unfold translate.
  rewrite (find_entry_hit t _ ps i e Hwf Hfm). simpl.
  destruct Hfm as (Hi & _). rewrite py_index_nat, Hi. simpl.
  by rewrite Hw.
Qed.

(** A miss without a mapping: the page fault. *)
Lemma translate_page_fault (t : TLB) (va : Z) (ps : PageSize)
  (is_write verbose : bool) :
  wf t →
  no_match t (_extract_vpn va ps) ps →
  page_table t !! (_extract_vpn va ps, ps) = None →
  translate t va ps is_write verbose
  = Ok (None, with_misses t (misses t + 1),
        [EvPageWalk (_extract_vpn va ps) ps]).
Proof.
  intros Hwf Hno Hpt. unfold translate.
  rewrite (find_entry_miss t _ ps Hwf Hno). simpl.
  unfold _page_walk. simpl. by rewrite Hpt.
Qed.

(** *** A write that hits a read-only entry *)

(** C9. A [translate] with [is_write] true whose (vpn, page_size) is
    matched by a valid entry that is not writable counts a hit and not
    a miss, and leaves every TLB entry as it was: no [lru_counter],
    [accessed] or [dirty] update, nothing installed, nothing evicted;
    the LRU counter and the page table are unchanged too. *)
Theorem translate_write_protected_state (t : TLB) (va : Z) (ps : PageSize)
  (verbose : bool) (i : nat) (e : TLBEntry) :
  wf t →
  first_match t (_extract_vpn va ps) ps i e →
  writable e = false →
  ∃ r t' evs,
    translate t va ps true verbose = Ok (r, t', evs)
    ∧ hits t' = hits t + 1
    ∧ misses t' = misses t
    ∧ entries t' = entries t
    ∧ global_lru_counter t' = global_lru_counter t
    ∧ page_table t' = page_table t.
Proof.
  intros Hwf Hfm Hw.
  rewrite (translate_write_protected t va ps verbose i e Hwf Hfm Hw).
  by eexists _, _, _.
Qed.

Lemma translate_write_protected_state_witness :
  ∃ r t' evs,
    translate read_only_tlb 4096 KB_4 true false = Ok (r, t', evs)
    ∧ hits t' = hits read_only_tlb + 1
    ∧ misses t' = misses read_only_tlb
    ∧ entries t' = entries read_only_tlb
    ∧ global_lru_counter t' = global_lru_counter read_only_tlb
    ∧ page_table t' = page_table read_only_tlb.
Proof.
  apply (translate_write_protected_state read_only_tlb 4096 KB_4 false 0
           (mkEntry true 1 2 KB_4 true false false false false false 0)).
  - reflexivity.
  - split; [reflexivity|]. split; [by vm_compute|]. intros j y Hj. lia.
  - reflexivity.
Defined.




(** *** A miss whose page walk succeeds *)

(** A miss whose page walk finds [ppn]: the LRU victim is overwritten
    and the composed address returned. *)
Lemma translate_miss (t : TLB) (va : Z) (ps : PageSize)
  (is_write verbose : bool) (ppn : Z) :
  wf t → 0 < num_entries t →
  no_match t (_extract_vpn va ps) ps →
  _page_walk t (_extract_vpn va ps) ps = Some ppn →
  ∃ victim t',
    translate t va ps is_write verbose
    = Ok (Some (_construct_pa ppn (_extract_offset va ps) ps), t',
          [EvPageWalk (_extract_vpn va ps) ps])
    ∧ lru_victim valid lru_counter (entries t) victim
    ∧ entries t' =
      <[victim := mkEntry true (_extract_vpn va ps) ppn ps
                    true true false is_write true false
                    (global_lru_counter t + 1)]> (entries t)
    ∧ global_lru_counter t' = global_lru_counter t + 1
    ∧ misses t' = misses t + 1 ∧ hits t' = hits t.
Proof.
  intros Hwf Hpos Hno Hpt. unfold translate.
  rewrite (find_entry_miss t _ ps Hwf Hno). simpl.
  unfold _page_walk in *. simpl. rewrite Hpt.
  set (t1 := with_misses t (misses t + 1)).
  destruct (tlb_find_victim_spec t1 Hwf Hpos) as (i & Hfv & Hvic & Hlt).
  rewrite Hfv. simpl.
  destruct (lookup_lt_is_Some_2 _ _ Hlt) as [old Hold].
  rewrite py_index_nat. simpl in Hold. rewrite Hold. simpl.
  eexists i, _. split; [done|]. split; [done|]. simpl.
  rewrite Nat2Z.id. split; [|done].
  rewrite (alter_as_insert _ _ i
             (new_entry (_extract_vpn va ps) ppn ps is_write)).
  - by rewrite list_insert_insert_eq.
  - by rewrite list_lookup_insert_eq.
Qed.

(** C1 fails in the code.  Page 1 is mapped with [readable=True,
    writable=False, executable=False] on a one-entry TLB.  The
    [translate] that misses walks the page table and returns the
    composed address 0x2234, but the entry it installs is writable:
    [install_mapping] keeps the (vpn, page size) to ppn pair only and
    drops the three permissions it was given, so the installed entry
    carries the constants of [translate] instead.  A write to the page
    then hits and succeeds where the mapping forbids it. *)
Theorem installed_entry_ignores_mapping_permissions :
  ∃ t' e t'',
    translate
      (install_mapping (__init__ 1 32) 4096 8192 KB_4 true false false)
      4660 KB_4 false false
    = Ok (Some 8756, t', [EvPageWalk 1 KB_4])
    ∧ entries t' !! 0%nat = Some e
    ∧ (readable e, writable e, executable e) ≠ (true, false, false)
    ∧ writable e = true
    ∧ translate t' 4660 KB_4 true false = Ok (Some 8756, t'', []).
Proof.
  eexists _, _, _. split; [reflexivity|]. split; [reflexivity|].
  split; [done|]. split; [reflexivity|]. reflexivity.
Qed.

(** *** Address fields *)

(** X10. Splitting a virtual address into page number and offset and
    composing them again gives the address back, for every page size
    and every integer address. *)
Theorem construct_pa_extract (va : Z) (ps : PageSize) :
  _construct_pa (_extract_vpn va ps) (_extract_offset va ps) ps = va.
Proof.
  unfold _construct_pa, _extract_vpn, _extract_offset.
  rewrite shiftl_1_ones by by destruct ps.
  apply split_recompose. by destruct ps.
Qed.

(** *** Every outcome of [translate] *)

Lemma translate_effect (t : TLB) (va : Z) (ps : PageSize) (w v : bool)
  (res : option Z) (t' : TLB) (evs : list Event) :
  wf t → translate t va ps w v = Ok (res, t', evs) →
  let vpn := _extract_vpn va ps in
  num_entries t' = num_entries t ∧ address_bits t' = address_bits t
  ∧ page_table t' = page_table t
  ∧ ((∃ i e, first_match t vpn ps i e ∧ evs = []
             ∧ hits t' = hits t + 1 ∧ misses t' = misses t
             ∧ ((w = true ∧ writable e = false ∧ res = None
                 ∧ entries t' = entries t
                 ∧ global_lru_counter t' = global_lru_counter t)
                ∨ ((w = false ∨ writable e = true)
                   ∧ res = Some (_construct_pa (ppn e)
                                   (_extract_offset va ps) ps)
                   ∧ entries t' =
                     <[i := touched_entry e w (global_lru_counter t + 1)]>
                       (entries t)
                   ∧ global_lru_counter t' = global_lru_counter t + 1)))
     ∨ (no_match t vpn ps ∧ evs = [EvPageWalk vpn ps]
        ∧ hits t' = hits t ∧ misses t' = misses t + 1
        ∧ ((page_table t !! (vpn, ps) = None ∧ res = None
            ∧ entries t' = entries t
            ∧ global_lru_counter t' = global_lru_counter t)
           ∨ (∃ ppn victim,
                page_table t !! (vpn, ps) = Some ppn
                ∧ res = Some (_construct_pa ppn (_extract_offset va ps) ps)
                ∧ lru_victim valid lru_counter (entries t) victim
                ∧ (victim < length (entries t))%nat
                ∧ entries t' =
                  <[victim := mkEntry true vpn ppn ps true true false w
                                true false (global_lru_counter t + 1)]>
                    (entries t)
                ∧ global_lru_counter t' = global_lru_counter t + 1)))).
Proof.
  intros Hwf Htr. cbv zeta.
  destruct (find_entry_spec t (_extract_vpn va ps) ps Hwf)
    as [(i & e & Hfe & Hfm)|[Hfe Hno]].
  - unfold translate in Htr. rewrite Hfe, result_bind_Ok in Htr.
    pose proof Hfm as (Hi & _). rewrite py_index_nat in Htr.
    cbn [entries with_hits] in Htr. rewrite Hi in Htr.
    cbn [from_option default id] in Htr. rewrite result_bind_Ok in Htr.
    destruct (w && negb (writable e)) eqn:Hperm.
    + injection Htr as <- <- <-. do 3 (split; [done|]).
      left. exists i, e. do 4 (split; [done|]). left.
      apply andb_true_iff in Hperm as [-> Hw].
      by apply negb_true_iff in Hw.
    + injection Htr as <- <- <-. do 3 (split; [done|]).
      left. exists i, e. do 4 (split; [done|]). right.
      split; [destruct w, (writable e); auto; discriminate Hperm|].
      split; [done|]. split; [|done].
      unfold update_entry, _update_lru, update_entry.
      cbn [entries with_entries with_global_lru_counter with_hits
           global_lru_counter]. rewrite Nat2Z.id, list_alter_alter_eq.
      by rewrite (alter_as_insert _ _ i e).
  - assert (0 <= num_entries t) as Hn0 by (unfold wf in Hwf; lia).
    unfold translate in Htr. rewrite Hfe, result_bind_Ok in Htr.
    unfold _page_walk in Htr. cbn [page_table with_misses] in Htr.
    destruct (page_table t !! (_extract_vpn va ps, ps)) as [ppn|] eqn:Hpt.
    + destruct (decide (0 < num_entries t)) as [Hpos|Hzero].
      * destruct (translate_miss t va ps w v ppn Hwf Hpos Hno Hpt)
          as (victim & t2 & Htr' & Hvic & He & Hg & Hm & Hh).
        unfold translate in Htr'. rewrite Hfe, result_bind_Ok in Htr'.
        unfold _page_walk in Htr'. cbn [page_table with_misses] in Htr'.
        rewrite Hpt in Htr'. rewrite Htr' in Htr.
        injection Htr as <- <- <-.
        assert ((victim < length (entries t))%nat) as Hlt.
        { destruct Hvic as [(x & Hx & _)|[_ (x & Hx & _)]];
            by eapply lookup_lt_Some. }
        assert (num_entries t2 = num_entries t
                ∧ address_bits t2 = address_bits t
                ∧ page_table t2 = page_table t) as (? & ? & ?).
        { unfold translate in Htr'. clear -Htr'.
          destruct (_find_victim _) as [vi|]; [|done].
          rewrite result_bind_Ok in Htr'.
          destruct (py_index _ vi) as [x|]; [|done].
          rewrite result_bind_Ok in Htr'. by injection Htr' as <-. }
        do 3 (split; [done|]). right. do 4 (split; [done|]). right.
        by exists ppn, victim.
      * exfalso. assert (num_entries t = 0) as Hz by lia.
        unfold _find_victim in Htr. cbn [num_entries with_misses] in Htr.
        rewrite Hz in Htr. cbn in Htr.
        assert (entries t = []) as He.
        { apply nil_length_inv. unfold wf in Hwf. lia. }
        rewrite He in Htr. done.
    + injection Htr as <- <- <-. do 3 (split; [done|]).
      right. do 4 (split; [done|]). by left.
Qed.

Lemma translate_wf (t : TLB) (va : Z) (ps : PageSize) (w v : bool)
  (res : option Z) (t' : TLB) (evs : list Event) :
  wf t → translate t va ps w v = Ok (res, t', evs) → wf t'.
Proof.
  intros Hwf Htr.
  destruct (translate_effect t va ps w v res t' evs Hwf Htr)
    as (Hn & _ & _ & Hcase).
  unfold wf in *. rewrite Hn, Hwf. f_equal.
  destruct Hcase
    as [(i & e & _ & _ & _ & _
         & [(_ & _ & _ & -> & _)|(_ & _ & -> & _)])
       |(_ & _ & _ & _
         & [(_ & _ & -> & _)|(p & vi & _ & _ & _ & _ & -> & _)])];
    by rewrite ?length_insert.
Qed.

(** *** Hits *)

Lemma translate_hit (t : TLB) (va : Z) (ps : PageSize) (w v : bool)
  (i : nat) (e : TLBEntry) :
  wf t → first_match t (_extract_vpn va ps) ps i e →
  w = false ∨ writable e = true →
  ∃ t',
    translate t va ps w v
    = Ok (Some (_construct_pa (ppn e) (_extract_offset va ps) ps), t', [])
    ∧ entries t' =
      <[i := touched_entry e w (global_lru_counter t + 1)]> (entries t)
    ∧ global_lru_counter t' = global_lru_counter t + 1
    ∧ hits t' = hits t + 1 ∧ misses t' = misses t
    ∧ page_table t' = page_table t ∧ num_entries t' = num_entries t.
Proof.
  intros Hwf Hfm Hperm. unfold translate.
  rewrite (find_entry_hit t _ ps i e Hwf Hfm), result_bind_Ok.
  pose proof Hfm as (Hi & _). rewrite py_index_nat.
  cbn [entries with_hits]. rewrite Hi.
  cbn [from_option default id]. rewrite result_bind_Ok.
  assert (w && negb (writable e) = false) as ->.
  { destruct Hperm as [-> | ->]; [done|apply andb_false_r]. }
  eexists. split; [done|]. split; [|done].
  unfold update_entry, _update_lru, update_entry.
  cbn [entries with_entries with_global_lru_counter with_hits
       global_lru_counter]. rewrite Nat2Z.id, list_alter_alter_eq.
  by rewrite (alter_as_insert _ _ i e).
Qed.

(** X11. A permitted hit (a read, or a write to a writable entry)
    returns [(ppn << offset_bits) | offset] from the first matching
    entry without a page walk, whatever the page table holds; it counts
    one hit, and changes nothing in the TLB but that entry's
    [lru_counter] (the advanced clock), [accessed] (set) and [dirty]
    (set by a write). *)
Theorem translate_hit_permitted (t : TLB) (va : Z) (ps : PageSize)
  (w v : bool) (i : nat) (e : TLBEntry) :
  wf t → first_match t (_extract_vpn va ps) ps i e →
  w = false ∨ writable e = true →
  ∃ t',
    (∀ pt, ∃ t'', translate (with_page_table t pt) va ps w v
      = Ok (Some (Z.lor (Z.shiftl (ppn e) (offset_bits ps))
                        (_extract_offset va ps)), t'', [])
      ∧ entries t'' = entries t')
    ∧ translate t va ps w v
      = Ok (Some (Z.lor (Z.shiftl (ppn e) (offset_bits ps))
                        (_extract_offset va ps)), t', [])
    ∧ entries t' =
      <[i := touched_entry e w (global_lru_counter t + 1)]> (entries t)
    ∧ global_lru_counter t' = global_lru_counter t + 1
    ∧ hits t' = hits t + 1 ∧ misses t' = misses t
    ∧ page_table t' = page_table t.
Proof.
  intros Hwf Hfm Hperm.
  destruct (translate_hit t va ps w v i e Hwf Hfm Hperm)
    as (t' & Htr & He & Hg & Hh & Hm & Hpt & _).
  exists t'. split; [|done].
  intros pt.
  destruct (translate_hit (with_page_table t pt) va ps w v i e Hwf Hfm Hperm)
    as (t'' & Htr' & He' & _).
  exists t''. split; [done|]. by rewrite He, He'.
Qed.

Lemma translate_hit_permitted_witness :
  ∃ t', translate read_only_tlb 0x1234 KB_4 false false
        = Ok (Some 0x2234, t', [])
      ∧ entries t'
        = [mkEntry true 1 2 KB_4 true false false false true false 1]
      ∧ hits t' = 1 ∧ misses t' = 0.
Proof.
  destruct (translate_hit_permitted read_only_tlb 0x1234 KB_4 false false 0
              (mkEntry true 1 2 KB_4 true false false false false false 0))
    as (t' & _ & Htr & He & _ & Hh & Hm & _).
  - reflexivity.
  - split; [reflexivity|]. split; [done|]. intros j y Hj. lia.
  - by left.
  - by exists t'.
Defined.

Lemma first_match_insert (t t' : TLB) (vpn : Z) (ps : PageSize) (i : nat)
  (e : TLBEntry) :
  (i < length (entries t))%nat →
  matches vpn ps e →
  (∀ j y, (j < i)%nat → entries t !! j = Some y → ¬ matches vpn ps y) →
  entries t' = <[i := e]> (entries t) →
  first_match t' vpn ps i e.
Proof.
  intros Hlt Hm Hlo He. unfold first_match. rewrite He.
  split; [by apply list_lookup_insert_eq|]. split; [done|].
  intros j y Hj. rewrite list_lookup_insert_ne by lia. by apply Hlo.
Qed.

(** X12. After a translation that returned an address, a translation
    of any address of the same page (same page size; a read, or a
    write if the first was one) hits: it returns the same frame with
    the new offset, walks no page table and counts one hit. *)
Theorem translate_again_hits (t : TLB) (va va' : Z) (ps : PageSize)
  (w v w' v' : bool) (pa : Z) (t' : TLB) (evs : list Event) :
  wf t → translate t va ps w v = Ok (Some pa, t', evs) →
  _extract_vpn va' ps = _extract_vpn va ps →
  (w' = true → w = true) →
  ∃ frame t'',
    pa = _construct_pa frame (_extract_offset va ps) ps
    ∧ translate t' va' ps w' v'
      = Ok (Some (_construct_pa frame (_extract_offset va' ps) ps), t'', [])
    ∧ hits t'' = hits t' + 1 ∧ misses t'' = misses t'.
Proof.
  intros Hwf Htr Hvpn Hw.
  pose proof (translate_wf t va ps w v _ t' evs Hwf Htr) as Hwf'.
  destruct (translate_effect t va ps w v _ t' evs Hwf Htr)
    as (_ & _ & _ & Hcase). cbv zeta in Hcase.
  assert (∃ i e, first_match t' (_extract_vpn va ps) ps i e
                 ∧ (w = true → writable e = true)
                 ∧ pa = _construct_pa (ppn e) (_extract_offset va ps) ps)
    as (i & e & Hfm & Hwr & Hpa).
  { destruct Hcase
      as [(i & e & (Hi & Hm & Hlo) & _ & _ & _
           & [(_ & _ & ? & _)|(Hperm & [= ->] & He & _)])
         |(Hno & _ & _ & _
           & [(_ & ? & _)|(p & vi & _ & [= ->] & _ & Hlt & He & _)])];
      try done.
    - exists i, (touched_entry e w (global_lru_counter t + 1)).
      split; [|split; [|done]].
      + apply (first_match_insert t); try done.
        by eapply lookup_lt_Some.
      + intros ->. by destruct Hperm.
    - exists vi, (mkEntry true (_extract_vpn va ps) p ps true true false w
                    true false (global_lru_counter t + 1)).
      split; [|done].
      apply (first_match_insert t); try done.
      intros j y _. apply Hno. }
  rewrite <- Hvpn in Hfm.
  destruct (translate_hit t' va' ps w' v' i e Hwf' Hfm)
    as (t'' & Htr' & _ & _ & Hh & Hm & _).
  { destruct w'; [right|by left]. by apply Hwr, Hw. }
  by exists (ppn e), t''.
Qed.

Lemma translate_again_hits_witness :
  ∃ t' t'',
    translate (install_mapping (__init__ 2 32) 0x1000 0x5000 KB_4
                 true true false) 0x1234 KB_4 true false
    = Ok (Some 0x5234, t', [EvPageWalk 1 KB_4])
    ∧ translate t' 0x1FFF KB_4 true false = Ok (Some 0x5FFF, t'', [])
    ∧ hits t'' = hits t' + 1.
Proof.
  pose (t := install_mapping (__init__ 2 32) 0x1000 0x5000 KB_4
               true true false).
  destruct (translate t 0x1234 KB_4 true false) as [[[r t'] evs]|] eqn:Htr;
    [|discriminate Htr].
  assert (r = Some 0x5234 ∧ evs = [EvPageWalk 1 KB_4]) as [-> ->].
  { vm_compute in Htr. by injection Htr as <- _ <-. }
  destruct (translate_again_hits t 0x1234 0x1FFF KB_4 true false true false
              0x5234 t' [EvPageWalk 1 KB_4])
    as (frame & t'' & Hpa & Htr' & Hh & _);
    [reflexivity|exact Htr|reflexivity|done|].
  exists t', t''. split; [done|]. split; [|done].
  assert (frame = 5) as ->.
  { assert (Z.shiftr 0x5234 12 = Z.shiftr (_construct_pa frame 0x234 KB_4) 12)
      as Hs by by rewrite Hpa.
    unfold _construct_pa, offset_bits in Hs.
    rewrite Z.shiftr_lor, Z.shiftr_shiftl_l, Z.sub_diag, Z.shiftl_0_r in Hs
      by lia.
    change (Z.shiftr 564 12) with 0 in Hs. rewrite Z.lor_0_r in Hs.
    by rewrite <- Hs. }
  exact Htr'.
Defined.

(** *** The TLBs a program can build *)

Lemma tlb_reachable_inv (t : TLB) :
  reachable t →
  wf t ∧ ∀ i e, entries t !! i = Some e → default_permissions e.
Proof.
  induction 1 as [n ab Hn|t va pa ps r w x _ IH
                 |t va ps w v res t' evs _ [Hwf IH] Htr
                 |t va ps b t' _ [Hwf IH] Hinv|t _ [Hwf IH]].
  - split.
    + unfold wf, __init__. cbn [num_entries entries].
      rewrite length_replicate. lia.
    + intros i e Hi. by apply lookup_replicate in Hi as [-> _].
  - done.
  - split; [by apply (translate_wf t va ps w v res t' evs)|].
    destruct (translate_effect t va ps w v res t' evs Hwf Htr)
      as (_ & _ & _ & Hcase). cbv zeta in Hcase.
    intros j y.
    destruct Hcase
      as [(i & e & (Hi & _) & _ & _ & _
           & [(_ & _ & _ & -> & _)|(_ & _ & -> & _)])
         |(_ & _ & _ & _
           & [(_ & _ & -> & _)|(p & vi & _ & _ & _ & Hlt & -> & _)])];
      try apply IH.
    + destruct (decide (i = j)) as [<-|Hne].
      * rewrite list_lookup_insert_eq by by eapply lookup_lt_Some.
        intros [= <-]. apply (IH i e Hi).
      * rewrite list_lookup_insert_ne by done. apply IH.
    + destruct (decide (vi = j)) as [<-|Hne].
      * rewrite list_lookup_insert_eq by done. by intros [= <-].
      * rewrite list_lookup_insert_ne by done. apply IH.
  - unfold invalidate in Hinv.
    apply rbind_Ok in Hinv as ([i|] & Hfe & Hinv);
      injection Hinv as <- <-; [|done].
    split.
    + unfold wf, update_entry in *. cbn [num_entries entries with_entries].
      by rewrite length_alter.
    + intros j y. unfold update_entry. cbn [entries with_entries].
      destruct (decide (Z.to_nat i = j)) as [<-|Hne].
      * rewrite list_lookup_alter_eq.
        destruct (entries t !! Z.to_nat i) as [e|] eqn:He; [|done].
        intros [= <-]. apply (IH _ e He).
      * rewrite list_lookup_alter_ne by done. apply IH.
  - split.
    + unfold wf, flush in *. cbn [num_entries entries with_entries].
      by rewrite length_fmap.
    + intros j y. unfold flush. cbn [entries with_entries].
      rewrite list_lookup_fmap.
      destruct (entries t !! j) as [e|] eqn:He; [|done].
      intros [= <-]. specialize (IH j e He). by destruct (global_page e).
Qed.

Lemma unique_entries_shrink (t t' : TLB) :
  (∀ j y', entries t' !! j = Some y' → valid y' = true →
           ∃ y, entries t !! j = Some y ∧ valid y = true
                ∧ vpn y = vpn y' ∧ page_size y = page_size y') →
  unique_entries t → unique_entries t'.
Proof.
  intros Hsub Hu i j x' y' Hi Hj Hvx Hvy Hvpn Hps.
  destruct (Hsub i x' Hi Hvx) as (x & Hx & Hvx' & Hx1 & Hx2).
  destruct (Hsub j y' Hj Hvy) as (y & Hy & Hvy' & Hy1 & Hy2).
  apply (Hu i j x y); congruence.
Qed.

(** X13. In every TLB built through the public methods, no two valid
    entries translate the same (virtual page, page size), and every
    entry carries the permissions it was created with: readable,
    writable, not executable, not global. *)
Theorem reachable_unique_entries (t : TLB) :
  reachable t →
  unique_entries t
  ∧ ∀ i e, entries t !! i = Some e →
           readable e = true ∧ writable e = true ∧ executable e = false
           ∧ global_page e = false.
Proof.
  intros Hr. split; [|apply (tlb_reachable_inv t Hr)].
  induction Hr as [n ab Hn|t va pa ps r w x _ IH
                  |t va ps w v res t' evs Hr IH Htr
                  |t va ps b t' Hr IH Hinv|t Hr IH].
  - intros i j x y Hi _ Hv.
    apply lookup_replicate in Hi as [-> _]. done.
  - done.
  - destruct (tlb_reachable_inv t Hr) as [Hwf _].
    destruct (translate_effect t va ps w v res t' evs Hwf Htr)
      as (_ & _ & _ & Hcase). cbv zeta in Hcase.
    destruct Hcase
      as [(i & e & (Hi & _) & _ & _ & _
           & [(_ & _ & _ & He & _)|(_ & _ & He & _)])
         |(Hno & _ & _ & _
           & [(_ & _ & He & _)|(p & vi & _ & _ & _ & Hlt & He & _)])].
    + apply (unique_entries_shrink t); [|done]. rewrite He. eauto.
    + apply (unique_entries_shrink t); [|done]. rewrite He. intros j y'.
      destruct (decide (i = j)) as [<-|Hne].
      * rewrite list_lookup_insert_eq by by eapply lookup_lt_Some.
        intros [= <-] Hv. by exists e.
      * rewrite list_lookup_insert_ne by done. eauto.
    + apply (unique_entries_shrink t); [|done]. rewrite He. eauto.
    + intros i j x y. rewrite He.
      destruct (decide (vi = i)) as [<-|Hi], (decide (vi = j)) as [<-|Hj];
        [done|..].
      * rewrite list_lookup_insert_eq, list_lookup_insert_ne by done.
        intros [= <-] Hy _ Hvy Hvpn Hps. by destruct (Hno j y Hy).
      * rewrite list_lookup_insert_eq, list_lookup_insert_ne by done.
        intros Hx [= <-] Hvx _ Hvpn Hps. by destruct (Hno i x Hx).
      * rewrite !list_lookup_insert_ne by done. apply IH.
  - unfold invalidate in Hinv.
    apply rbind_Ok in Hinv as ([i|] & Hfe & Hinv);
      injection Hinv as <- <-; [|done].
    apply (unique_entries_shrink t); [|done].
    unfold update_entry. cbn [entries with_entries]. intros j y'.
    destruct (decide (Z.to_nat i = j)) as [<-|Hne].
    + rewrite list_lookup_alter_eq.
      destruct (entries t !! Z.to_nat i) as [e|]; [|done].
      by intros [= <-].
    + rewrite list_lookup_alter_ne by done. eauto.
  - apply (unique_entries_shrink t); [|done].
    unfold flush. cbn [entries with_entries]. intros j y'.
    rewrite list_lookup_fmap.
    destruct (entries t !! j) as [e|]; [|done].
    intros [= <-]. destruct (global_page e); [eauto|done].
Qed.

Lemma reachable_unique_entries_witness :
  ∃ t', translate (install_mapping (__init__ 2 32) 0x1000 0x5000 KB_4
                     true false false) 0x1234 KB_4 false false
        = Ok (Some 0x5234, t', [EvPageWalk 1 KB_4])
      ∧ unique_entries t'
      ∧ ∀ i e, entries t' !! i = Some e → writable e = true.
Proof.
  pose (t := install_mapping (__init__ 2 32) 0x1000 0x5000 KB_4
               true false false).
  destruct (translate t 0x1234 KB_4 false false) as [[[r t'] evs]|] eqn:Htr;
    [|discriminate Htr].
  destruct (reachable_unique_entries t') as [Hu Hp].
  - apply (reachable_translate t 0x1234 KB_4 false false r t' evs);
      [|exact Htr].
    apply reachable_install. by apply reachable_init.
  - exists t'. split; [|split; [done|]].
    + vm_compute in Htr. by injection Htr as <- <- <-.
    + intros i e Hi. by destruct (Hp i e Hi) as (_ & ? & _).
Defined.

(** X14. Through the public methods the write-protection branch of
    [translate] is never taken: on a reachable TLB a translation that
    returns [None] is always a page fault, a miss whose page walk found
    no mapping; it counts a miss and leaves the entries as they were. *)
Theorem reachable_none_is_page_fault (t : TLB) (va : Z) (ps : PageSize)
  (w v : bool) (t' : TLB) (evs : list Event) :
  reachable t → translate t va ps w v = Ok (None, t', evs) →
  page_table t !! (_extract_vpn va ps, ps) = None
  ∧ no_match t (_extract_vpn va ps) ps
  ∧ evs = [EvPageWalk (_extract_vpn va ps) ps]
  ∧ misses t' = misses t + 1 ∧ hits t' = hits t
  ∧ entries t' = entries t.
Proof.
  intros Hr Htr. destruct (tlb_reachable_inv t Hr) as [Hwf Hperm].
  destruct (translate_effect t va ps w v None t' evs Hwf Htr)
    as (_ & _ & _ & Hcase). cbv zeta in Hcase.
  destruct Hcase
    as [(i & e & (Hi & _) & _ & _ & _
         & [(_ & Hw & _)|(_ & ? & _)])
       |(Hno & -> & Hh & Hm
         & [(Hpt & _ & He & _)|(p & vi & _ & ? & _)])];
    try done.
  destruct (Hperm i e Hi) as (_ & Hw' & _). congruence.
Qed.

Lemma reachable_none_is_page_fault_witness :
  ∃ t', translate (__init__ 2 32) 0x1234 KB_4 true false
        = Ok (None, t', [EvPageWalk 1 KB_4])
      ∧ misses t' = 1 ∧ hits t' = 0.
Proof.
  destruct (translate (__init__ 2 32) 0x1234 KB_4 true false)
    as [[[r t'] evs]|] eqn:Htr; [|discriminate Htr].
  assert (r = None) as ->.
  { vm_compute in Htr. by injection Htr as <- _ _. }
  destruct (reachable_none_is_page_fault (__init__ 2 32) 0x1234 KB_4
              true false t' evs) as (_ & _ & -> & Hm & Hh & _);
    [by apply reachable_init|exact Htr|].
  by exists t'.
Defined.

(** *** [invalidate], [flush] and [get_reach] *)

Lemma get_reach_loop_acc (es : list TLBEntry) (acc : Z) :
  get_reach_loop es acc = acc + get_reach_loop es 0.
Proof.
  revert acc. induction es as [|e es IH]; intros acc; simpl; [lia|].
  rewrite (IH (if valid e then acc + _ else acc)), (IH (if valid e then _ else 0)).
  destruct (valid e); lia.
Qed.

Lemma get_reach_loop_cons (e : TLBEntry) (es : list TLBEntry) :
  get_reach_loop (e :: es) 0 = entry_reach e + get_reach_loop es 0.
Proof.
  cbn [get_reach_loop]. rewrite get_reach_loop_acc. unfold entry_reach.
  by destruct (valid e).
Qed.

Lemma value_range (ps : PageSize) : 4096 <= value ps <= 1073741824.
Proof. destruct ps; simpl; lia. Qed.

Lemma get_reach_loop_bounds (es : list TLBEntry) :
  4096 * Z.of_nat (length (filter (λ e, valid e = true) es))
  <= get_reach_loop es 0
  <= 1073741824 * Z.of_nat (length (filter (λ e, valid e = true) es)).
Proof.
  induction es as [|e es IH]; [simpl; lia|].
  rewrite get_reach_loop_cons, filter_cons. unfold entry_reach.
  pose proof (value_range (page_size e)).
  destruct (valid e) eqn:Hv.
  - rewrite decide_True by done. cbn [length]. lia.
  - rewrite decide_False by done. lia.
Qed.

Lemma get_reach_loop_zero (es : list TLBEntry) :
  get_reach_loop es 0 = 0 ↔ ∀ i e, es !! i = Some e → valid e = false.
Proof.
  induction es as [|e es IH]; [done|].
  rewrite get_reach_loop_cons. unfold entry_reach.
  pose proof (get_reach_loop_bounds es) as Hes.
  pose proof (value_range (page_size e)).
  split.
  - intros H0 [|i] y; simpl.
    + intros [= <-]. destruct (valid e); [lia|done].
    + apply IH. destruct (valid e); lia.
  - intros Hall. rewrite (Hall 0%nat e eq_refl).
    rewrite (proj2 IH); [done|]. intros i y. apply (Hall (S i)).
Qed.

(** X15. [get_reach] adds the page size of every valid entry: it lies
    between 4 KiB and 1 GiB times the number of valid entries, and is
    zero exactly when no entry is valid; a new TLB has reach zero. *)
Theorem get_reach_bounds (t : TLB) :
  let n := Z.of_nat (length (filter (λ e, valid e = true) (entries t))) in
  4096 * n <= get_reach t <= 1073741824 * n
  ∧ (get_reach t = 0 ↔ ∀ i e, entries t !! i = Some e → valid e = false)
  ∧ ∀ k ab, get_reach (__init__ k ab) = 0.
Proof.
  cbv zeta. unfold get_reach.
  split; [apply get_reach_loop_bounds|].
  split; [apply get_reach_loop_zero|].
  intros k ab. apply get_reach_loop_zero. intros i e Hi.
  cbn [entries __init__] in Hi.
  by apply lookup_replicate in Hi as [-> _].
Qed.

(** X16. [flush] clears the valid bit of every entry that is not
    global and touches nothing else.  A global entry is left as it is,
    valid bit included; a non-global entry keeps every field but
    [valid], which becomes false; the number of entries, the counters,
    the LRU clock and the page table stay.  So an entry still valid
    afterwards is a global one, unchanged.  On a TLB built through the
    public methods no entry is global, so a flush leaves no valid entry
    and reach zero. *)
Theorem flush_effect (t : TLB) :
  length (entries (flush t)) = length (entries t)
  ∧ num_entries (flush t) = num_entries t
  ∧ address_bits (flush t) = address_bits t
  ∧ hits (flush t) = hits t ∧ misses (flush t) = misses t
  ∧ global_lru_counter (flush t) = global_lru_counter t
  ∧ page_table (flush t) = page_table t
  ∧ (∀ i e, entries t !! i = Some e → global_page e = true →
            entries (flush t) !! i = Some e)
  ∧ (∀ i e, entries t !! i = Some e → global_page e = false →
            entries (flush t) !! i
            = Some (mkEntry false (vpn e) (ppn e) (page_size e)
                      (readable e) (writable e) (executable e) (dirty e)
                      (accessed e) (global_page e) (lru_counter e)))
  ∧ (∀ i e', entries (flush t) !! i = Some e' → valid e' = true →
             global_page e' = true ∧ entries t !! i = Some e')
  ∧ (reachable t →
     (∀ i e', entries (flush t) !! i = Some e' → valid e' = false)
     ∧ get_reach (flush t) = 0).
Proof.
  split; [unfold flush; cbn [entries with_entries]; apply length_fmap|].
  do 6 (split; [done|]).
  split.
  { intros i e He Hgp. unfold flush. cbn [entries with_entries].
    rewrite list_lookup_fmap, He. cbn [fmap option_fmap option_map].
    unfold set_valid. by rewrite Hgp. }
  split.
  { intros i e He Hgp. unfold flush. cbn [entries with_entries].
    rewrite list_lookup_fmap, He. cbn [fmap option_fmap option_map].
    unfold set_valid. by rewrite Hgp. }
  assert (∀ i e', entries (flush t) !! i = Some e' → valid e' = true →
                  global_page e' = true ∧ entries t !! i = Some e') as Hg.
  { intros i e'. unfold flush. cbn [entries with_entries].
    rewrite list_lookup_fmap.
    destruct (entries t !! i) as [e|]; [|done].
    cbn. destruct (global_page e) eqn:Hgp; intros [= <-]; [done|].
    by cbn. }
  split; [done|]. intros Hr.
  assert (∀ i e', entries (flush t) !! i = Some e' → valid e' = false)
    as Hall.
  { intros i e' Hi. apply not_true_is_false. intros Hv.
    destruct (Hg i e' Hi Hv) as [Hgp He].
    destruct (tlb_reachable_inv t Hr) as [_ Hperm].
    destruct (Hperm i e' He) as (_ & _ & _ & Hn). congruence. }
  split; [done|]. by apply get_reach_loop_zero.
Qed.

Lemma flush_effect_witness :
  (∃ t', translate (install_mapping (__init__ 2 32) 0x1000 0x5000 KB_4
                      true true false) 0x1234 KB_4 false false
         = Ok (Some 0x5234, t', [EvPageWalk 1 KB_4])
       ∧ get_reach t' = 4096 ∧ get_reach (flush t') = 0)
  ∧ entries
      (flush (mkTLB 2 32
                [mkEntry true 1 2 KB_4 true true false false false true 7;
                 mkEntry true 3 4 KB_4 true true false true true false 8]
                0 0 8 ∅))
    = [mkEntry true 1 2 KB_4 true true false false false true 7;
       mkEntry false 3 4 KB_4 true true false true true false 8].
Proof.
  split.
  - pose (t := install_mapping (__init__ 2 32) 0x1000 0x5000 KB_4
                 true true false).
    destruct (translate t 0x1234 KB_4 false false)
      as [[[r t'] evs]|] eqn:Htr; [|discriminate Htr].
    destruct (flush_effect t')
      as (_ & _ & _ & _ & _ & _ & _ & _ & _ & _ & Hfl).
    destruct Hfl as [_ H0].
    + apply (reachable_translate t 0x1234 KB_4 false false r t' evs);
        [|exact Htr].
      apply reachable_install. by apply reachable_init.
    + exists t'. split; [|split; [|done]];
        vm_compute in Htr; by injection Htr as <- <- <-.
  - set (g := mkEntry true 1 2 KB_4 true true false false false true 7).
    set (n := mkEntry true 3 4 KB_4 true true false true true false 8).
    set (t := mkTLB 2 32 [g; n] 0 0 8 ∅).
    destruct (flush_effect t)
      as (Hlen & _ & _ & _ & _ & _ & _ & Hglob & Hnon & _).
    pose proof (Hglob 0%nat g eq_refl eq_refl) as H0.
    pose proof (Hnon 1%nat n eq_refl eq_refl) as H1.
    destruct (entries (flush t)) as [|x [|y [|z l]]]; try discriminate Hlen.
    cbn in H0, H1. by injection H0 as ->; injection H1 as ->.
Defined.

(** X17. [invalidate] clears the valid bit of the first entry matching
    (vpn, page size) and returns whether there was one; counters and
    page table stay.  When the valid entries are unique, as they are in
    every reachable TLB, no entry matches afterwards, so the next
    translation of the page walks the page table. *)
Theorem invalidate_effect (t : TLB) (va : Z) (ps : PageSize) :
  wf t → unique_entries t →
  ∃ b t',
    invalidate t va ps = Ok (b, t')
    ∧ (b = true ↔ ¬ no_match t (_extract_vpn va ps) ps)
    ∧ no_match t' (_extract_vpn va ps) ps
    ∧ hits t' = hits t ∧ misses t' = misses t
    ∧ page_table t' = page_table t
    ∧ (∀ j y, entries t !! j = Some y →
              ¬ matches (_extract_vpn va ps) ps y →
              entries t' !! j = Some y)
    ∧ ∀ w v res t'' evs,
        translate t' va ps w v = Ok (res, t'', evs) →
        evs = [EvPageWalk (_extract_vpn va ps) ps].
Proof.
  intros Hwf Hu. unfold invalidate.
  assert (∀ t', wf t' → no_match t' (_extract_vpn va ps) ps →
          ∀ w v res t'' evs,
            translate t' va ps w v = Ok (res, t'', evs) →
            evs = [EvPageWalk (_extract_vpn va ps) ps]) as Hnext.
  { intros t' Hwf' Hno w v res t'' evs Htr.
    destruct (translate_effect t' va ps w v res t'' evs Hwf' Htr)
      as (_ & _ & _ & [(i & e & (Hi & Hm & _) & _)|(_ & -> & _)]);
      [|done].
    by destruct (Hno i e Hi). }
  destruct (find_entry_spec t (_extract_vpn va ps) ps Hwf)
    as [(i & e & -> & Hi & Hm & Hlo)|[-> Hno]]; rewrite result_bind_Ok.
  - eexists true, _. split; [done|]. split.
    { split; [|done]. intros _ Hno. by destruct (Hno i e Hi). }
    assert (no_match (update_entry t (Z.of_nat i) (set_valid false))
              (_extract_vpn va ps) ps) as Hno'.
    { intros j y. unfold update_entry. cbn [entries with_entries].
      rewrite Nat2Z.id.
      destruct (decide (i = j)) as [<-|Hne].
      - rewrite list_lookup_alter_eq, Hi. intros [= <-] (Hv & _). done.
      - rewrite list_lookup_alter_ne by done. intros Hj (Hv & Hvpn & Hps).
        destruct Hm as (Hve & Hvpne & Hpse).
        apply Hne, (Hu i j e y); congruence. }
    split; [done|]. do 3 (split; [done|]). split.
    + intros j y Hj Hnm. unfold update_entry. cbn [entries with_entries].
      rewrite Nat2Z.id. rewrite list_lookup_alter_ne; [done|].
      intros <-. rewrite Hi in Hj. injection Hj as <-. done.
    + apply Hnext; [|done]. unfold wf, update_entry in *.
      cbn [num_entries entries with_entries]. by rewrite length_alter.
  - exists false, t. split; [done|]. split; [done|]. split; [done|].
    do 3 (split; [done|]). split; [done|]. by apply Hnext.
Qed.

Lemma invalidate_effect_witness :
  ∃ t', invalidate read_only_tlb 0x1FFF KB_4 = Ok (true, t')
      ∧ no_match t' 1 KB_4
      ∧ ∀ w v res t'' evs,
          translate t' 0x1FFF KB_4 w v = Ok (res, t'', evs) →
          evs = [EvPageWalk 1 KB_4].
Proof.
  destruct (invalidate_effect read_only_tlb 0x1FFF KB_4)
    as (b & t' & Hinv & _ & Hno & _ & _ & _ & _ & Hnext).
  - reflexivity.
  - intros [|i] [|j] x y Hi Hj; try done;
      simpl in Hi, Hj; try done.
  - exists t'. split; [|done].
    rewrite Hinv. vm_compute in Hinv. by injection Hinv as <- _.
Defined.

(** *** [install_mapping] and the translations that follow *)

(** X18. [install_mapping] is seen by the next miss only.  On a page
    that no entry translates, the next translation walks the table and
    returns the frame of the last mapping installed for the page,
    [(pa >> offset_bits) << offset_bits], with the offset of the
    translated address.  On a page that an entry already translates,
    installing a new mapping changes no entry and the translation keeps
    returning the old frame. *)
Theorem install_mapping_then_translate (t : TLB) (va pa va' : Z)
  (ps : PageSize) (r w x wr v : bool) :
  wf t → _extract_vpn va' ps = _extract_vpn va ps →
  (0 < num_entries t → no_match t (_extract_vpn va ps) ps →
   ∃ t',
     translate (install_mapping t va pa ps r w x) va' ps wr v
     = Ok (Some (Z.lor (Z.shiftl (Z.shiftr pa (offset_bits ps))
                          (offset_bits ps))
                       (_extract_offset va' ps)), t',
           [EvPageWalk (_extract_vpn va ps) ps]))
  ∧ (∀ i e, first_match t (_extract_vpn va ps) ps i e →
            wr = false ∨ writable e = true →
            ∃ t',
              translate (install_mapping t va pa ps r w x) va' ps wr v
              = Ok (Some (Z.lor (Z.shiftl (ppn e) (offset_bits ps))
                                (_extract_offset va' ps)), t', [])).
Proof.
  intros Hwf Hvpn. split.
  - intros Hpos Hno.
    destruct (translate_miss (install_mapping t va pa ps r w x) va' ps wr v
                (_extract_vpn pa ps)) as (vi & t' & Htr & _);
      [done|done|by rewrite Hvpn| |].
    + unfold _page_walk, install_mapping. cbn [page_table with_page_table].
      rewrite Hvpn. apply lookup_insert_eq.
    + exists t'. by rewrite Htr, Hvpn.
  - intros i e Hfm Hperm.
    destruct (translate_hit (install_mapping t va pa ps r w x) va' ps wr v
                i e) as (t' & Htr & _); [done|by rewrite Hvpn|done|].
    by exists t'.
Qed.

Lemma install_mapping_then_translate_witness :
  (∃ t', translate (install_mapping (__init__ 2 32) 0x1000 0x5ABC KB_4
                      true true false) 0x1234 KB_4 true false
         = Ok (Some 0x5234, t', [EvPageWalk 1 KB_4]))
  ∧ (∃ t', translate (install_mapping read_only_tlb 0x1000 0x5000 KB_4
                        true true false) 0x1234 KB_4 false false
           = Ok (Some 0x2234, t', [])).
Proof.
  split.
  - apply (install_mapping_then_translate (__init__ 2 32) 0x1000 0x5ABC
             0x1234 KB_4 true true false true false);
      [reflexivity|reflexivity|reflexivity|].
    intros j y Hj. apply lookup_replicate in Hj as [-> _].
    by intros (? & _).
  - destruct (install_mapping_then_translate read_only_tlb 0x1000 0x5000
                0x1234 KB_4 true true false false false eq_refl eq_refl)
      as [_ Hhit].
    apply (Hhit 0%nat
             (mkEntry true 1 2 KB_4 true false false false false false 0));
      [|by left].
    split; [reflexivity|]. split; [done|]. intros j y Hj. lia.
Defined.

(** X19. On a TLB whose entry list has the length [num_entries],
    [translate] raises in one situation only: the TLB has no entry and
    the page is mapped, where picking a victim fails with
    [IndexError].  With at least one entry, or on an unmapped page, it
    returns. *)
Theorem translate_raises_iff (t : TLB) (va : Z) (ps : PageSize)
  (w v : bool) :
  wf t →
  (translate t va ps w v = Raise IndexError
   ↔ num_entries t = 0
     ∧ is_Some (page_table t !! (_extract_vpn va ps, ps)))
  ∧ (translate t va ps w v = Raise IndexError
     ∨ ∃ res t' evs, translate t va ps w v = Ok (res, t', evs)).
Proof.
  intros Hwf.
  assert (0 <= num_entries t) as Hn0 by (unfold wf in Hwf; lia).
  destruct (find_entry_spec t (_extract_vpn va ps) ps Hwf)
    as [(i & e & Hfe & Hfm)|[Hfe Hno]].
  - assert (0 < num_entries t) as Hpos.
    { destruct Hfm as (Hi & _). apply lookup_lt_Some in Hi.
      unfold wf in Hwf. lia. }
    destruct (writable e) eqn:Hw; [|destruct w].
    + destruct (translate_hit t va ps w v i e Hwf Hfm) as (t' & -> & _);
        [by right|].
      split; [split; [done|lia]|]. right. by repeat eexists.
    + rewrite (translate_write_protected t va ps v i e Hwf Hfm Hw).
      split; [split; [done|lia]|]. right. by repeat eexists.
    + destruct (translate_hit t va ps false v i e Hwf Hfm) as (t' & -> & _);
        [by left|].
      split; [split; [done|lia]|]. right. by repeat eexists.
  - destruct (page_table t !! (_extract_vpn va ps, ps)) as [p|] eqn:Hpt.
    + destruct (decide (0 < num_entries t)) as [Hpos|Hz].
      * destruct (translate_miss t va ps w v p Hwf Hpos Hno Hpt)
          as (vi & t' & -> & _).
        split; [split; [done|lia]|]. right. by repeat eexists.
      * assert (num_entries t = 0) as Hz' by lia.
        assert (translate t va ps w v = Raise IndexError) as ->.
        { unfold translate. rewrite Hfe, result_bind_Ok.
          unfold _page_walk. cbn [page_table with_misses]. rewrite Hpt.
          unfold _find_victim. cbn [num_entries with_misses entries].
          rewrite Hz'.
          assert (entries t = []) as ->; [|done].
          apply nil_length_inv. unfold wf in Hwf. lia. }
        split; [|by left]. split; [|done]. intros _. split; [done|].
        by eexists.
    + rewrite (translate_page_fault t va ps w v Hwf Hno Hpt).
      split; [|right; by repeat eexists].
      split; [done|]. intros [_ [? ?]]. done.
Qed.

Lemma translate_raises_iff_witness :
  translate (install_mapping (__init__ 0 32) 0x1000 0x5000 KB_4
               true true false) 0x1234 KB_4 false false
  = Raise IndexError.
Proof.
  apply (translate_raises_iff
           (install_mapping (__init__ 0 32) 0x1000 0x5000 KB_4
              true true false) 0x1234 KB_4 false false eq_refl).
  split; [reflexivity|]. by eexists.
Defined.

End TLBProps.

(** ** Little-endian bytes and slices *)

Lemma Z_of_byte_range (b : byte) : 0 <= Z_of_byte b < 256.
Proof.
  unfold Z_of_byte. pose proof (Byte.to_N_bounded b). lia.
Qed.

Lemma Z_of_byte_of_Z (z : Z) : Z_of_byte (byte_of_Z z) = z mod 256.
Proof.
  unfold Z_of_byte, byte_of_Z.
  pose proof (Z.mod_pos_bound z 256 ltac:(lia)) as Hr.
  destruct (Byte.of_N (Z.to_N (z mod 256))) as [b|] eqn:Hb; simpl.
  - apply Byte.to_of_N in Hb. rewrite Hb. lia.
  - apply Byte.of_N_None_iff in Hb. lia.
Qed.

Lemma length_to_bytes_le (n : nat) (v : Z) : length (to_bytes_le n v) = n.
Proof.
  revert v. induction n as [|n IH]; intros v; simpl; [done|].
  by rewrite IH.
Qed.

Lemma from_bytes_to_bytes_le (n : nat) (v : Z) :
  from_bytes (to_bytes_le n v) = v mod 2 ^ (8 * Z.of_nat n).
Proof.
  revert v. induction n as [|n IH]; intros v.
  - simpl. by rewrite Z.mod_1_r.
  - cbn [to_bytes_le from_bytes]. rewrite Z_of_byte_of_Z, IH.
    replace (8 * Z.of_nat (S n)) with (8 + 8 * Z.of_nat n) by lia.
    rewrite Z.pow_add_r by lia. change (2 ^ 8) with 256.
    rewrite Z.rem_mul_r; [done|lia|]. apply Z.pow_pos_nonneg; lia.
Qed.

(** Byte [k] of the encoding is bits [8k+7 : 8k] of the value. *)
Lemma to_bytes_le_lookup (n : nat) (v : Z) (k : nat) :
  (k < n)%nat →
  to_bytes_le n v !! k = Some (byte_of_Z (Z.shiftr v (8 * Z.of_nat k))).
Proof.
  revert v k. induction n as [|n IH]; intros v k Hk; [lia|].
  destruct k as [|k]; simpl to_bytes_le.
  - done.
  - rewrite lookup_cons. rewrite IH by lia. do 2 f_equal.
    rewrite !Z.shiftr_div_pow2 by lia.
    replace (8 * Z.of_nat (S k)) with (8 + 8 * Z.of_nat k) by lia.
    rewrite Z.pow_add_r by lia. change (2 ^ 8) with 256.
    rewrite Z.div_div; [done|lia|]. apply Z.pow_pos_nonneg; lia.
Qed.

Lemma to_bytes_Ok (v : Z) (n : nat) :
  0 <= v < 2 ^ (8 * Z.of_nat n) → to_bytes v n = Ok (to_bytes_le n v).
Proof.
  intros Hv. unfold to_bytes.
  destruct (Z.ltb_spec v 0); [lia|].
  destruct (Z.leb_spec (2 ^ (8 * Z.of_nat n)) v); [lia|]. done.
Qed.

Section Slices.
Context {A : Type}.
Implicit Types (l new : list A) (lo : Z).

Lemma py_slice_assign_inside l lo new :
  0 <= lo → lo + Z.of_nat (length new) <= Z.of_nat (length l) →
  py_slice_assign l lo (lo + Z.of_nat (length new)) new
  = take (Z.to_nat lo) l ++ new
    ++ drop (Z.to_nat lo + length new) l.
Proof.
  intros Hlo Hhi. unfold py_slice_assign, py_slice_bound.
  destruct (Z.ltb_spec lo 0); [lia|].
  destruct (Z.ltb_spec (lo + Z.of_nat (length new)) 0); [lia|].
  rewrite (Z.min_l lo), (Z.min_l (lo + _)), Z.max_r by lia.
  do 3 f_equal. lia.
Qed.

Lemma length_py_slice_assign l lo new :
  0 <= lo → lo + Z.of_nat (length new) <= Z.of_nat (length l) →
  length (py_slice_assign l lo (lo + Z.of_nat (length new)) new)
  = length l.
Proof.
  intros Hlo Hhi. rewrite py_slice_assign_inside by done.
  rewrite !length_app, length_take, length_drop. lia.
Qed.

Lemma py_slice_inside l lo (n : nat) :
  0 <= lo → lo + Z.of_nat n <= Z.of_nat (length l) →
  py_slice l lo (lo + Z.of_nat n) = take n (drop (Z.to_nat lo) l).
Proof.
  intros Hlo Hhi. unfold py_slice, py_slice_bound.
  destruct (Z.ltb_spec lo 0); [lia|].
  destruct (Z.ltb_spec (lo + Z.of_nat n) 0); [lia|].
  rewrite (Z.min_l lo), (Z.min_l (lo + _)) by lia.
  f_equal. lia.
Qed.

(** Reading back the slice just assigned. *)
Lemma py_slice_assign_read l lo new :
  0 <= lo → lo + Z.of_nat (length new) <= Z.of_nat (length l) →
  py_slice (py_slice_assign l lo (lo + Z.of_nat (length new)) new)
    lo (lo + Z.of_nat (length new)) = new.
Proof.
  intros Hlo Hhi.
  rewrite py_slice_inside;
    [|done|by rewrite length_py_slice_assign].
  rewrite py_slice_assign_inside by done.
  rewrite drop_app_length'; [|rewrite length_take; lia].
  by rewrite take_app_length.
Qed.

(** A slice that does not overlap the assigned one is unchanged. *)
Lemma py_slice_assign_frame l lo new lo' (n : nat) :
  0 <= lo → lo + Z.of_nat (length new) <= Z.of_nat (length l) →
  0 <= lo' → lo' + Z.of_nat n <= Z.of_nat (length l) →
  lo' + Z.of_nat n <= lo ∨ lo + Z.of_nat (length new) <= lo' →
  py_slice (py_slice_assign l lo (lo + Z.of_nat (length new)) new)
    lo' (lo' + Z.of_nat n)
  = py_slice l lo' (lo' + Z.of_nat n).
Proof.
  intros Hlo Hhi Hlo' Hhi' Hdisj.
  rewrite !py_slice_inside;
    [|done|done|done|by rewrite length_py_slice_assign].
  rewrite py_slice_assign_inside by done.
  apply list_eq. intros i. rewrite !lookup_take.
  case_decide; [|done]. rewrite !lookup_drop.
  destruct Hdisj as [Hbelow|Habove].
  - rewrite lookup_app_l by (rewrite length_take; lia).
    apply lookup_take_lt. lia.
  - rewrite lookup_app_r by (rewrite length_take; lia).
    rewrite lookup_app_r by (rewrite length_take; lia).
    rewrite length_take, lookup_drop. f_equal. lia.
Qed.
End Slices.

Lemma from_bytes_zeros (n : nat) : from_bytes (replicate n Byte.x00) = 0.
Proof. induction n as [|n IH]; simpl; [done|]. rewrite IH. done. Qed.

(** ** Properties of the Sv39 page walker *)

Module PageWalkProps.
Import PageWalk PageWalkSpec.

(** *** The PTE word *)

Lemma pte_flags_cases (pte : PageTableEntry) :
  0 <= pte_flags pte < 256
  ∧ Z.shiftr (pte_flags pte) 10 = 0
  ∧ flag_set (pte_flags pte) 1 = valid pte
  ∧ flag_set (pte_flags pte) 2 = readable pte
  ∧ flag_set (pte_flags pte) 4 = writable pte
  ∧ flag_set (pte_flags pte) 8 = executable pte
  ∧ flag_set (pte_flags pte) 16 = user pte
  ∧ flag_set (pte_flags pte) 32 = global_page pte
  ∧ flag_set (pte_flags pte) 64 = accessed pte
  ∧ flag_set (pte_flags pte) 128 = dirty pte.
Proof.
  destruct pte as [[] p [] [] [] [] [] [] [] l]; vm_compute;
    intuition congruence.
Qed.

Lemma pte_flags_bits (pte : PageTableEntry) :
  Z.testbit (pte_flags pte) 0 = valid pte
  ∧ Z.testbit (pte_flags pte) 1 = readable pte
  ∧ Z.testbit (pte_flags pte) 2 = writable pte
  ∧ Z.testbit (pte_flags pte) 3 = executable pte
  ∧ Z.testbit (pte_flags pte) 4 = user pte
  ∧ Z.testbit (pte_flags pte) 5 = global_page pte
  ∧ Z.testbit (pte_flags pte) 6 = accessed pte
  ∧ Z.testbit (pte_flags pte) 7 = dirty pte.
Proof.
  destruct pte as [[] p [] [] [] [] [] [] [] l]; vm_compute;
    intuition congruence.
Qed.

Lemma land_shiftl_low (p m : Z) :
  0 <= m < 1024 → Z.land (Z.shiftl p 10) m = 0.
Proof.
  intros Hm. apply Z.bits_inj'. intros n Hn.
  rewrite Z.land_spec, Z.bits_0.
  destruct (Z.lt_ge_cases n 10) as [Hlt|Hge].
  - by rewrite Z.shiftl_spec_low.
  - rewrite (Z.bits_above_log2 m n); [apply andb_false_r|lia|].
    destruct (decide (m = 0)) as [->|]; [simpl; lia|].
    apply Z.log2_lt_pow2; [lia|].
    pose proof (Z.pow_le_mono_r 2 10 n ltac:(lia) Hge). lia.
Qed.

Lemma pte_value_sum (pte : PageTableEntry) :
  pte_value pte = ppn pte * 1024 + pte_flags pte.
Proof.
  unfold pte_value.
  destruct (pte_flags_cases pte) as (Hr & _).
  pose proof (Z.add_lor_land (Z.shiftl (ppn pte) 10) (pte_flags pte)) as H.
  rewrite land_shiftl_low in H by lia.
  rewrite Z.shiftl_mul_pow2 in * by lia. change (2 ^ 10) with 1024 in *.
  lia.
Qed.

Lemma pte_value_range (pte : PageTableEntry) :
  0 <= ppn pte < 2 ^ 54 → 0 <= pte_value pte < 2 ^ 64.
Proof.
  intros Hp. rewrite pte_value_sum.
  destruct (pte_flags_cases pte) as (Hr & _). lia.
Qed.

Lemma flag_set_pte_value (pte : PageTableEntry) (m : Z) :
  0 <= m < 1024 →
  flag_set (pte_value pte) m = flag_set (pte_flags pte) m.
Proof.
  intros Hm. unfold flag_set, pte_value.
  by rewrite Z.land_lor_distr_l, land_shiftl_low, Z.lor_0_l.
Qed.

Lemma shiftr_pte_value (pte : PageTableEntry) :
  Z.shiftr (pte_value pte) 10 = ppn pte.
Proof.
  unfold pte_value. destruct (pte_flags_cases pte) as (_ & Hs & _).
  rewrite Z.shiftr_lor, Hs, Z.lor_0_r.
  rewrite Z.shiftr_shiftl_l by lia. apply Z.shiftl_0_r.
Qed.

Lemma decode_pte_value (pte : PageTableEntry) :
  decode_pte (pte_value pte) = reread pte.
Proof.
  unfold decode_pte, reread.
  destruct (pte_flags_cases pte)
    as (_ & _ & H0 & H1 & H2 & H3 & H4 & H5 & H6 & H7).
  rewrite !flag_set_pte_value by lia. rewrite shiftr_pte_value.
  by rewrite H0, H1, H2, H3, H4, H5, H6, H7.
Qed.

Lemma read_pte_is_leaf (w : Walker) (table_pa index : Z)
  (pte : PageTableEntry) :
  _read_pte w table_pa index = Ok pte →
  is_leaf pte = readable pte || writable pte || executable pte.
Proof.
  unfold _read_pte. destruct (get_table w table_pa); simpl; [|done].
  by intros [= <-].
Qed.

(** *** Writing and reading an entry *)

Lemma write_pte_Ok (w : Walker) (table_pa index : Z) (pte : PageTableEntry)
  (tbl : list byte) :
  memory w !! table_pa = Some tbl →
  0 <= ppn pte < 2 ^ 54 →
  _write_pte w table_pa index pte
  = Ok (with_memory w
          (<[table_pa :=
               py_slice_assign tbl (index * 8) (index * 8 + 8)
                 (to_bytes_le 8 (pte_value pte))]> (memory w))).
Proof.
  intros Htbl Hp. unfold _write_pte.
  rewrite to_bytes_Ok by (apply pte_value_range; done). simpl.
  unfold get_table. by rewrite Htbl.
Qed.

Lemma read_pte_written (w : Walker) (table_pa index : Z)
  (pte : PageTableEntry) (tbl : list byte) :
  memory w !! table_pa
  = Some (py_slice_assign tbl (index * 8) (index * 8 + 8)
            (to_bytes_le 8 (pte_value pte))) →
  length tbl = 4096%nat → 0 <= index < 512 →
  0 <= ppn pte < 2 ^ 54 →
  _read_pte w table_pa index = Ok (reread pte).
Proof.
  intros Htbl Hlen Hi Hp. unfold _read_pte, get_table. rewrite Htbl.
  rewrite result_bind_Ok.
  pose proof (py_slice_assign_read tbl (index * 8)
                (to_bytes_le 8 (pte_value pte))) as Hrd.
  rewrite length_to_bytes_le in Hrd. change (Z.of_nat 8) with 8 in Hrd.
  rewrite Hrd by lia.
  rewrite from_bytes_to_bytes_le. change (8 * Z.of_nat 8) with 64.
  rewrite Z.mod_small by (by apply pte_value_range).
  by rewrite decode_pte_value.
Qed.

(** C6. A [PageTableEntry] whose PPN fits bits [63:10] is stored by
    [_write_pte] as the 8 little-endian bytes of a word whose bits
    [63:10] are the PPN and whose bits 0 to 7 are valid, readable,
    writable, executable, user, global, accessed and dirty; and
    [_read_pte] at the same table and index then returns all of these
    fields, with [is_leaf] = readable or writable or executable. *)
Theorem write_then_read_pte (w : Walker) (table_pa index : Z)
  (pte : PageTableEntry) (tbl : list byte) :
  memory w !! table_pa = Some tbl →
  length tbl = 4096%nat →
  0 <= index < 512 →
  0 <= ppn pte < 2 ^ 54 →
  ∃ w' tbl' word,
    _write_pte w table_pa index pte = Ok w'
    ∧ memory w' !! table_pa = Some tbl'
    ∧ length tbl' = 4096%nat
    ∧ 0 <= word < 2 ^ 64
    ∧ (∀ k : nat, (k < 8)%nat →
         tbl' !! (Z.to_nat (index * 8) + k)%nat
         = Some (byte_of_Z (Z.shiftr word (8 * Z.of_nat k))))
    ∧ from_bytes (py_slice tbl' (index * 8) (index * 8 + 8)) = word
    ∧ Z.shiftr word 10 = ppn pte
    ∧ Z.testbit word 0 = valid pte
    ∧ Z.testbit word 1 = readable pte
    ∧ Z.testbit word 2 = writable pte
    ∧ Z.testbit word 3 = executable pte
    ∧ Z.testbit word 4 = user pte
    ∧ Z.testbit word 5 = global_page pte
    ∧ Z.testbit word 6 = accessed pte
    ∧ Z.testbit word 7 = dirty pte
    ∧ _read_pte w' table_pa index
      = Ok (mkPTE (valid pte) (ppn pte) (readable pte) (writable pte)
              (executable pte) (user pte) (global_page pte) (accessed pte)
              (dirty pte)
              (readable pte || writable pte || executable pte)).
Proof.
  intros Htbl Hlen Hi Hp.
  pose proof (pte_value_range pte Hp) as Hrange.
  set (bs := to_bytes_le 8 (pte_value pte)).
  assert (length bs = 8%nat) as Hbs by apply length_to_bytes_le.
  set (tbl' := py_slice_assign tbl (index * 8) (index * 8 + 8) bs).
  assert (length tbl' = 4096%nat) as Hlen'.
  { subst tbl'. rewrite <- Hlen.
    pose proof (length_py_slice_assign tbl (index * 8) bs) as Hl.
    rewrite Hbs in Hl. apply Hl; lia. }
  exists (with_memory w (<[table_pa := tbl']> (memory w))), tbl',
    (pte_value pte).
  split; [by apply write_pte_Ok|].
  split; [simpl; by rewrite lookup_insert_eq|].
  split; [done|]. split; [done|].
  split.
  { intros k Hk. subst tbl'.
    pose proof (py_slice_assign_inside tbl (index * 8) bs) as Hin.
    rewrite Hbs in Hin. change (Z.of_nat 8) with 8 in Hin.
    rewrite Hin by lia.
    rewrite lookup_app_r; rewrite length_take; [|lia].
    replace (Z.to_nat (index * 8) + k
             - Z.to_nat (index * 8) `min` length tbl)%nat with k by lia.
    rewrite lookup_app_l by lia.
    by apply to_bytes_le_lookup. }
  split.
  { subst tbl'.
    pose proof (py_slice_assign_read tbl (index * 8) bs) as Hrd.
    rewrite Hbs in Hrd. change (Z.of_nat 8) with 8 in Hrd.
    rewrite Hrd by lia. subst bs.
    rewrite from_bytes_to_bytes_le. change (8 * Z.of_nat 8) with 64.
    by apply Z.mod_small. }
  split; [apply shiftr_pte_value|].
  destruct (pte_flags_bits pte) as (H0 & H1 & H2 & H3 & H4 & H5 & H6 & H7).
  unfold pte_value.
  rewrite !Z.lor_spec, !Z.shiftl_spec_low by lia. simpl orb.
  repeat (split; [done|]).
  apply (read_pte_written _ table_pa index pte tbl); try done.
  simpl. by rewrite lookup_insert_eq.
Qed.

Lemma write_then_read_pte_witness :
  ∃ w' tbl' word,
    _write_pte (__init__ 65536) 65536 3
      (mkPTE true 74565 true false true true false false true false)
    = Ok w'
    ∧ memory w' !! 65536 = Some tbl'
    ∧ length tbl' = 4096%nat
    ∧ 0 <= word < 2 ^ 64
    ∧ (∀ k : nat, (k < 8)%nat →
         tbl' !! (Z.to_nat (3 * 8) + k)%nat
         = Some (byte_of_Z (Z.shiftr word (8 * Z.of_nat k))))
    ∧ from_bytes (py_slice tbl' (3 * 8) (3 * 8 + 8)) = word
    ∧ Z.shiftr word 10 = 74565
    ∧ Z.testbit word 0 = true
    ∧ Z.testbit word 1 = true
    ∧ Z.testbit word 2 = false
    ∧ Z.testbit word 3 = true
    ∧ Z.testbit word 4 = true
    ∧ Z.testbit word 5 = false
    ∧ Z.testbit word 6 = false
    ∧ Z.testbit word 7 = true
    ∧ _read_pte w' 65536 3
      = Ok (mkPTE true 74565 true false true true false false true true).
Proof.
  apply (write_then_read_pte (__init__ 65536) 65536 3
           (mkPTE true 74565 true false true true false false true false)
           empty_table).
  - reflexivity.
  - reflexivity.
  - lia.
  - simpl. lia.
Defined.

(** *** Superpages *)

(** C5. When the level-2 PTE read by [translate] is valid and has R, W
    or X set, the result is the 1 GiB composition
    [(ppn << 30) | (va & 0x3FFFFFFF)] and the only PTE read is the one
    in the root table; when the level-2 PTE is a valid pointer and the
    level-1 PTE is valid with R, W or X set, the result is the 2 MiB
    composition [(ppn << 21) | (va & 0x1FFFFF)] and the only PTEs read
    are the level-2 and the level-1 one: no lower-level table is
    read. *)
Theorem translate_superpage (w : Walker) (va : Z) (is_write verbose : bool)
  (pte2 : PageTableEntry) :
  _read_pte w (satp w) (Z.land (Z.shiftr va 30) 511) = Ok pte2 →
  valid pte2 = true →
  (readable pte2 || writable pte2 || executable pte2 = true →
   translate w va is_write verbose
   = Ok (Some (Z.lor (Z.shiftl (ppn pte2) 30) (Z.land va 1073741823)),
         incr_page_walks w,
         [EvReadPTE (satp w) (Z.land (Z.shiftr va 30) 511)]))
  ∧ (readable pte2 || writable pte2 || executable pte2 = false →
     ∀ pte1,
       _read_pte w (Z.shiftl (ppn pte2) 12) (Z.land (Z.shiftr va 21) 511)
       = Ok pte1 →
       valid pte1 = true →
       readable pte1 || writable pte1 || executable pte1 = true →
       translate w va is_write verbose
       = Ok (Some (Z.lor (Z.shiftl (ppn pte1) 21) (Z.land va 2097151)),
             incr_page_walks w,
             [EvReadPTE (satp w) (Z.land (Z.shiftr va 30) 511);
              EvReadPTE (Z.shiftl (ppn pte2) 12)
                (Z.land (Z.shiftr va 21) 511)])).
Proof.
  intros Hr2 Hv2.
  pose proof (read_pte_is_leaf _ _ _ _ Hr2) as Hleaf2.
  unfold translate, _decompose_va.
  change (_read_pte (incr_page_walks w)) with (_read_pte w).
  change (satp (incr_page_walks w)) with (satp w).
  rewrite Hr2, result_bind_Ok, Hv2, Hleaf2. cbn [negb].
  split; intros Hl2; rewrite Hl2; [done|].
  intros pte1 Hr1 Hv1 Hl1.
  pose proof (read_pte_is_leaf _ _ _ _ Hr1) as Hleaf1.
  by rewrite Hr1, result_bind_Ok, Hv1, Hleaf1, Hl1.
Qed.

Lemma translate_superpage_witness :
  (true || true || false = true →
   translate gigapage_walker 1073746484 false false
   = Ok (Some (Z.lor (Z.shiftl 5 30) (Z.land 1073746484 1073741823)),
         incr_page_walks gigapage_walker,
         [EvReadPTE (satp gigapage_walker)
            (Z.land (Z.shiftr 1073746484 30) 511)]))
  ∧ (true || true || false = false →
     ∀ pte1,
       _read_pte gigapage_walker (Z.shiftl 5 12)
         (Z.land (Z.shiftr 1073746484 21) 511) = Ok pte1 →
       valid pte1 = true →
       readable pte1 || writable pte1 || executable pte1 = true →
       translate gigapage_walker 1073746484 false false
       = Ok (Some (Z.lor (Z.shiftl (ppn pte1) 21)
                     (Z.land 1073746484 2097151)),
             incr_page_walks gigapage_walker,
             [EvReadPTE (satp gigapage_walker)
                (Z.land (Z.shiftr 1073746484 30) 511);
              EvReadPTE (Z.shiftl 5 12)
                (Z.land (Z.shiftr 1073746484 21) 511)])).
Proof.
  apply (translate_superpage gigapage_walker 1073746484 false false
           (mkPTE true 5 true true false true false false false true)).
  - by vm_compute.
  - reflexivity.
Defined.

Example translate_megapage :
  translate megapage_walker 4198964 false false
  = Ok (Some 14684724, incr_page_walks megapage_walker,
        [EvReadPTE 65536 0; EvReadPTE 131072 2]).
Proof. by vm_compute. Qed.

(** *** Mapping a page, then translating *)

Lemma length_empty_table : length empty_table = 4096%nat.
Proof. apply length_replicate. Qed.

Lemma read_pte_empty (w : Walker) (table_pa index : Z) :
  memory w !! table_pa = Some empty_table → 0 <= index < 512 →
  _read_pte w table_pa index = Ok (decode_pte 0).
Proof.
  intros Htbl Hi. unfold _read_pte, get_table. rewrite Htbl, result_bind_Ok.
  replace (index * 8 + 8) with (index * 8 + Z.of_nat 8) by lia.
  rewrite py_slice_inside; [|lia|rewrite length_empty_table; lia].
  unfold empty_table. rewrite drop_replicate, take_replicate.
  by rewrite from_bytes_zeros.
Qed.

Lemma vpn_range (x : Z) : 0 <= Z.land x 511 < 512.
Proof.
  change 511 with (Z.ones 9). rewrite Z.land_ones by lia.
  apply Z.mod_pos_bound. lia.
Qed.

(** On a fresh walker every translation faults at level 2, whatever
    address the root table was given. *)
Lemma translate_fresh (rand va : Z) (is_write verbose : bool) :
  translate (__init__ rand) va is_write verbose
  = Ok (None, incr_page_faults (incr_page_walks (__init__ rand)),
        [EvReadPTE (satp (__init__ rand)) (Z.land (Z.shiftr va 30) 511)]).
Proof.
  unfold translate, _decompose_va.
  rewrite (read_pte_empty _ _ _); [done| |apply vpn_range].
  simpl. by rewrite lookup_insert_eq.
Qed.

(** Addresses handed out by [_allocate_page_table] are page aligned
    and their page number fits a PTE. *)
Lemma page_align (rand : Z) :
  Z.land rand (Z.lnot 4095) = Z.shiftl (Z.shiftr rand 12) 12.
Proof.
  rewrite <- Z.ldiff_land. change 4095 with (Z.ones 12).
  by rewrite Z.ldiff_ones_r.
Qed.

Lemma shiftr_shiftl_12 (p : Z) : Z.shiftr (Z.shiftl p 12) 12 = p.
Proof. rewrite Z.shiftr_shiftl_l by lia. apply Z.shiftl_0_r. Qed.

Lemma ppn_range (a : Z) : 0 <= a < 2 ^ 66 → 0 <= Z.shiftr a 12 < 2 ^ 54.
Proof.
  intros Ha. rewrite Z.shiftr_div_pow2 by lia. split.
  - apply Z.div_pos; lia.
  - apply Z.div_lt_upper_bound; lia.
Qed.

(** The composed address splits back into page number and offset. *)
Lemma compose_pa_split (p va : Z) :
  Z.shiftr (Z.lor (Z.shiftl p 12) (Z.land va 4095)) 12 = p
  ∧ Z.land (Z.lor (Z.shiftl p 12) (Z.land va 4095)) 4095 = Z.land va 4095.
Proof.
  change 4095 with (Z.ones 12). split.
  - rewrite Z.shiftr_lor, shiftr_shiftl_12.
    rewrite (Z.shiftr_div_pow2 (Z.land _ _)) by lia.
    rewrite Z.land_ones by lia.
    rewrite Z.div_small by (apply Z.mod_pos_bound; lia).
    apply Z.lor_0_r.
  - rewrite Z.land_lor_distr_l.
    rewrite <- Z.land_assoc, Z.land_diag.
    rewrite (Z.land_ones (Z.shiftl p 12)) by lia.
    rewrite Z.shiftl_mul_pow2 by lia. rewrite Z.mod_mul by lia.
    apply Z.lor_0_l.
Qed.

Lemma alloc_aligned (rand : Z) :
  Z.shiftl (Z.shiftr (Z.land rand (Z.lnot 4095)) 12) 12
  = Z.land rand (Z.lnot 4095).
Proof. by rewrite page_align, shiftr_shiftl_12. Qed.

Lemma alloc_ppn_range (rand : Z) :
  rand_in_range rand →
  0 <= Z.shiftr (Z.land rand (Z.lnot 4095)) 12 < 2 ^ 54.
Proof.
  intros [Hlo Hhi]. rewrite page_align, shiftr_shiftl_12.
  apply ppn_range. lia.
Qed.

Ltac table_lookup :=
  cbn [memory with_memory];
  repeat (rewrite lookup_insert_ne by congruence);
  by rewrite lookup_insert_eq.

Lemma read_single_entry_table (w : Walker) (table_pa i j : Z)
  (pte : PageTableEntry) :
  memory w !! table_pa = Some (single_entry_table i pte) →
  0 <= i < 512 → 0 <= j < 512 → 0 <= ppn pte < 2 ^ 54 →
  _read_pte w table_pa j
  = Ok (if decide (j = i) then reread pte else decode_pte 0).
Proof.
  intros Htbl Hi Hj Hp. case_decide as Hji.
  - subst j. by apply (read_pte_written w table_pa i pte empty_table).
  - unfold _read_pte, get_table. rewrite Htbl, result_bind_Ok.
    unfold single_entry_table.
    pose proof (py_slice_assign_frame empty_table (i * 8)
                  (to_bytes_le 8 (pte_value pte)) (j * 8) 8) as Hfr.
    rewrite length_to_bytes_le in Hfr. change (Z.of_nat 8) with 8 in Hfr.
    rewrite Hfr; [|lia|rewrite length_empty_table; lia|lia
                  |rewrite length_empty_table; lia|lia].
    replace (j * 8 + 8) with (j * 8 + Z.of_nat 8) by lia.
    rewrite py_slice_inside; [|lia|rewrite length_empty_table; lia].
    unfold empty_table. rewrite drop_replicate, take_replicate.
    by rewrite from_bytes_zeros.
Qed.

(** [map_page] on a fresh walker, when the three tables are placed at
    three different pages: the root, the level-1 and the level-0 table
    each hold the one entry on the path of [va]. *)
Lemma map_page_fresh (rroot rand1 rand0 va pa : Z) (rd wr ex us : bool) :
  rand_in_range rand1 → rand_in_range rand0 →
  Z.land rand1 (Z.lnot 4095) ≠ Z.land rroot (Z.lnot 4095) →
  Z.land rand0 (Z.lnot 4095) ≠ Z.land rroot (Z.lnot 4095) →
  Z.land rand0 (Z.lnot 4095) ≠ Z.land rand1 (Z.lnot 4095) →
  0 <= pa < 2 ^ 66 →
  ∃ w, map_page (__init__ rroot) va pa rd wr ex us rand1 rand0 = Ok w
       ∧ satp w = Z.land rroot (Z.lnot 4095)
       ∧ page_walks w = 0 ∧ page_faults w = 0
       ∧ memory w !! Z.land rroot (Z.lnot 4095)
         = Some (single_entry_table (Z.land (Z.shiftr va 30) 511)
                   (pointer_pte (Z.land rand1 (Z.lnot 4095))))
       ∧ memory w !! Z.land rand1 (Z.lnot 4095)
         = Some (single_entry_table (Z.land (Z.shiftr va 21) 511)
                   (pointer_pte (Z.land rand0 (Z.lnot 4095))))
       ∧ memory w !! Z.land rand0 (Z.lnot 4095)
         = Some (single_entry_table (Z.land (Z.shiftr va 12) 511)
                   (leaf_pte (Z.shiftr pa 12) rd wr ex us)).
Proof.
  intros Hr1 Hr0 H12 H02 H01 Hpa.
  set (a2 := Z.land rroot (Z.lnot 4095)) in *.
  set (a1 := Z.land rand1 (Z.lnot 4095)) in *.
  set (a0 := Z.land rand0 (Z.lnot 4095)) in *.
  assert (Z.shiftl (Z.shiftr a1 12) 12 = a1) as Ha1 by apply alloc_aligned.
  assert (Z.shiftl (Z.shiftr a0 12) 12 = a0) as Ha0 by apply alloc_aligned.
  assert (__init__ rroot = mkWalker (<[a2 := empty_table]> ∅) a2 0 0) as ->
    by reflexivity.
  unfold map_page, _decompose_va.
  set (vpn2 := Z.land (Z.shiftr va 30) 511) in *.
  set (vpn1 := Z.land (Z.shiftr va 21) 511) in *.
  set (vpn0 := Z.land (Z.shiftr va 12) 511) in *.
  cbn [satp].
  (* level 2: the root is empty, a level-1 table is allocated *)
  rewrite read_pte_empty; [|table_lookup|apply vpn_range].
  rewrite result_bind_Ok. change (valid (decode_pte 0)) with false.
  cbn [negb]. unfold _allocate_page_table. fold a1.
  cbn [with_memory memory satp page_walks page_faults].
  rewrite (write_pte_Ok _ a2 vpn2 (pointer_pte a1) empty_table);
    [|table_lookup|by apply alloc_ppn_range].
  rewrite !result_bind_Ok. cbn [ppn pointer_pte]. rewrite Ha1.
  unfold with_memory. cbn [memory satp page_walks page_faults].
  fold (single_entry_table vpn2 (pointer_pte a1)).
  (* level 1: empty again, a level-0 table is allocated *)
  rewrite read_pte_empty; [|table_lookup|apply vpn_range].
  rewrite result_bind_Ok. change (valid (decode_pte 0)) with false.
  cbn [negb]. fold a0.
  rewrite (write_pte_Ok _ a1 vpn1 (pointer_pte a0) empty_table);
    [|table_lookup|by apply alloc_ppn_range].
  rewrite !result_bind_Ok. cbn [ppn pointer_pte]. rewrite Ha0.
  unfold with_memory. cbn [memory satp page_walks page_faults].
  fold (single_entry_table vpn1 (pointer_pte a0)).
  (* level 0: the leaf *)
  rewrite (write_pte_Ok _ a0 vpn0 _ empty_table);
    [|table_lookup|by apply ppn_range].
  unfold with_memory. cbn [memory satp page_walks page_faults].
  fold (single_entry_table vpn0 (leaf_pte (Z.shiftr pa 12) rd wr ex us)).
  eexists. split; [reflexivity|].
  repeat (split; [done|]).
  split; [table_lookup|]. split; table_lookup.
Qed.

(** After [map_page] on a fresh walker whose three tables were placed
    at three different pages, every address of the mapped page
    translates to the mapped frame with the address's own offset. *)
Lemma map_page_then_translate (rroot rand1 rand0 va pa va' : Z)
  (rd wr ex us is_write verbose : bool) :
  rand_in_range rand1 → rand_in_range rand0 →
  Z.land rand1 (Z.lnot 4095) ≠ Z.land rroot (Z.lnot 4095) →
  Z.land rand0 (Z.lnot 4095) ≠ Z.land rroot (Z.lnot 4095) →
  Z.land rand0 (Z.lnot 4095) ≠ Z.land rand1 (Z.lnot 4095) →
  0 <= pa < 2 ^ 66 →
  Z.land (Z.shiftr va' 30) 511 = Z.land (Z.shiftr va 30) 511 →
  Z.land (Z.shiftr va' 21) 511 = Z.land (Z.shiftr va 21) 511 →
  Z.land (Z.shiftr va' 12) 511 = Z.land (Z.shiftr va 12) 511 →
  (is_write = true → wr = true) →
  ∃ w, map_page (__init__ rroot) va pa rd wr ex us rand1 rand0 = Ok w
       ∧ translate w va' is_write verbose
         = Ok (Some (Z.lor (Z.shiftl (Z.shiftr pa 12) 12) (Z.land va' 4095)),
               incr_page_walks w,
               [EvReadPTE (Z.land rroot (Z.lnot 4095))
                  (Z.land (Z.shiftr va 30) 511);
                EvReadPTE (Z.land rand1 (Z.lnot 4095))
                  (Z.land (Z.shiftr va 21) 511);
                EvReadPTE (Z.land rand0 (Z.lnot 4095))
                  (Z.land (Z.shiftr va 12) 511)]).
Proof.
  intros Hr1 Hr0 H12 H02 H01 Hpa Hv2 Hv1 Hv0 Hwr.
  destruct (map_page_fresh rroot rand1 rand0 va pa rd wr ex us)
    as (w & Hmap & Hsatp & _ & _ & Hm2 & Hm1 & Hm0); try done.
  exists w. split; [done|].
  set (a2 := Z.land rroot (Z.lnot 4095)) in *.
  set (a1 := Z.land rand1 (Z.lnot 4095)) in *.
  set (a0 := Z.land rand0 (Z.lnot 4095)) in *.
  set (vpn2 := Z.land (Z.shiftr va 30) 511) in *.
  set (vpn1 := Z.land (Z.shiftr va 21) 511) in *.
  set (vpn0 := Z.land (Z.shiftr va 12) 511) in *.
  assert (Z.shiftl (Z.shiftr a1 12) 12 = a1) as Ha1 by apply alloc_aligned.
  assert (Z.shiftl (Z.shiftr a0 12) 12 = a0) as Ha0 by apply alloc_aligned.
  pose proof (read_single_entry_table w a2 vpn2 vpn2 _ Hm2
                (vpn_range _) (vpn_range _) (alloc_ppn_range _ Hr1)) as Hrd2.
  pose proof (read_single_entry_table w a1 vpn1 vpn1 _ Hm1
                (vpn_range _) (vpn_range _) (alloc_ppn_range _ Hr0)) as Hrd1.
  pose proof (read_single_entry_table w a0 vpn0 vpn0 _ Hm0
                (vpn_range _) (vpn_range _) (ppn_range _ Hpa)) as Hrd0.
  rewrite decide_True in Hrd2 by done.
  rewrite decide_True in Hrd1 by done.
  rewrite decide_True in Hrd0 by done.
  unfold translate, _decompose_va. rewrite Hv2, Hv1, Hv0.
  change (_read_pte (incr_page_walks w)) with (_read_pte w).
  change (satp (incr_page_walks w)) with (satp w). rewrite Hsatp.
  fold vpn2 vpn1 vpn0.
  rewrite Hrd2, result_bind_Ok.
  cbn [reread pointer_pte valid is_leaf ppn readable writable executable
       orb negb].
  rewrite Ha1, Hrd1, result_bind_Ok.
  cbn [reread pointer_pte valid is_leaf ppn readable writable executable
       orb negb].
  rewrite Ha0, Hrd0, result_bind_Ok.
  cbn [reread leaf_pte valid ppn writable negb].
  destruct is_write; [rewrite Hwr by done|]; done.
Qed.

(** X20. Mapping a page, then translating an address of it.  On a new
    walker, when the three tables of the mapping are allocated at
    different pages and the physical address fits 66 bits, [translate]
    of any address with the same three indices (a read, or a write to
    a page mapped writable) returns an address whose bits above the
    low 12 are the mapped PPN [pa >> 12] and whose low 12 bits are the
    offset of the translated address. *)
Corollary map_page_translate_prefix_offset (rroot rand1 rand0 va pa va' : Z)
  (rd wr ex us is_write verbose : bool) :
  rand_in_range rand1 → rand_in_range rand0 →
  Z.land rand1 (Z.lnot 4095) ≠ Z.land rroot (Z.lnot 4095) →
  Z.land rand0 (Z.lnot 4095) ≠ Z.land rroot (Z.lnot 4095) →
  Z.land rand0 (Z.lnot 4095) ≠ Z.land rand1 (Z.lnot 4095) →
  0 <= pa < 2 ^ 66 →
  Z.land (Z.shiftr va' 30) 511 = Z.land (Z.shiftr va 30) 511 →
  Z.land (Z.shiftr va' 21) 511 = Z.land (Z.shiftr va 21) 511 →
  Z.land (Z.shiftr va' 12) 511 = Z.land (Z.shiftr va 12) 511 →
  (is_write = true → wr = true) →
  ∃ w w' evs res,
    map_page (__init__ rroot) va pa rd wr ex us rand1 rand0 = Ok w
    ∧ translate w va' is_write verbose = Ok (Some res, w', evs)
    ∧ Z.shiftr res 12 = Z.shiftr pa 12
    ∧ Z.land res 4095 = Z.land va' 4095.
Proof.
  intros Hr1 Hr0 H12 H02 H01 Hpa Hv2 Hv1 Hv0 Hwr.
  destruct (map_page_then_translate rroot rand1 rand0 va pa va'
              rd wr ex us is_write verbose)
    as (w & Hmap & Htr); try done.
  destruct (compose_pa_split (Z.shiftr pa 12) va') as [Hpre Hoff].
  eexists w, _, _, _. split; [done|]. split; [exact Htr|]. done.
Qed.

(** X21. After the same [map_page] (its three tables at different
    pages), an address that differs from the mapped one in one of its
    three indices is not present: [translate] counts a page walk and a
    page fault and returns [None]. *)
Lemma map_page_other_page_faults (rroot rand1 rand0 va pa va' : Z)
  (rd wr ex us is_write verbose : bool) :
  rand_in_range rand1 → rand_in_range rand0 →
  Z.land rand1 (Z.lnot 4095) ≠ Z.land rroot (Z.lnot 4095) →
  Z.land rand0 (Z.lnot 4095) ≠ Z.land rroot (Z.lnot 4095) →
  Z.land rand0 (Z.lnot 4095) ≠ Z.land rand1 (Z.lnot 4095) →
  0 <= pa < 2 ^ 66 →
  Z.land (Z.shiftr va' 30) 511 ≠ Z.land (Z.shiftr va 30) 511
  ∨ Z.land (Z.shiftr va' 21) 511 ≠ Z.land (Z.shiftr va 21) 511
  ∨ Z.land (Z.shiftr va' 12) 511 ≠ Z.land (Z.shiftr va 12) 511 →
  ∃ w evs,
    map_page (__init__ rroot) va pa rd wr ex us rand1 rand0 = Ok w
    ∧ translate w va' is_write verbose
      = Ok (None, incr_page_faults (incr_page_walks w), evs).
Proof.
  intros Hr1 Hr0 H12 H02 H01 Hpa Hother.
  destruct (map_page_fresh rroot rand1 rand0 va pa rd wr ex us)
    as (w & Hmap & Hsatp & _ & _ & Hm2 & Hm1 & Hm0); try done.
  exists w.
  set (a2 := Z.land rroot (Z.lnot 4095)) in *.
  set (a1 := Z.land rand1 (Z.lnot 4095)) in *.
  set (a0 := Z.land rand0 (Z.lnot 4095)) in *.
  assert (Z.shiftl (Z.shiftr a1 12) 12 = a1) as Ha1 by apply alloc_aligned.
  assert (Z.shiftl (Z.shiftr a0 12) 12 = a0) as Ha0 by apply alloc_aligned.
  pose proof (read_single_entry_table w a2 _ (Z.land (Z.shiftr va' 30) 511)
                _ Hm2 (vpn_range _) (vpn_range _) (alloc_ppn_range _ Hr1))
    as Hrd2.
  pose proof (read_single_entry_table w a1 _ (Z.land (Z.shiftr va' 21) 511)
                _ Hm1 (vpn_range _) (vpn_range _) (alloc_ppn_range _ Hr0))
    as Hrd1.
  pose proof (read_single_entry_table w a0 _ (Z.land (Z.shiftr va' 12) 511)
                _ Hm0 (vpn_range _) (vpn_range _) (ppn_range _ Hpa))
    as Hrd0.
  unfold translate, _decompose_va.
  change (_read_pte (incr_page_walks w)) with (_read_pte w).
  change (satp (incr_page_walks w)) with (satp w). rewrite Hsatp.
  rewrite Hrd2, result_bind_Ok.
  destruct (decide (Z.land (Z.shiftr va' 30) 511
                    = Z.land (Z.shiftr va 30) 511)) as [E2|E2];
    [|eexists; split; [exact Hmap|reflexivity]].
  cbn [reread pointer_pte valid is_leaf ppn readable writable executable
       orb negb].
  rewrite Ha1, Hrd1, result_bind_Ok.
  destruct (decide (Z.land (Z.shiftr va' 21) 511
                    = Z.land (Z.shiftr va 21) 511)) as [E1|E1];
    [|eexists; split; [exact Hmap|reflexivity]].
  cbn [reread pointer_pte valid is_leaf ppn readable writable executable
       orb negb].
  rewrite Ha0, Hrd0, result_bind_Ok.
  destruct (decide (Z.land (Z.shiftr va' 12) 511
                    = Z.land (Z.shiftr va 12) 511)) as [E0|E0];
    [|eexists; split; [exact Hmap|reflexivity]].
  exfalso. tauto.
Qed.

(** The scenario of the specification, for all draws that place the
    three tables at different pages. *)
Corollary map_401000_translate_401234 (rroot rand1 rand0 : Z) :
  rand_in_range rand1 → rand_in_range rand0 →
  Z.land rand1 (Z.lnot 4095) ≠ Z.land rroot (Z.lnot 4095) →
  Z.land rand0 (Z.lnot 4095) ≠ Z.land rroot (Z.lnot 4095) →
  Z.land rand0 (Z.lnot 4095) ≠ Z.land rand1 (Z.lnot 4095) →
  ∃ w w' evs,
    map_page (__init__ rroot) 4198400 305418240 true true false true rand1 rand0
    = Ok w
    ∧ translate w 4198964 false false = Ok (Some 305418804, w', evs).
Proof.
  intros Hr1 Hr0 H12 H02 H01.
  destruct (map_page_then_translate rroot rand1 rand0 4198400 305418240
              4198964 true true false true false false)
    as (w & Hmap & Htr); try done.
  eexists w, (incr_page_walks w), _. split; [done|]. exact Htr.
Qed.

(** C4. The root table is at page 0x10000, the level-1 table is drawn
    at 0x20000 and the level-0 table is drawn at the root's page
    0x10000 again: [_allocate_page_table] zeroes the root table, the
    level-2 entry written just before is lost, and after
    [map_page(0x401000, 0x12345000)] the walk for 0x401234 faults at
    level 2 instead of returning 0x12345234. *)
Theorem map_page_allocation_collision :
  (w ← map_page (__init__ 65536) 4198400 305418240 true true false true
         131072 65536;
   '(pa, w', evs) ← translate w 4198964 false false;
   Ok (pa, page_faults w', evs))
  = Ok (None, 1, [EvReadPTE 65536 0]).
Proof. by vm_compute. Qed.

(** *** The fields of a virtual address *)

(** X22. [_decompose_va] splits an address into three 9-bit indices
    and a 12-bit offset that do not overlap: putting them back with
    [(vpn2 << 30) | (vpn1 << 21) | (vpn0 << 12) | offset] gives the
    address reduced to 39 bits; higher bits are dropped. *)
Theorem decompose_va_recompose (va : Z) :
  ∃ vpn2 vpn1 vpn0 offset,
    _decompose_va va = (vpn2, vpn1, vpn0, offset)
    ∧ 0 <= vpn2 < 512 ∧ 0 <= vpn1 < 512 ∧ 0 <= vpn0 < 512
    ∧ 0 <= offset < 4096
    ∧ Z.lor (Z.shiftl vpn2 30)
        (Z.lor (Z.shiftl vpn1 21) (Z.lor (Z.shiftl vpn0 12) offset))
      = va mod 2 ^ 39.
Proof.
  eexists _, _, _, _. split; [reflexivity|].
  pose proof (vpn_range (Z.shiftr va 30)).
  pose proof (vpn_range (Z.shiftr va 21)).
  pose proof (vpn_range (Z.shiftr va 12)).
  assert (0 <= Z.land va 4095 < 4096) as Ho.
  { change 4095 with (Z.ones 12). rewrite Z.land_ones by lia.
    apply Z.mod_pos_bound. lia. }
  do 4 (split; [done|]).
  rewrite (lor_shiftl_add _ 12) by (simpl; lia).
  rewrite (lor_shiftl_add _ 21) by (simpl; lia).
  rewrite (lor_shiftl_add _ 30) by (simpl; lia).
  change 511 with (Z.ones 9). change 4095 with (Z.ones 12).
  rewrite !Z.land_ones, !Z.shiftr_div_pow2 by lia.
  change (2 ^ 39) with (2 ^ 12 * (2 ^ 9 * (2 ^ 9 * 2 ^ 9))).
  rewrite (Z.rem_mul_r va) by lia.
  rewrite (Z.rem_mul_r (va / 2 ^ 12)) by lia.
  rewrite (Z.rem_mul_r (va / 2 ^ 12 / 2 ^ 9)) by lia.
  rewrite !Z.div_div by lia.
  change (2 ^ 12 * 2 ^ 9) with (2 ^ 21).
  change (2 ^ 21 * 2 ^ 9) with (2 ^ 30). lia.
Qed.

(** *** The counters of [translate] *)

(** X23. Every returning [translate] counts one page walk, counts one
    page fault exactly when it returns [None], never changes the
    memory or [satp], and reads between one and three entries, the
    first of them in the root table at index [vpn2]. *)
Theorem translate_accounting (w : Walker) (va : Z) (is_write verbose : bool)
  (res : option Z) (w' : Walker) (evs : list Event) :
  translate w va is_write verbose = Ok (res, w', evs) →
  memory w' = memory w ∧ satp w' = satp w
  ∧ page_walks w' = page_walks w + 1
  ∧ page_faults w' = page_faults w + (match res with Some _ => 0 | None => 1 end)
  ∧ (1 <= length evs <= 3)%nat
  ∧ head evs = Some (EvReadPTE (satp w) (Z.land (Z.shiftr va 30) 511)).
Proof.
  unfold translate, _decompose_va. intros Htr.
  apply rbind_Ok in Htr as (p2 & _ & Htr).
  destruct (negb (valid p2));
    [injection Htr as <- <- <-; simpl; repeat split; lia|].
  destruct (is_leaf p2);
    [injection Htr as <- <- <-; simpl; repeat split; lia|].
  apply rbind_Ok in Htr as (p1 & _ & Htr).
  destruct (negb (valid p1));
    [injection Htr as <- <- <-; simpl; repeat split; lia|].
  destruct (is_leaf p1);
    [injection Htr as <- <- <-; simpl; repeat split; lia|].
  apply rbind_Ok in Htr as (p0 & _ & Htr).
  destruct (negb (valid p0));
    [injection Htr as <- <- <-; simpl; repeat split; lia|].
  destruct (is_write && negb (writable p0));
    injection Htr as <- <- <-; simpl; repeat split; lia.
Qed.

Lemma translate_accounting_witness :
  ∃ w' evs, translate gigapage_walker 0x40000123 true false
            = Ok (Some 0x140000123, w', evs)
    ∧ page_walks w' = 1 ∧ page_faults w' = 0
    ∧ memory w' = memory gigapage_walker.
Proof.
  destruct (translate gigapage_walker 0x40000123 true false)
    as [[[res w'] evs]|] eqn:Htr; [|discriminate Htr].
  destruct (translate_accounting gigapage_walker 0x40000123 true false
              res w' evs Htr) as (Hm & _ & Hw & Hf & _).
  assert (res = Some 0x140000123) as ->.
  { vm_compute in Htr. by injection Htr as <- _ _. }
  by exists w', evs.
Defined.

(** *** The outcomes of [_write_pte] *)

(** X24. [_write_pte] raises [OverflowError] exactly when the PPN does
    not fit bits [63:10] of the word (negative, or [2^54] and above),
    and it does so before looking at the table; with a PPN that fits
    it raises [KeyError] when no table is stored at [table_pa], and
    stores the word otherwise.  A failed write changes nothing. *)
Theorem write_pte_outcomes (w : Walker) (table_pa index : Z)
  (pte : PageTableEntry) :
  (¬ 0 <= ppn pte < 2 ^ 54 →
   _write_pte w table_pa index pte = Raise OverflowError)
  ∧ (0 <= ppn pte < 2 ^ 54 → memory w !! table_pa = None →
     _write_pte w table_pa index pte = Raise KeyError)
  ∧ (0 <= ppn pte < 2 ^ 54 →
     ∀ tbl, memory w !! table_pa = Some tbl →
       ∃ w', _write_pte w table_pa index pte = Ok w'
             ∧ memory w' !! table_pa
               = Some (py_slice_assign tbl (index * 8) (index * 8 + 8)
                         (to_bytes_le 8 (pte_value pte)))).
Proof.
  split; [|split].
  - intros Hp. unfold _write_pte, to_bytes.
    pose proof (pte_value_sum pte) as Hs.
    destruct (pte_flags_cases pte) as (Hf & _).
    change (8 * Z.of_nat 8) with 64.
    destruct (Z.ltb_spec (pte_value pte) 0); [done|].
    destruct (Z.leb_spec (2 ^ 64) (pte_value pte)); [done|].
    exfalso. apply Hp. lia.
  - intros Hp Hnone. unfold _write_pte.
    rewrite to_bytes_Ok by (apply pte_value_range; done).
    rewrite result_bind_Ok. unfold get_table. by rewrite Hnone.
  - intros Hp tbl Htbl. eexists. split; [by apply write_pte_Ok|].
    cbn [memory with_memory]. apply lookup_insert_eq.
Qed.

Lemma write_pte_outcomes_witness :
  _write_pte (__init__ 65536) 65536 0
    (mkPTE true (2 ^ 54) true true false true false false false true)
  = Raise OverflowError
  ∧ _write_pte (__init__ 65536) 4096 0
      (mkPTE true 5 true true false true false false false true)
    = Raise KeyError.
Proof.
  split.
  - apply (write_pte_outcomes (__init__ 65536) 65536 0). simpl. lia.
  - apply (write_pte_outcomes (__init__ 65536) 4096 0); [simpl; lia|].
    reflexivity.
Defined.

(** X25. A successful [_write_pte] touches one entry: every other
    entry of the table and every entry of every other table reads as
    before, the table keeps its 4096 bytes, no table is added or
    removed, and [satp] and the counters stay. *)
Theorem write_pte_frame (w : Walker) (table_pa index : Z)
  (pte : PageTableEntry) (tbl : list byte) (w' : Walker) :
  memory w !! table_pa = Some tbl → length tbl = 4096%nat →
  0 <= index < 512 →
  _write_pte w table_pa index pte = Ok w' →
  satp w' = satp w ∧ page_walks w' = page_walks w
  ∧ page_faults w' = page_faults w
  ∧ (∃ tbl', memory w' !! table_pa = Some tbl' ∧ length tbl' = 4096%nat)
  ∧ (∀ t, t ≠ table_pa → memory w' !! t = memory w !! t)
  ∧ ∀ t j, 0 <= j < 512 → (t, j) ≠ (table_pa, index) →
           _read_pte w' t j = _read_pte w t j.
Proof.
  intros Htbl Hlen Hi Hw. unfold _write_pte in Hw.
  apply rbind_Ok in Hw as (bs & Hbs & Hw).
  unfold to_bytes in Hbs.
  destruct (_ || _) in Hbs; [done|]. injection Hbs as <-.
  unfold get_table in Hw. rewrite Htbl, result_bind_Ok in Hw.
  injection Hw as <-. cbn [satp page_walks page_faults memory with_memory].
  do 3 (split; [done|]).
  assert (index * 8 + 8
          = index * 8 + Z.of_nat (length (to_bytes_le 8 (pte_value pte))))
    as Hend by (rewrite length_to_bytes_le; lia).
  split.
  { eexists. split; [apply lookup_insert_eq|].
    rewrite Hend, length_py_slice_assign; [done|lia|].
    rewrite ?length_to_bytes_le. cbn [length]. rewrite Hlen. lia. }
  split; [intros t Ht; by rewrite lookup_insert_ne|].
  intros t j Hj Hne. unfold _read_pte, get_table. cbn [memory with_memory].
  destruct (decide (t = table_pa)) as [->|Ht];
    [|by rewrite lookup_insert_ne].
  rewrite lookup_insert_eq, Htbl, !result_bind_Ok.
  assert (j ≠ index) as Hji by congruence.
  replace (j * 8 + 8) with (j * 8 + Z.of_nat 8) by lia.
  rewrite Hend, py_slice_assign_frame; try done;
    rewrite ?length_to_bytes_le, ?Hlen; cbn [length]; lia.
Qed.

Lemma write_pte_frame_witness :
  ∃ w', _write_pte (__init__ 65536) 65536 1
          (mkPTE true 5 true true false true false false false true)
        = Ok w'
      ∧ _read_pte w' 65536 2 = _read_pte (__init__ 65536) 65536 2.
Proof.
  destruct (_write_pte (__init__ 65536) 65536 1
              (mkPTE true 5 true true false true false false false true))
    as [w'|] eqn:Hw; [|discriminate Hw].
  exists w'. split; [done|].
  destruct (write_pte_frame (__init__ 65536) 65536 1
              (mkPTE true 5 true true false true false false false true)
              empty_table w')
    as (_ & _ & _ & _ & _ & Hfr);
    [reflexivity|apply length_empty_table|lia|exact Hw|].
  apply Hfr; [lia|]. intros [= ?].
Defined.

(** *** Mapped pages and their permissions *)

Lemma map_page_translate_prefix_offset_witness :
  ∃ w w' evs res,
    map_page (__init__ 0x10000) 0x401000 0x12345000 true true false true
      0x20000 0x30000 = Ok w
    ∧ translate w 0x401234 true false = Ok (Some res, w', evs)
    ∧ Z.shiftr res 12 = Z.shiftr 0x12345000 12
    ∧ Z.land res 4095 = Z.land 0x401234 4095.
Proof.
  apply (map_page_translate_prefix_offset 0x10000 0x20000 0x30000
           0x401000 0x12345000 0x401234 true true false true true false);
    try reflexivity; try (unfold rand_in_range; lia);
    try (vm_compute; congruence).
Defined.

Lemma map_page_other_page_faults_witness :
  ∃ w evs,
    map_page (__init__ 0x10000) 0x401000 0x12345000 true true false true
      0x20000 0x30000 = Ok w
    ∧ translate w 0x402000 false false
      = Ok (None, incr_page_faults (incr_page_walks w), evs).
Proof.
  apply (map_page_other_page_faults 0x10000 0x20000 0x30000
           0x401000 0x12345000 0x402000 true true false true false false);
    try (unfold rand_in_range; lia); try (vm_compute; congruence).
  right. right. vm_compute. congruence.
Defined.

(** X26. A page mapped with [writable=False] is write-protected: when
    the three tables of the mapping were allocated at different pages,
    a write translation of any address of the page reads the three
    levels, counts a page fault and returns [None]. *)
Theorem map_page_write_protected (rroot rand1 rand0 va pa va' : Z)
  (rd ex us verbose : bool) :
  rand_in_range rand1 → rand_in_range rand0 →
  Z.land rand1 (Z.lnot 4095) ≠ Z.land rroot (Z.lnot 4095) →
  Z.land rand0 (Z.lnot 4095) ≠ Z.land rroot (Z.lnot 4095) →
  Z.land rand0 (Z.lnot 4095) ≠ Z.land rand1 (Z.lnot 4095) →
  0 <= pa < 2 ^ 66 →
  Z.land (Z.shiftr va' 30) 511 = Z.land (Z.shiftr va 30) 511 →
  Z.land (Z.shiftr va' 21) 511 = Z.land (Z.shiftr va 21) 511 →
  Z.land (Z.shiftr va' 12) 511 = Z.land (Z.shiftr va 12) 511 →
  ∃ w, map_page (__init__ rroot) va pa rd false ex us rand1 rand0 = Ok w
       ∧ translate w va' true verbose
         = Ok (None, incr_page_faults (incr_page_walks w),
               [EvReadPTE (Z.land rroot (Z.lnot 4095))
                  (Z.land (Z.shiftr va 30) 511);
                EvReadPTE (Z.land rand1 (Z.lnot 4095))
                  (Z.land (Z.shiftr va 21) 511);
                EvReadPTE (Z.land rand0 (Z.lnot 4095))
                  (Z.land (Z.shiftr va 12) 511)]).
Proof.
  intros Hr1 Hr0 H12 H02 H01 Hpa Hv2 Hv1 Hv0.
  destruct (map_page_fresh rroot rand1 rand0 va pa rd false ex us)
    as (w & Hmap & Hsatp & _ & _ & Hm2 & Hm1 & Hm0); try done.
  exists w. split; [done|].
  set (a2 := Z.land rroot (Z.lnot 4095)) in *.
  set (a1 := Z.land rand1 (Z.lnot 4095)) in *.
  set (a0 := Z.land rand0 (Z.lnot 4095)) in *.
  set (vpn2 := Z.land (Z.shiftr va 30) 511) in *.
  set (vpn1 := Z.land (Z.shiftr va 21) 511) in *.
  set (vpn0 := Z.land (Z.shiftr va 12) 511) in *.
  assert (Z.shiftl (Z.shiftr a1 12) 12 = a1) as Ha1 by apply alloc_aligned.
  assert (Z.shiftl (Z.shiftr a0 12) 12 = a0) as Ha0 by apply alloc_aligned.
  pose proof (read_single_entry_table w a2 vpn2 vpn2 _ Hm2
                (vpn_range _) (vpn_range _) (alloc_ppn_range _ Hr1)) as Hrd2.
  pose proof (read_single_entry_table w a1 vpn1 vpn1 _ Hm1
                (vpn_range _) (vpn_range _) (alloc_ppn_range _ Hr0)) as Hrd1.
  pose proof (read_single_entry_table w a0 vpn0 vpn0 _ Hm0
                (vpn_range _) (vpn_range _) (ppn_range _ Hpa)) as Hrd0.
  rewrite decide_True in Hrd2 by done.
  rewrite decide_True in Hrd1 by done.
  rewrite decide_True in Hrd0 by done.
  unfold translate, _decompose_va. rewrite Hv2, Hv1, Hv0.
  change (_read_pte (incr_page_walks w)) with (_read_pte w).
  change (satp (incr_page_walks w)) with (satp w). rewrite Hsatp.
  fold vpn2 vpn1 vpn0.
  rewrite Hrd2, result_bind_Ok.
  cbn [reread pointer_pte valid is_leaf ppn readable writable executable
       orb negb].
  rewrite Ha1, Hrd1, result_bind_Ok.
  cbn [reread pointer_pte valid is_leaf ppn readable writable executable
       orb negb].
  rewrite Ha0, Hrd0, result_bind_Ok.
  by cbn [reread leaf_pte valid ppn writable negb andb].
Qed.

Lemma map_page_write_protected_witness :
  ∃ w, map_page (__init__ 0x10000) 0x401000 0x12345000 true false false true
         0x20000 0x30000 = Ok w
       ∧ translate w 0x401234 true false
         = Ok (None, incr_page_faults (incr_page_walks w),
               [EvReadPTE 0x10000 0; EvReadPTE 0x20000 2;
                EvReadPTE 0x30000 1]).
Proof.
  apply (map_page_write_protected 0x10000 0x20000 0x30000
           0x401000 0x12345000 0x401234 true false true false);
    try reflexivity; try (unfold rand_in_range; lia);
    try (vm_compute; congruence).
Defined.

Lemma length_single_entry_table (i : Z) (pte : PageTableEntry) :
  0 <= i < 512 → length (single_entry_table i pte) = 4096%nat.
Proof.
  intros Hi. unfold single_entry_table.
  replace (i * 8 + 8)
    with (i * 8 + Z.of_nat (length (to_bytes_le 8 (pte_value pte))))
    by (rewrite length_to_bytes_le; lia).
  rewrite length_py_slice_assign; [apply length_empty_table|lia|].
  rewrite length_to_bytes_le, length_empty_table. lia.
Qed.

(** An entry of a table other than the one overwritten. *)
Lemma read_pte_other_entry (w w' : Walker) (t i j : Z) (tbl bs : list byte) :
  memory w !! t = Some tbl →
  memory w' !! t = Some (py_slice_assign tbl (i * 8) (i * 8 + 8) bs) →
  length bs = 8%nat → length tbl = 4096%nat →
  0 <= i < 512 → 0 <= j < 512 → j ≠ i →
  _read_pte w' t j = _read_pte w t j.
Proof.
  intros Htbl Htbl' Hbs Hlen Hi Hj Hji. unfold _read_pte, get_table.
  rewrite Htbl, Htbl', !result_bind_Ok.
  replace (j * 8 + 8) with (j * 8 + Z.of_nat 8) by lia.
  replace (i * 8 + 8) with (i * 8 + Z.of_nat (length bs))
    by (rewrite Hbs; lia).
  rewrite py_slice_assign_frame; try done; rewrite ?Hbs, ?Hlen; lia.
Qed.

(** X27. [map_page] reuses the tables that exist.  After a first
    mapping (its three tables at different pages), mapping a second
    page with the same level-2 and level-1 indices allocates nothing,
    whatever the allocator would have drawn, and writes one leaf into
    the existing level-0 table: the second page translates to its
    frame, and the first page keeps its translation unless the second
    mapping has the same level-0 index too, where it replaces it. *)
Theorem map_page_shares_tables (rroot rand1 rand0 va pa vb pb : Z)
  (rd wr ex us rd' wr' ex' us' verbose : bool) :
  rand_in_range rand1 → rand_in_range rand0 →
  Z.land rand1 (Z.lnot 4095) ≠ Z.land rroot (Z.lnot 4095) →
  Z.land rand0 (Z.lnot 4095) ≠ Z.land rroot (Z.lnot 4095) →
  Z.land rand0 (Z.lnot 4095) ≠ Z.land rand1 (Z.lnot 4095) →
  0 <= pa < 2 ^ 66 → 0 <= pb < 2 ^ 66 →
  Z.land (Z.shiftr vb 30) 511 = Z.land (Z.shiftr va 30) 511 →
  Z.land (Z.shiftr vb 21) 511 = Z.land (Z.shiftr va 21) 511 →
  ∃ w1 w2,
    map_page (__init__ rroot) va pa rd wr ex us rand1 rand0 = Ok w1
    ∧ (∀ r1 r0, map_page w1 vb pb rd' wr' ex' us' r1 r0 = Ok w2)
    ∧ (∀ t, is_Some (memory w2 !! t) ↔ is_Some (memory w1 !! t))
    ∧ (∃ evs, translate w2 vb false verbose
              = Ok (Some (Z.lor (Z.shiftl (Z.shiftr pb 12) 12)
                            (Z.land vb 4095)), incr_page_walks w2, evs))
    ∧ (Z.land (Z.shiftr va 12) 511 ≠ Z.land (Z.shiftr vb 12) 511 →
       ∃ evs, translate w2 va false verbose
              = Ok (Some (Z.lor (Z.shiftl (Z.shiftr pa 12) 12)
                            (Z.land va 4095)), incr_page_walks w2, evs)).
Proof.
  intros Hr1 Hr0 H12 H02 H01 Hpa Hpb Hv2 Hv1.
  destruct (map_page_fresh rroot rand1 rand0 va pa rd wr ex us)
    as (w1 & Hmap & Hsatp & _ & _ & Hm2 & Hm1 & Hm0); try done.
  set (a2 := Z.land rroot (Z.lnot 4095)) in *.
  set (a1 := Z.land rand1 (Z.lnot 4095)) in *.
  set (a0 := Z.land rand0 (Z.lnot 4095)) in *.
  set (vpn2 := Z.land (Z.shiftr va 30) 511) in *.
  set (vpn1 := Z.land (Z.shiftr va 21) 511) in *.
  set (vpn0 := Z.land (Z.shiftr va 12) 511) in *.
  set (vpn0b := Z.land (Z.shiftr vb 12) 511) in *.
  set (leaf := leaf_pte (Z.shiftr pa 12) rd wr ex us) in *.
  set (leafb := leaf_pte (Z.shiftr pb 12) rd' wr' ex' us').
  assert (0 <= vpn0 < 512) as Hi0 by apply vpn_range.
  assert (0 <= vpn0b < 512) as Hi0b by apply vpn_range.
  assert (Z.shiftl (Z.shiftr a1 12) 12 = a1) as Ha1 by apply alloc_aligned.
  assert (Z.shiftl (Z.shiftr a0 12) 12 = a0) as Ha0 by apply alloc_aligned.
  pose proof (read_single_entry_table w1 a2 vpn2 vpn2 _ Hm2
                (vpn_range _) (vpn_range _) (alloc_ppn_range _ Hr1)) as Hrd2.
  pose proof (read_single_entry_table w1 a1 vpn1 vpn1 _ Hm1
                (vpn_range _) (vpn_range _) (alloc_ppn_range _ Hr0)) as Hrd1.
  rewrite decide_True in Hrd2 by done.
  rewrite decide_True in Hrd1 by done.
  set (w2 := with_memory w1
               (<[a0 := py_slice_assign (single_entry_table vpn0 leaf)
                          (vpn0b * 8) (vpn0b * 8 + 8)
                          (to_bytes_le 8 (pte_value leafb))]> (memory w1))).
  assert (memory w2 !! a2 = memory w1 !! a2) as Hw2a2
    by (unfold w2; cbn [memory with_memory]; by rewrite lookup_insert_ne).
  assert (memory w2 !! a1 = memory w1 !! a1) as Hw2a1
    by (unfold w2; cbn [memory with_memory]; by rewrite lookup_insert_ne).
  assert (memory w2 !! a0
          = Some (py_slice_assign (single_entry_table vpn0 leaf)
                    (vpn0b * 8) (vpn0b * 8 + 8)
                    (to_bytes_le 8 (pte_value leafb)))) as Hw2a0
    by (unfold w2; cbn [memory with_memory]; by rewrite lookup_insert_eq).
  assert (∀ j, _read_pte w2 a2 j = _read_pte w1 a2 j) as Hr2.
  { intros j. unfold _read_pte, get_table. by rewrite Hw2a2. }
  assert (∀ j, _read_pte w2 a1 j = _read_pte w1 a1 j) as Hr1'.
  { intros j. unfold _read_pte, get_table. by rewrite Hw2a1. }
  assert (_read_pte w2 a0 vpn0b = Ok (reread leafb)) as Hrdb.
  { apply (read_pte_written w2 a0 vpn0b leafb (single_entry_table vpn0 leaf));
      [done|by apply length_single_entry_table|done|].
    by apply ppn_range. }
  exists w1, w2. split; [done|]. split; [|split; [|split]].
  - intros r1 r0. unfold map_page, _decompose_va.
    rewrite Hv2, Hv1, Hsatp. fold vpn2 vpn1 vpn0b.
    rewrite Hrd2, result_bind_Ok.
    cbn [reread pointer_pte valid negb]. rewrite result_bind_Ok.
    cbn [reread pointer_pte ppn].
    rewrite Ha1, Hrd1, result_bind_Ok.
    cbn [reread pointer_pte valid negb]. rewrite result_bind_Ok.
    cbn [reread pointer_pte ppn].
    rewrite Ha0.
    by rewrite (write_pte_Ok w1 a0 vpn0b _ (single_entry_table vpn0 leaf))
      by (done || by apply ppn_range).
  - intros t. unfold w2. cbn [memory with_memory].
    destruct (decide (t = a0)) as [->|Ht].
    + rewrite lookup_insert_eq, Hm0. split; by eexists.
    + by rewrite lookup_insert_ne.
  - eexists. unfold translate, _decompose_va.
    rewrite Hv2, Hv1. fold vpn2 vpn1 vpn0b.
    change (_read_pte (incr_page_walks w2)) with (_read_pte w2).
    change (satp (incr_page_walks w2)) with (satp w1). rewrite Hsatp.
    rewrite Hr2, Hrd2, result_bind_Ok.
    cbn [reread pointer_pte valid is_leaf ppn readable writable executable
         orb negb].
    rewrite Ha1, Hr1', Hrd1, result_bind_Ok.
    cbn [reread pointer_pte valid is_leaf ppn readable writable executable
         orb negb].
    rewrite Ha0, Hrdb, result_bind_Ok.
    by cbn [reread leafb leaf_pte valid ppn writable negb andb].
  - intros Hne0.
    assert (_read_pte w2 a0 vpn0 = Ok (reread leaf)) as Hrda.
    { assert (length (to_bytes_le 8 (pte_value leafb)) = 8%nat) as Hl8
        by apply length_to_bytes_le.
      pose proof (length_single_entry_table vpn0 leaf Hi0) as Hl.
      rewrite (read_pte_other_entry w1 w2 a0 vpn0b vpn0 _ _ Hm0 Hw2a0 Hl8 Hl
                 Hi0b Hi0 Hne0).
      pose proof (read_single_entry_table w1 a0 vpn0 vpn0 _ Hm0
                    Hi0 Hi0 (ppn_range _ Hpa)) as Hrd0.
      by rewrite decide_True in Hrd0 by done. }
    eexists. unfold translate, _decompose_va. fold vpn2 vpn1 vpn0.
    change (_read_pte (incr_page_walks w2)) with (_read_pte w2).
    change (satp (incr_page_walks w2)) with (satp w1). rewrite Hsatp.
    rewrite Hr2, Hrd2, result_bind_Ok.
    cbn [reread pointer_pte valid is_leaf ppn readable writable executable
         orb negb].
    rewrite Ha1, Hr1', Hrd1, result_bind_Ok.
    cbn [reread pointer_pte valid is_leaf ppn readable writable executable
         orb negb].
    rewrite Ha0, Hrda, result_bind_Ok.
    by cbn [reread leaf leaf_pte valid ppn writable negb andb].
Qed.

Lemma map_page_shares_tables_witness :
  ∃ w1 w2,
    map_page (__init__ 0x10000) 0x401000 0x12345000 true true false true
      0x20000 0x30000 = Ok w1
    ∧ map_page w1 0x402000 0x6000 true true false true 0x40000 0x50000
      = Ok w2
    ∧ (∃ evs, translate w2 0x402ABC false false
              = Ok (Some 0x6ABC, incr_page_walks w2, evs))
    ∧ (∃ evs, translate w2 0x401234 false false
              = Ok (Some 0x12345234, incr_page_walks w2, evs)).
Proof.
  destruct (map_page_shares_tables 0x10000 0x20000 0x30000
              0x401000 0x12345000 0x402ABC 0x6000
              true true false true true true false true false)
    as (w1 & w2 & Hm1 & Hm2 & _ & Hb & _);
    try reflexivity; try (unfold rand_in_range; lia);
    try (vm_compute; congruence).
  destruct (map_page_shares_tables 0x10000 0x20000 0x30000
              0x401234 0x12345000 0x402000 0x6000
              true true false true true true false true false)
    as (w1' & w2' & Hm1' & Hm2' & _ & _ & Ha);
    try reflexivity; try (unfold rand_in_range; lia);
    try (vm_compute; congruence).
  change (map_page (__init__ 65536) 4198964 305418240 true true false true
            131072 196608)
    with (map_page (__init__ 65536) 4198400 305418240 true true false true
            131072 196608) in Hm1'.
  rewrite Hm1 in Hm1'. injection Hm1' as <-.
  specialize (Hm2 0x40000 0x50000). specialize (Hm2' 0x40000 0x50000).
  change (map_page w1 4205244 24576 true true false true 262144 327680)
    with (map_page w1 4202496 24576 true true false true 262144 327680)
    in Hm2.
  rewrite Hm2 in Hm2'. injection Hm2' as <-.
  exists w1, w2. split; [done|]. split; [done|]. split; [exact Hb|].
  apply Ha. vm_compute. congruence.
Defined.

End PageWalkProps.

(** ** Properties of the TLB route of the web front end *)

Module WebAppProps.
Import TLBSim TLBSpec WebApp.

Lemma page_size_map_get_default (s : string) :
  s ≠ "4KB"%string → s ≠ "2MB"%string → s ≠ "1GB"%string →
  page_size_map_get s = (KB_4, 12).
Proof.
  intros H4 H2 H1. unfold page_size_map_get.
  destruct (String.eqb_spec s "4KB"); [done|].
  destruct (String.eqb_spec s "2MB"); [done|].
  by destruct (String.eqb_spec s "1GB").
Qed.

Lemma shiftr_page_base (va : Z) :
  Z.shiftr (Z.land va (Z.lnot (Z.shiftl 1 12 - 1))) 12 = Z.shiftr va 12.
Proof.
  change (Z.shiftl 1 12 - 1) with (Z.ones 12).
  rewrite <- Z.ldiff_land, Z.ldiff_ones_r by lia.
  rewrite Z.shiftr_shiftl_l by lia. apply Z.shiftl_0_r.
Qed.

(** With 4 KiB pages, a well-formed address and at least one TLB
    entry, the handler answers with success: one miss, no hit, and the
    translation found by the page walk. *)
Lemma tlb_translate_4KB_succeeds (int16 : string → result Z)
  (data : Request) (va : Z) :
  page_size_map_get (default "4KB"%string (req_page_size data))
  = (KB_4, 12) →
  int16 (default "0x401000"%string (req_va data)) = Ok va →
  0 < default 64 (req_num_entries data) →
  ∃ pa, tlb_translate int16 data = Success va pa true 0 1 0.
Proof.
  intros Hps Hva Hn. unfold tlb_translate, tlb_translate_body.
  rewrite Hva, result_bind_Ok, Hps.
  set (n := default 64 (req_num_entries data)) in *.
  set (mask := Z.lnot (Z.shiftl 1 12 - 1)).
  set (t := install_mapping _ _ _ _ _ _ _).
  destruct (TLBProps.translate_miss t va KB_4 false false
              (_extract_vpn (Z.land (Z.lor (Z.land va mask) 268435456) mask)
                 KB_4))
    as (victim & t' & Htr & _ & _ & _ & Hm & Hh).
  - unfold wf. subst t. simpl. rewrite length_replicate. lia.
  - done.
  - intros j y Hy [Hv _]. subst t. simpl in Hy.
    apply lookup_replicate in Hy as [-> _]. done.
  - unfold _page_walk. subst t. simpl.
    replace (_extract_vpn (Z.land va mask) KB_4) with (_extract_vpn va KB_4)
      by (symmetry; apply shiftr_page_base).
    apply lookup_insert_eq.
  - rewrite Htr, result_bind_Ok. cbn [bool_decide].
    replace (hits t') with 0 by (rewrite Hh; done).
    replace (misses t') with 1 by (rewrite Hm; done).
    eexists. reflexivity.
Qed.

(** C8, as the code has it.  A page-size string outside
    {4KB, 2MB, 1GB} does not make the request fail: the handler falls
    back to the 4 KiB page size, answers exactly as it does for "4KB",
    and, given a well-formed address and at least one TLB entry,
    answers with success. *)
Theorem tlb_translate_unknown_page_size (int16 : string → result Z)
  (data : Request) (s : string) :
  req_page_size data = Some s →
  s ≠ "4KB"%string → s ≠ "2MB"%string → s ≠ "1GB"%string →
  tlb_translate int16 data
  = tlb_translate int16
      (mkRequest (req_num_entries data) (req_va data) (Some "4KB"%string))
  ∧ (∀ va, int16 (default "0x401000"%string (req_va data)) = Ok va →
           0 < default 64 (req_num_entries data) →
           ∃ pa, tlb_translate int16 data = Success va pa true 0 1 0).
Proof.
  intros Hs H4 H2 H1.
  pose proof (page_size_map_get_default s H4 H2 H1) as Hget.
  split.
  - unfold tlb_translate, tlb_translate_body. cbn [req_num_entries req_va
      req_page_size]. rewrite Hs. cbn [default from_option id].
    by rewrite Hget.
  - intros va Hva Hn. apply tlb_translate_4KB_succeeds; [|done|done].
    rewrite Hs. exact Hget.
Qed.

Lemma tlb_translate_unknown_page_size_witness :
  tlb_translate hex_literal
    (mkRequest (Some 64) (Some "0x401000"%string) (Some "16KB"%string))
  = tlb_translate hex_literal
      (mkRequest (Some 64) (Some "0x401000"%string) (Some "4KB"%string))
  ∧ (∀ va, hex_literal "0x401000" = Ok va →
           0 < 64 →
           ∃ pa, tlb_translate hex_literal
                   (mkRequest (Some 64) (Some "0x401000"%string)
                      (Some "16KB"%string))
                 = Success va pa true 0 1 0).
Proof.
  apply (tlb_translate_unknown_page_size hex_literal
           (mkRequest (Some 64) (Some "0x401000"%string)
              (Some "16KB"%string)) "16KB").
  - reflexivity.
  - discriminate.
  - discriminate.
  - discriminate.
Defined.

(** C8 as stated fails: the request with page size "16KB" is answered
    with success, translated with 4 KiB pages. *)
Lemma unknown_page_size_is_served :
  tlb_translate hex_literal
    (mkRequest (Some 64) (Some "0x401000"%string) (Some "16KB"%string))
  = Success 4198400 (Some 272633856) true 0 1 0.
Proof. by vm_compute. Qed.

(** *** The answers of [/api/tlb/translate] *)

Lemma page_size_map_get_consistent (s : string) :
  ∃ ps, page_size_map_get s = (ps, offset_bits ps).
Proof.
  unfold page_size_map_get.
  destruct (String.eqb s "4KB"); [by exists KB_4|].
  destruct (String.eqb s "2MB"); [by exists MB_2|].
  destruct (String.eqb s "1GB"); [by exists GB_1|by exists KB_4].
Qed.

Lemma land_page_mask (x k : Z) :
  0 <= k →
  Z.land x (Z.lnot (Z.shiftl 1 k - 1)) = Z.shiftl (Z.shiftr x k) k.
Proof.
  intros Hk. rewrite shiftl_1_ones by done.
  by rewrite <- Z.ldiff_land, Z.ldiff_ones_r.
Qed.

Lemma shiftr_shiftl_same (x k : Z) :
  0 <= k → Z.shiftr (Z.shiftl x k) k = x.
Proof.
  intros Hk. rewrite Z.shiftr_shiftl_l, Z.sub_diag by lia.
  apply Z.shiftl_0_r.
Qed.

(** The address the handler's own mapping translates [va] to. *)
Lemma default_mapping_pa (va : Z) (ps : PageSize) :
  let mask := Z.lnot (Z.shiftl 1 (offset_bits ps) - 1) in
  _extract_vpn (Z.land va mask) ps = _extract_vpn va ps
  ∧ _construct_pa
      (_extract_vpn (Z.land (Z.lor (Z.land va mask) 268435456) mask) ps)
      (_extract_offset va ps) ps
    = if decide (ps = GB_1) then va else Z.lor va 268435456.
Proof.
  cbv zeta. set (k := offset_bits ps).
  assert (0 <= k) as Hk by by destruct ps.
  unfold _extract_vpn, _construct_pa, _extract_offset. fold k.
  rewrite !land_page_mask, !shiftr_shiftl_same by done.
  split; [done|].
  rewrite Z.shiftr_lor, shiftr_shiftl_same, Z.shiftl_lor by done.
  rewrite shiftl_1_ones by done.
  rewrite <- Z.lor_assoc,
    (Z.lor_comm (Z.shiftl (Z.shiftr 268435456 k) k)), Z.lor_assoc.
  rewrite split_recompose by done.
  subst k. destruct ps; simpl offset_bits.
  - by rewrite decide_False.
  - by rewrite decide_False.
  - rewrite decide_True by done.
    change (Z.shiftl (Z.shiftr 268435456 30) 30) with 0.
    apply Z.lor_0_r.
Qed.

(** X28. The TLB route builds a new TLB for every request, installs
    its own mapping and translates once.  With a well-formed address
    and at least one entry the answer is always a success with
    ['hit'] true and the statistics hits 0, misses 1, reach 0; the
    address returned is [va | 0x10000000] for 4 KiB and 2 MiB pages
    and [va] itself for 1 GiB pages, reported as [None] when it is 0.
    With [num_entries <= 0] the request fails with [IndexError]. *)
Theorem tlb_translate_answer (int16 : string → result Z) (data : Request)
  (va : Z) :
  int16 (default "0x401000"%string (req_va data)) = Ok va →
  (0 < default 64 (req_num_entries data) →
   ∃ ps pa,
     page_size_map_get (default "4KB"%string (req_page_size data))
     = (ps, offset_bits ps)
     ∧ pa = (if decide (ps = GB_1) then va else Z.lor va 268435456)
     ∧ tlb_translate int16 data
       = Success va (if pa =? 0 then None else Some pa) true 0 1 0)
  ∧ (default 64 (req_num_entries data) <= 0 →
     tlb_translate int16 data = Failure IndexError).
Proof.
  intros Hva.
  destruct (page_size_map_get_consistent
              (default "4KB"%string (req_page_size data))) as [ps Hps].
  destruct (default_mapping_pa va ps) as [Hvpn Hpa]. cbv zeta in Hvpn, Hpa.
  unfold tlb_translate, tlb_translate_body.
  rewrite Hva, result_bind_Ok, Hps.
  set (n := default 64 (req_num_entries data)) in *.
  set (mask := Z.lnot (Z.shiftl 1 (offset_bits ps) - 1)) in *.
  set (t := install_mapping _ _ _ _ _ _ _).
  assert (no_match t (_extract_vpn va ps) ps) as Hno.
  { intros j y Hy [Hv _]. subst t. simpl in Hy.
    apply lookup_replicate in Hy as [-> _]. done. }
  assert (_page_walk t (_extract_vpn va ps) ps
          = Some (_extract_vpn
                    (Z.land (Z.lor (Z.land va mask) 268435456) mask) ps))
    as Hpw.
  { unfold _page_walk. subst t. simpl. rewrite <- Hvpn.
    apply lookup_insert_eq. }
  split.
  - intros Hn. exists ps, (if decide (ps = GB_1) then va
                           else Z.lor va 268435456).
    split; [done|]. split; [done|].
    destruct (TLBProps.translate_miss t va ps false false _
                ltac:(unfold wf; subst t; simpl;
                      rewrite length_replicate; lia) Hn Hno Hpw)
      as (victim & t' & Htr & _ & _ & _ & Hm & Hh).
    rewrite Htr, result_bind_Ok, Hpa. cbn [bool_decide].
    replace (hits t') with 0 by (rewrite Hh; done).
    replace (misses t') with 1 by (rewrite Hm; done).
    rewrite bool_decide_eq_true_2 by by eexists. done.
  - intros Hn. unfold translate.
    assert (entries t = []) as He.
    { subst t. simpl. replace (Z.to_nat n) with 0%nat by lia. done. }
    unfold _find_entry. cbn [num_entries t install_mapping with_page_table
                             __init__].
    rewrite (seqZ_nil 0 n) by done. cbn [_find_entry_loop].
    rewrite result_bind_Ok. unfold _page_walk in *.
    cbn [page_table with_misses] in *. rewrite Hpw.
    unfold _find_victim.
    cbn [num_entries with_misses entries t install_mapping with_page_table
         __init__].
    rewrite (seqZ_nil 0 n) by done. cbn [_find_invalid_loop].
    rewrite result_bind_Ok.
    replace (Z.to_nat n) with 0%nat by lia. done.
Qed.

Lemma tlb_translate_answer_witness :
  tlb_translate hex_literal (mkRequest None (Some "0x40001234"%string)
                               (Some "1GB"%string))
  = Success 0x40001234 (Some 0x40001234) true 0 1 0
  ∧ tlb_translate hex_literal (mkRequest (Some 0) None None)
    = Failure IndexError.
Proof.
  destruct (tlb_translate_answer hex_literal
              (mkRequest None (Some "0x40001234"%string)
                 (Some "1GB"%string)) 0x40001234 eq_refl) as [Hok _].
  destruct (tlb_translate_answer hex_literal
              (mkRequest (Some 0) None None) 0x401000 eq_refl)
    as [_ Hfail].
  split; [|apply Hfail; simpl; lia].
  destruct Hok as (ps & pa & Hps & -> & ->); [simpl; lia|].
  injection Hps as <-. reflexivity.
Defined.

(** *** The answers of [/api/cache/access] *)

Lemma set_state_loop_spec (c : CacheSim.Cache) (s : nat)
  (set rest : list CacheSim.CacheLine) (k : nat) :
  CacheSim.cache c !! s = Some set → drop k set = rest →
  set_state_loop c (Z.of_nat s)
    (seqZ (Z.of_nat k) (Z.of_nat (length rest)))
  = Ok (zip_with way_state (seqZ (Z.of_nat k) (Z.of_nat (length rest)))
          rest).
Proof.
  intros Hset. revert k. induction rest as [|x rest IH]; intros k Hk.
  - done.
  - cbn [length]. rewrite seqZ_nat_cons. cbn [set_state_loop zip_with].
    assert (set !! k = Some x) as Hx.
    { rewrite <- (Nat.add_0_r k), <- lookup_drop, Hk. done. }
    rewrite CacheProps.get_line_nat. unfold CacheSpec.line_at.
    rewrite Hset. cbn [mbind option_bind]. rewrite Hx, result_bind_Ok.
    rewrite (IH (S k)), result_bind_Ok; [done|].
    rewrite (drop_S set x k Hx) in Hk. by injection Hk.
Qed.

Lemma zip_with_replicate_r {A B C : Type} (f : A → B → C) (l : list A)
  (x : B) :
  zip_with f l (replicate (length l) x) = (λ a, f a x) <$> l.
Proof. induction l as [|a l IH]; [done|]. simpl. by rewrite IH. Qed.

(** X29. The cache route builds a new cache for every request, so it
    never reports a hit.  Whenever the constructor accepts the
    geometry and [tag_bits] is not negative, the answer is a success
    with ['hit'] false, the decomposition of the address, one read
    miss (one write miss when ['type'] is ['write']; any other type is
    a read), no hit and no eviction; in the reported set, way 0 holds
    the block (LRU stamp 1, dirty exactly for a write) and every other
    way is invalid. *)
Theorem cache_access_answer (int16 : string → result Z)
  (data : CacheRequest) (address : Z) (c : CacheSim.Cache) :
  int16 (default "0x0"%string (creq_address data)) = Ok address →
  CacheSim.__init__ (default 4096 (creq_size data))
    (default 64 (creq_block_size data))
    (default 4 (creq_associativity data)) 32 = Ok c →
  0 <= CacheSim.tag_bits c →
  ∃ t i o,
    CacheSim._decompose_address c address = Ok (t, i, o)
    ∧ cache_access int16 data
      = CacheSuccess
          (mkCacheAnswer false address t i o
             (CacheSim.tag_bits c) (CacheSim.index_bits c)
             (CacheSim.offset_bits c)
             (mkWayState 0 true
                (String.eqb (default "read"%string (creq_type data)) "write")
                (Some t) 1
              :: ((λ w, mkWayState w false false None 0)
                    <$> seqZ 1 (CacheSim.associativity c - 1)))
             0
             (if String.eqb (default "read"%string (creq_type data)) "write"
              then 0 else 1)
             0
             (if String.eqb (default "read"%string (creq_type data)) "write"
              then 1 else 0)
             0).
Proof.
  intros Hva Hinit Htag.
  pose proof (CacheProps.init_wf _ _ _ _ c Hinit) as Hwf.
  destruct (CacheProps.decompose_address_total c address
              (CacheSpec.wf_offset_bits c Hwf)
              (CacheSpec.wf_index_bits c Hwf) Htag) as (t & i & o & Hdec).
  exists t, i, o. split; [done|].
  unfold cache_access, cache_access_body.
  rewrite Hva, result_bind_Ok, Hinit, result_bind_Ok, Hdec, result_bind_Ok.
  set (wr := String.eqb (default "read"%string (creq_type data)) "write").
  set (ty := if wr then CacheSim.WRITE else CacheSim.READ).
  assert ((if wr then CacheSim.write c address false
           else CacheSim.read c address false)
          = CacheSim.access c address ty false) as ->
    by by destruct wr.
  assert (CacheSim.is_write ty = wr) as Hty by by destruct wr.
  destruct (CacheProps.access_total c address ty false Hwf Htag)
    as (hit & c' & Hacc).
  rewrite Hacc, result_bind_Ok.
  destruct (CacheProps.access_effect c address ty false hit c' Hwf Hacc)
    as (t' & s & o' & set & w & line & Hdec' & Hset & Hw & Hgeo & _ & Hrh
        & Hwh & Hrm & Hwm & Hev & _ & Hcase).
  rewrite Hdec in Hdec'. injection Hdec' as <- -> <-.
  destruct (CacheProps.init_inv _ _ _ _ _ Hinit)
    as (_ & _ & Hways & _ & _ & _ & Hc).
  set (ways := default 4 (creq_associativity data)) in *.
  assert (CacheSim.associativity c = ways) as Hassoc by by rewrite Hc.
  assert (set = replicate (Z.to_nat ways) CacheSim.CacheLine_default)
    as Hrep.
  { rewrite Hc in Hset. cbn [CacheSim.cache] in Hset.
    by apply lookup_replicate in Hset as [-> _]. }
  assert (line = CacheSim.CacheLine_default) as ->.
  { rewrite Hrep in Hw. by apply lookup_replicate in Hw as [-> _]. }
  assert (CacheSim.read_hits c = 0 ∧ CacheSim.read_misses c = 0
          ∧ CacheSim.write_hits c = 0 ∧ CacheSim.write_misses c = 0
          ∧ CacheSim.evictions c = 0 ∧ CacheSim.global_lru_counter c = 0)
    as (H1 & H2 & H3 & H4 & H5 & H6) by by rewrite Hc.
  destruct Hcase as [(_ & Hv & _)|(-> & _ & Hvic & Hc')]; [done|].
  assert (w = 0%nat) as ->.
  { destruct Hvic as [(x & _ & _ & Hlow)|[Hall _]].
    - destruct w as [|w]; [done|].
      assert (set !! 0%nat = Some CacheSim.CacheLine_default) as H0.
      { rewrite Hrep. apply lookup_replicate_2. lia. }
      specialize (Hlow 0%nat _ ltac:(lia) H0). done.
    - specialize (Hall _ _ Hw). done. }
  destruct Hgeo as (_ & _ & Ha & _ & _ & _ & Ho & Hi & Ht).
  set (set' := <[0%nat := CacheSpec.touched_line t (CacheSim.is_write ty)
                            (CacheSim.global_lru_counter c + 1)]> set)
    in *.
  assert (CacheSim.cache c' !! s = Some set') as Hset'.
  { rewrite Hc'. apply list_lookup_insert_eq. by eapply lookup_lt_Some. }
  assert (∃ m, Z.to_nat ways = S m) as [m Hm].
  { exists (Z.to_nat ways - 1)%nat. lia. }
  assert (length set' = S m) as Hlen.
  { unfold set'. by rewrite length_insert, Hrep, length_replicate. }
  pose proof (set_state_loop_spec c' s set' set' 0 Hset' eq_refl) as Hloop.
  rewrite Hlen in Hloop. change (Z.of_nat 0) with 0 in Hloop.
  rewrite Ha, Hassoc. replace ways with (Z.of_nat (S m)) at 1 by lia.
  rewrite Hloop, result_bind_Ok.
  rewrite Ho, Hi, Ht, Hrh, Hwh, Hrm, Hwm, Hev, H1, H2, H3, H4, H5, Hty.
  f_equal. f_equal; [|by destruct wr].
  change 0 with (Z.of_nat 0) at 1. rewrite seqZ_nat_cons.
  unfold set'. rewrite Hrep, Hm. cbn [replicate]. cbn [insert list_insert].
  cbn [zip_with]. f_equal.
  - unfold way_state, CacheSpec.touched_line. cbn. by rewrite Hty, H6.
  - replace (Z.of_nat m) with (ways - 1) by lia.
    replace (replicate m CacheSim.CacheLine_default)
      with (replicate (length (seqZ 1 (ways - 1)))
              CacheSim.CacheLine_default)
      by (rewrite length_seqZ; f_equal; lia).
    change (Z.of_nat 1) with 1. by rewrite zip_with_replicate_r.
Qed.

Lemma cache_access_answer_witness :
  cache_access hex_literal
    (mkCacheRequest None None None (Some "0x1234"%string)
       (Some "write"%string))
  = CacheSuccess
      (mkCacheAnswer false 0x1234 4 8 0x34 22 4 6
         [mkWayState 0 true true (Some 4) 1;
          mkWayState 1 false false None 0;
          mkWayState 2 false false None 0;
          mkWayState 3 false false None 0]
         0 0 0 1 0).
Proof.
  destruct (cache_access_answer hex_literal
              (mkCacheRequest None None None (Some "0x1234"%string)
                 (Some "write"%string)) 0x1234
              (CacheSim.mkCache 4096 64 4 32 64 16 6 4 22
                 (replicate 16 (replicate 4 CacheSim.CacheLine_default))
                 0 0 0 0 0 0 0))
    as (t & i & o & Hdec & ->); [reflexivity|reflexivity|simpl; lia|].
  vm_compute in Hdec. by injection Hdec as <- <- <-.
Defined.

(** *** The answers of [/api/vipt/analyze] *)

(** The shift-counting loop computes the binary logarithm, rounded
    down, and 0 for arguments below 2; it needs one iteration more than
    its result. *)
Lemma shift_count_loop_spec (fuel : nat) (temp bits : Z) :
  (Z.to_nat (Z.log2 temp) < fuel)%nat →
  shift_count_loop fuel temp bits = Some (bits + Z.log2 temp).
Proof.
  revert temp bits. induction fuel as [|fuel IH]; intros temp bits Hf;
    [lia|].
  cbn [shift_count_loop]. destruct (Z.ltb_spec 1 temp) as [Hgt|Hle].
  - pose proof (Z.log2_pos temp Hgt) as Hpos.
    assert (Z.log2 (Z.shiftr temp 1) = Z.log2 temp - 1) as Hl.
    { rewrite Z.log2_shiftr by lia. lia. }
    rewrite IH by (rewrite Hl; lia). f_equal. lia.
  - assert (Z.log2 temp = 0) as -> by by apply Z.log2_null.
    f_equal. lia.
Qed.

(** X30. The VIPT route always answers: with a zero
    [block_size * associativity] the floor division fails and the
    request is refused; otherwise the three counting loops terminate
    and the answer holds [num_sets = cache_size // (block_size *
    associativity)], the floor binary logarithms of [num_sets] and
    [page_size] as index and page-offset bits, and [is_safe] is the
    comparison of those two alone: the block-offset bits take no part
    in the verdict. *)
Theorem vipt_analyze_answer (data : VIPTRequest) (cs a bs ps : Z) :
  default 32768 (vreq_cache_size data) = cs →
  default 4 (vreq_associativity data) = a →
  default 64 (vreq_block_size data) = bs →
  default 4096 (vreq_page_size data) = ps →
  (bs * a = 0 → ∀ fuel, vipt_analyze fuel data = VIPTZeroDivision)
  ∧ (bs * a ≠ 0 →
     ∀ fuel,
       (Z.to_nat (Z.log2 (Z.max bs (Z.max (cs / (bs * a)) ps))) < fuel)%nat →
       vipt_analyze fuel data
       = VIPTSuccess cs a bs ps (cs / (bs * a))
           (Z.log2 (cs / (bs * a))) (Z.log2 ps)
           (Z.log2 (cs / (bs * a)) <=? Z.log2 ps)).
Proof.
  intros <- <- <- <-. unfold vipt_analyze.
  set (cs := default 32768 (vreq_cache_size data)).
  set (a := default 4 (vreq_associativity data)).
  set (bs := default 64 (vreq_block_size data)).
  set (ps := default 4096 (vreq_page_size data)).
  split.
  - intros H0 fuel. by rewrite H0.
  - intros Hne fuel Hfuel.
    set (n := cs / (bs * a)) in *.
    pose proof (Z.log2_le_mono bs (Z.max bs (Z.max n ps)) ltac:(lia)).
    pose proof (Z.log2_le_mono n (Z.max bs (Z.max n ps)) ltac:(lia)).
    pose proof (Z.log2_le_mono ps (Z.max bs (Z.max n ps)) ltac:(lia)).
    destruct (Z.eqb_spec (bs * a) 0) as [|_]; [done|].
    rewrite !shift_count_loop_spec by lia. done.
Qed.

Lemma vipt_analyze_answer_witness :
  vipt_analyze 16 (mkVIPTRequest None None None None)
  = VIPTSuccess 32768 4 64 4096 128 7 12 true
  ∧ vipt_analyze 16 (mkVIPTRequest None (Some 0) None None)
    = VIPTZeroDivision.
Proof.
  destruct (vipt_analyze_answer (mkVIPTRequest None None None None)
              32768 4 64 4096 eq_refl eq_refl eq_refl eq_refl)
    as [_ Hok].
  destruct (vipt_analyze_answer (mkVIPTRequest None (Some 0) None None)
              32768 0 64 4096 eq_refl eq_refl eq_refl eq_refl)
    as [Hzero _].
  split; [|by apply Hzero].
  apply Hok; [done|]. vm_compute. lia.
Defined.

End WebAppProps.
